(** * solidtime browser extension: issue detection, PKCE, token refresh,
      401 retry, control injection and the popup timer

    A shallow embedding of the TypeScript sources
      entrypoints/utils/linear.ts, jira.ts, plane.ts   (issue detection)
      entrypoints/utils/oauth.ts                       (token store, refresh)
      entrypoints/utils/api.ts                         (401 interceptor)
      entrypoints/utils/timeEntries.ts                 (mutations, useTimer)
      entrypoints/popup/components/MainTimeEntryTable.vue
      unnamed/part_001, lines 1-179                    (background script:
                                                        PKCE, OAuth callback)
      unnamed/part_001, lines 180-433                  (content script:
                                                        page-load handlers)
      unnamed/part_002                                 (settings dialog)
      unnamed/part_003                                 (memberships)
    and the properties proved about them.

    Part I holds the definitions, Part II the theorems on the token
    store, the client, the OAuth flow, the issue pages, the injected
    section and the timer, Part III further theorems on the same
    code. *)

From Stdlib Require Import Ascii String NArith ZArith Lia List Bool Arith.
From stdpp Require Import base gmap strings list.
Import ListNotations.

#[local] Open Scope nat_scope.

(* ===================================================================== *)
(** * Part I: definitions                                                 *)
(* ===================================================================== *)

(** ** JavaScript strings

    A JavaScript string is modelled as the list of its characters.  The
    strings the modelled code inspects (URL path names, query strings,
    base64 text) are ASCII, so a character is an [ascii]. *)

Module Js.

Definition str := list ascii.

(** A literal of the source, written as a Rocq string. *)
Definition lit (s : string) : str := list_ascii_of_string s.

Definition chr_eqb (a b : ascii) : bool := Ascii.eqb a b.

Fixpoint str_eqb (s t : str) : bool :=
  match s, t with
  | [], [] => true
  | a :: s', b :: t' => chr_eqb a b && str_eqb s' t'
  | _, _ => false
  end.

(** [s.startsWith(p)] *)
Fixpoint startsWith (p s : str) : bool :=
  match p, s with
  | [], _ => true
  | a :: p', b :: s' => chr_eqb a b && startsWith p' s'
  | _ :: _, [] => false
  end.

(** [s.includes(p)] *)
Fixpoint includes (p s : str) : bool :=
  startsWith p s ||
  match s with
  | [] => false
  | _ :: s' => includes p s'
  end.

(** JavaScript truthiness of a string: the empty string is falsy. *)
Definition truthy (s : str) : bool :=
  match s with [] => false | _ => true end.

End Js.

(** ** Regular expressions

    The source uses regular-expression literals with [^], [$], character
    classes, greedy [+], a greedy optional non-capturing group and capture
    groups.  They are embedded as syntax trees and run by a backtracking
    matcher that lists every way to match in the order in which a
    JavaScript engine tries them: the head of the list is what [exec]
    returns. *)

Module Regex.
Import Js.

Inductive re : Type :=
| Eps                         (* the empty pattern *)
| Bol                         (* ^ *)
| Eol                         (* $ *)
| Cls (p : ascii -> bool)     (* one character: literal, class or dot *)
| Seq (r1 r2 : re)            (* r1 r2 *)
| Plus (r : re)               (* r+   (greedy) *)
| Opt (r : re)                (* (?:r)?   (greedy) *)
| Grp (i : nat) (r : re).     (* (r) as capture group number i *)

(** Captures: group number and captured text, most recent first. *)
Definition caps := list (nat * str).

(** A matcher state: characters consumed so far from the start of the
    subject, the remaining input, the captures made. *)
Record mstate := MS { ms_pos : nat; ms_rest : str; ms_caps : caps }.

(** The loop of a greedy [+]: one iteration, then as many more as
    possible before giving characters back; an iteration that consumed
    nothing is not repeated.  [n] bounds the number of iterations. *)
Section Iterate.
Variable once : mstate -> list mstate.

Fixpoint iterate (n : nat) (x : mstate) : list mstate :=
  flat_map
    (fun y =>
       match n with
       | S n' => if Nat.ltb (ms_pos x) (ms_pos y) then iterate n' y else []
       | O => []
       end ++ [y])
    (once x).
End Iterate.

Fixpoint m (r : re) (x : mstate) : list mstate :=
  match r with
  | Eps => [x]
  | Bol => if Nat.eqb (ms_pos x) 0 then [x] else []
  | Eol => match ms_rest x with [] => [x] | _ :: _ => [] end
  | Cls p =>
      match ms_rest x with
      | a :: s' => if p a then [MS (S (ms_pos x)) s' (ms_caps x)] else []
      | [] => []
      end
  | Seq r1 r2 => flat_map (m r2) (m r1 x)
  | Opt r1 => m r1 x ++ [x]
  | Grp i r1 =>
      map (fun y => MS (ms_pos y) (ms_rest y)
                       ((i, firstn (ms_pos y - ms_pos x) (ms_rest x))
                          :: ms_caps y))
          (m r1 x)
  | Plus r1 => iterate (m r1) (length (ms_rest x)) x
  end.

(** The result of a successful [exec]: where the match starts and ends
    and what the groups captured. *)
Record rmatch := RM { rm_index : nat; rm_end : nat; rm_groups : caps }.

(** [regex.exec(s)] without the [g] flag: the first match at the
    leftmost start position. *)
Fixpoint search (r : re) (pos : nat) (s : str) : option rmatch :=
  match m r (MS pos s []) with
  | y :: _ => Some (RM pos (ms_pos y) (ms_caps y))
  | [] =>
      match s with
      | [] => None
      | _ :: s' => search r (S pos) s'
      end
  end.

Definition exec (r : re) (s : str) : option rmatch := search r 0 s.

(** [regex.test(s)] *)
Definition test (r : re) (s : str) : bool :=
  match exec r s with Some _ => true | None => false end.

(** [match[i]]: [None] is JavaScript's [undefined]. *)
Fixpoint lookup_group (i : nat) (c : caps) : option str :=
  match c with
  | [] => None
  | (j, t) :: c' => if Nat.eqb i j then Some t else lookup_group i c'
  end.

Definition group (i : nat) (mt : rmatch) : option str :=
  lookup_group i (rm_groups mt).

(** *** Building blocks for the literals of the source *)

Definition chr (c : ascii) : re := Cls (chr_eqb c).

Fixpoint text (s : str) : re :=
  match s with
  | [] => Eps
  | c :: s' => Seq (chr c) (text s')
  end.

Fixpoint seqs (rs : list re) : re :=
  match rs with
  | [] => Eps
  | r :: rs' => Seq r (seqs rs')
  end.

(** [[^/]] *)
Definition not_slash (a : ascii) : bool := negb (chr_eqb a "/").

(** [[A-Z]] *)
Definition upper (a : ascii) : bool :=
  let n := nat_of_ascii a in Nat.leb 65 n && Nat.leb n 90.

(** [\d] *)
Definition digit (a : ascii) : bool :=
  let n := nat_of_ascii a in Nat.leb 48 n && Nat.leb n 57.

(** [.]: any character but a line terminator. *)
Definition dot (a : ascii) : bool :=
  let n := nat_of_ascii a in negb (Nat.eqb n 10 || Nat.eqb n 13).

(** *** What a pattern matches

    [den r pos w rest]: [r] matches the word [w] when [pos] characters
    precede it and [rest] follows it. *)

Inductive plus_den (D : nat -> str -> str -> Prop) : nat -> str -> str -> Prop :=
| plus_one pos w rest :
    D pos w rest -> plus_den D pos w rest
| plus_more pos w1 w2 rest :
    D pos w1 (w2 ++ rest) -> w1 <> [] ->
    plus_den D (pos + length w1) w2 rest ->
    plus_den D pos (w1 ++ w2) rest.

Fixpoint den (r : re) (pos : nat) (w rest : str) : Prop :=
  match r with
  | Eps => w = []
  | Bol => w = [] /\ pos = 0
  | Eol => w = [] /\ rest = []
  | Cls p => exists a, w = [a] /\ p a = true
  | Seq r1 r2 =>
      exists w1 w2, w = w1 ++ w2 /\ den r1 pos w1 (w2 ++ rest)
                    /\ den r2 (pos + length w1) w2 rest
  | Plus r1 => plus_den (den r1) pos w rest
  | Opt r1 => den r1 pos w rest \/ w = []
  | Grp _ r1 => den r1 pos w rest
  end.


(** A result of the matcher lies further in the same subject. *)
Definition extends_by (x y : mstate) (w : str) : Prop :=
  ms_rest x = w ++ ms_rest y /\ ms_pos y = ms_pos x + length w.

(** A pattern that matches at the start of the subject only. *)
Definition anchored (r : re) : Prop :=
  forall x, ms_pos x <> 0 -> m r x = [].

(** [leads r x y]: the first way in which [r] matches from [x] ends in
    [y]. *)
Definition leads (r : re) (x y : mstate) : Prop :=
  exists l, m r x = y :: l.

End Regex.

(** ** window.location *)

Module Location.
Import Js.

Record location := Loc {
  href : str;
  hostname : str;
  pathname : str;
  search : str;
}.

Definition is_one_of (cs : str) (a : ascii) : bool :=
  existsb (chr_eqb a) cs.

Fixpoint take_until (stop : ascii -> bool) (s : str) : str :=
  match s with
  | [] => []
  | a :: s' => if stop a then [] else a :: take_until stop s'
  end.

Fixpoint drop_until (stop : ascii -> bool) (s : str) : str :=
  match s with
  | [] => []
  | a :: s' => if stop a then s else drop_until stop s'
  end.

(** Characters after the first ["//"]. *)
Fixpoint after_slashes (s : str) : str :=
  match s with
  | a :: ((b :: s'') as s') =>
      if chr_eqb a "/" && chr_eqb b "/" then s'' else after_slashes s'
  | _ => []
  end.

(** Modelled from the URL standard, which the browser (not the
    repository) implements: the [window.location] of a page whose
    address is an http(s) URL [scheme://host/path?query#fragment]
    without credentials, port, dot segments or characters that need
    percent-encoding.  An empty path reads ["/"], an empty query reads
    [""]. *)
Definition of_url (url : str) : location :=
  let after := after_slashes url in
  let host := take_until (is_one_of (lit "/?#")) after in
  let after_host := drop_until (is_one_of (lit "/?#")) after in
  let path := take_until (is_one_of (lit "?#")) after_host in
  let after_path := drop_until (is_one_of (lit "?#")) after_host in
  let query := take_until (is_one_of (lit "#")) after_path in
  {| href := url;
     hostname := host;
     pathname := match path with [] => lit "/" | _ => path end;
     search := match query with [_] => [] | _ => query end |}.

End Location.

(** ** entrypoints/utils/linear.ts *)

Module Linear.
Import Js Regex Location.

Record LinearIssueInfo := {
  issueId : str;
  issueTitle : str;
  projectKey : str;
  fullUrl : str;
}.

(** [/^\/[^/]+\/issue\/[^/]+/] *)
Definition urlPattern : re :=
  seqs [Bol; chr "/"; Plus (Cls not_slash); text (lit "/issue/");
        Plus (Cls not_slash)].

Definition isLinearIssuePage (l : location) : bool :=
  test urlPattern (pathname l).

(** [/^\/([^/]+)\/issue\/([^/]+)(?:\/(.+))?/] *)
Definition pathPattern : re :=
  seqs [Bol; chr "/"; Grp 1 (Plus (Cls not_slash)); text (lit "/issue/");
        Grp 2 (Plus (Cls not_slash));
        Opt (Seq (chr "/") (Grp 3 (Plus (Cls dot))))].

(** [/^([A-Z]+)-/] *)
Definition projectKeyPattern : re :=
  seqs [Bol; Grp 1 (Plus (Cls upper)); chr "-"].

(** [x || ""] on a capture that may be [undefined]. *)
Definition or_empty (o : option str) : str :=
  match o with
  | Some s => if truthy s then s else []
  | None => []
  end.

Definition getLinearIssueInfo (l : location) : option LinearIssueInfo :=
  if negb (isLinearIssuePage l) then None
  else
    match exec pathPattern (pathname l) with
    | None => None
    | Some pathMatch =>
        (* const [, workspace, issueId, issueTitle] = pathMatch: group 2
           takes part in every match, group 3 may be undefined *)
        let issueId := default [] (group 2 pathMatch) in
        let issueTitle := group 3 pathMatch in
        let projectKey :=
          match exec projectKeyPattern issueId with
          | Some projectKeyMatch => default [] (group 1 projectKeyMatch)
          | None => []
          end in
        Some {| issueId := issueId;
                issueTitle := or_empty issueTitle;
                projectKey := projectKey;
                fullUrl := href l |}
    end.

(** A path is that of an issue page when it starts with
    [/{workspace}/issue/{key}]. *)
Definition issue_path (p : str) : Prop :=
  exists ws key tail,
    ws <> [] /\ forallb not_slash ws = true /\
    key <> [] /\ forallb not_slash key = true /\
    p = "/"%char :: ws ++ lit "/issue/" ++ key ++ tail.

End Linear.

(** ** entrypoints/utils/jira.ts *)

Module Jira.
Import Js Regex Location.

(** [/^\/jira\/software\/projects\/.+\/boards\/\d+/] *)
Definition boardUrlPattern : re :=
  seqs [Bol; text (lit "/jira/software/projects/"); Plus (Cls dot);
        text (lit "/boards/"); Plus (Cls digit)].

(** [/^\/browse\/[A-Z]+-\d+/] *)
Definition browseUrlPattern : re :=
  seqs [Bol; text (lit "/browse/"); Plus (Cls upper); chr "-";
        Plus (Cls digit)].

Definition isJiraIssuePage (l : location) : bool :=
  let hasSelectedIssue := includes (lit "selectedIssue=") (search l) in
  let isBoardView := test boardUrlPattern (pathname l) && hasSelectedIssue in
  let isBrowseView := test browseUrlPattern (pathname l) in
  isBoardView || isBrowseView.

(** A path that starts with
    [/jira/software/projects/{proj}/boards/{n}]. *)
Definition board_path (p : str) : Prop :=
  exists proj n tail,
    proj <> [] /\ forallb dot proj = true /\
    n <> [] /\ forallb digit n = true /\
    p = lit "/jira/software/projects/" ++ proj ++ lit "/boards/" ++ n ++ tail.

(** A path that starts with [/browse/{KEY}], [KEY] of the form
    [[A-Z]+-\d+]. *)
Definition browse_path (p : str) : Prop :=
  exists letters digits tail,
    letters <> [] /\ forallb upper letters = true /\
    digits <> [] /\ forallb digit digits = true /\
    p = lit "/browse/" ++ letters ++ "-"%char :: digits ++ tail.

(** The query string of a list of parameters. *)
Fixpoint join_params (params : list (str * str)) : str :=
  match params with
  | [] => []
  | [(k, v)] => k ++ "="%char :: v
  | (k, v) :: params' => k ++ "="%char :: v ++ "&"%char :: join_params params'
  end.

Definition query_string (params : list (str * str)) : str :=
  "?"%char :: join_params params.

End Jira.

(** ** entrypoints/utils/plane.ts *)

Module Plane.
Import Js Regex Location.

(** [/^\/[^/]+\/projects\/[^/]+\/issues\//] *)
Definition projectIssuesPattern : re :=
  seqs [Bol; chr "/"; Plus (Cls not_slash); text (lit "/projects/");
        Plus (Cls not_slash); text (lit "/issues/")].

(** [/^\/[^/]+\/browse\/[A-Z]+-\d+/] *)
Definition browsePattern : re :=
  seqs [Bol; chr "/"; Plus (Cls not_slash); text (lit "/browse/");
        Plus (Cls upper); chr "-"; Plus (Cls digit)].

Definition isPlaneIssuePage (l : location) : bool :=
  test projectIssuesPattern (pathname l) || test browsePattern (pathname l).

(** A path that starts with [/{ws}/projects/{id}/issues/]. *)
Definition issues_path (p : str) : Prop :=
  exists ws id tail,
    ws <> [] /\ forallb not_slash ws = true /\
    id <> [] /\ forallb not_slash id = true /\
    p = "/"%char :: ws ++ lit "/projects/" ++ id ++ lit "/issues/" ++ tail.

(** A path that starts with [/{ws}/browse/{KEY}], [KEY] of the form
    [[A-Z]+-\d+]. *)
Definition browse_path (p : str) : Prop :=
  exists ws letters digits tail,
    ws <> [] /\ forallb not_slash ws = true /\
    letters <> [] /\ forallb upper letters = true /\
    digits <> [] /\ forallb digit digits = true /\
    p = "/"%char :: ws ++ lit "/browse/" ++ letters ++ "-"%char :: digits ++ tail.

End Plane.

(** ** SHA-256

    Modelled from FIPS 180-4: the digest that the platform's
    [crypto.subtle.digest("SHA-256", data)] computes.  Bytes and 32-bit
    words are numbers in [N]; words wrap around at [2^32]. *)

Module Sha256.
#[local] Open Scope N_scope.

Definition w32 (x : N) : N := N.land x 0xffffffff.
Definition add32 (a b : N) : N := w32 (a + b).
Definition rotr (n x : N) : N :=
  N.lor (N.shiftr x n) (w32 (N.shiftl x (32 - n))).
Definition not32 (x : N) : N := N.lxor x 0xffffffff.

Definition Ch (x y z : N) : N := N.lxor (N.land x y) (N.land (not32 x) z).
Definition Maj (x y z : N) : N :=
  N.lxor (N.land x y) (N.lxor (N.land x z) (N.land y z)).
Definition Sigma0 (x : N) : N := N.lxor (rotr 2 x) (N.lxor (rotr 13 x) (rotr 22 x)).
Definition Sigma1 (x : N) : N := N.lxor (rotr 6 x) (N.lxor (rotr 11 x) (rotr 25 x)).
Definition sigma0 (x : N) : N := N.lxor (rotr 7 x) (N.lxor (rotr 18 x) (N.shiftr x 3)).
Definition sigma1 (x : N) : N := N.lxor (rotr 17 x) (N.lxor (rotr 19 x) (N.shiftr x 10)).

(** The first 64 prime numbers. *)
Definition is_prime (n : nat) : bool :=
  forallb (fun d => negb (Nat.eqb (Nat.modulo n d) 0)) (seq 2 (n - 2)).

Definition primes : list N := map N.of_nat (filter is_prime (seq 2 310)).

(** The integer cube root, one bit after the other. *)
Fixpoint cbrt_bits (bits : nat) (n r : N) : N :=
  match bits with
  | O => r
  | S b =>
      let c := r + N.shiftl 1 (N.of_nat b) in
      cbrt_bits b n (if c * c * c <=? n then c else r)
  end.

Definition cbrt (n : N) : N := cbrt_bits 40 n 0.

(** The round constants: the first 32 bits of the fractional parts of
    the cube roots of the first 64 primes. *)
Definition K : list N := map (fun p => w32 (cbrt (N.shiftl p 96))) primes.

(** The initial hash value: the first 32 bits of the fractional parts of
    the square roots of the first 8 primes. *)
Definition H0 : list N :=
  map (fun p => w32 (N.sqrt (N.shiftl p 64))) (firstn 8 primes).

(** The [n] low bytes of [x], most significant first. *)
Fixpoint be_bytes (n : nat) (x : N) : list N :=
  match n with
  | O => []
  | S n' => N.land (N.shiftr x (8 * N.of_nat n')) 0xff :: be_bytes n' x
  end.

(** Padding: a one bit, zeros up to 56 modulo 64 bytes, the bit length
    on 8 bytes. *)
Definition pad (msg : list N) : list N :=
  let len := length msg in
  let zeros := Nat.modulo (64 - Nat.modulo (len + 9) 64) 64 in
  msg ++ [0x80] ++ repeat 0 zeros ++ be_bytes 8 (8 * N.of_nat len).

Fixpoint words (bs : list N) : list N :=
  match bs with
  | a :: b :: c :: d :: bs' =>
      N.lor (N.shiftl a 24) (N.lor (N.shiftl b 16) (N.lor (N.shiftl c 8) d))
        :: words bs'
  | _ => []
  end.

(** Blocks of 16 words; [n] bounds the number of blocks. *)
Fixpoint blocks (n : nat) (ws : list N) : list (list N) :=
  match n, ws with
  | S n', _ :: _ => firstn 16 ws :: blocks n' (skipn 16 ws)
  | _, _ => []
  end.

(** The message schedule, built most recent word first. *)
Fixpoint extend (n : nat) (w : list N) : list N :=
  match n with
  | O => w
  | S n' =>
      let x := add32 (add32 (sigma1 (nth 1 w 0)) (nth 6 w 0))
                     (add32 (sigma0 (nth 14 w 0)) (nth 15 w 0)) in
      extend n' (x :: w)
  end.

Definition schedule (block : list N) : list N := rev (extend 48 (rev block)).

Definition round (s : list N) (kw : N * N) : list N :=
  match s with
  | [a; b; c; d; e; f; g; h] =>
      let T1 := add32 (add32 (add32 h (Sigma1 e)) (Ch e f g))
                      (add32 (fst kw) (snd kw)) in
      let T2 := add32 (Sigma0 a) (Maj a b c) in
      [add32 T1 T2; a; b; c; add32 d T1; e; f; g]
  | _ => s
  end.

Fixpoint add_words (xs ys : list N) : list N :=
  match xs, ys with
  | x :: xs', y :: ys' => add32 x y :: add_words xs' ys'
  | _, _ => []
  end.

Definition compress (H block : list N) : list N :=
  add_words H (fold_left round (combine K (schedule block)) H).

Definition digest (msg : list N) : list N :=
  let ws := words (pad msg) in
  flat_map (be_bytes 4) (fold_left compress (blocks (length ws) ws) H0).

End Sha256.

(** ** Base64

    Modelled from RFC 4648: the platform's [btoa] (section 4, with
    padding), and the encoding the specification names, URL-safe base64
    without padding (section 5). *)

Module Base64.
Import Js.
#[local] Open Scope N_scope.

Definition alphabet : str :=
  lit "ABCDEFGHIJKLMNOPQRSTUVWXYZabcdefghijklmnopqrstuvwxyz0123456789+/".

Definition url_alphabet : str :=
  lit "ABCDEFGHIJKLMNOPQRSTUVWXYZabcdefghijklmnopqrstuvwxyz0123456789-_".

Definition enc (table : str) (i : N) : ascii := nth (N.to_nat i) table "A"%char.

(** The four 6-bit groups of three bytes. *)
Definition sextet1 (a : N) : N := N.shiftr a 2.
Definition sextet2 (a b : N) : N :=
  N.lor (N.shiftl (N.land a 3) 4) (N.shiftr b 4).
Definition sextet3 (b c : N) : N :=
  N.lor (N.shiftl (N.land b 15) 2) (N.shiftr c 6).
Definition sextet4 (c : N) : N := N.land c 63.

Definition code (a : ascii) : N := N_of_ascii a.

Fixpoint btoa (s : str) : str :=
  match s with
  | [] => []
  | [a] =>
      [enc alphabet (sextet1 (code a)); enc alphabet (sextet2 (code a) 0);
       "="%char; "="%char]
  | [a; b] =>
      [enc alphabet (sextet1 (code a));
       enc alphabet (sextet2 (code a) (code b));
       enc alphabet (sextet3 (code b) 0); "="%char]
  | a :: b :: c :: s' =>
      [enc alphabet (sextet1 (code a));
       enc alphabet (sextet2 (code a) (code b));
       enc alphabet (sextet3 (code b) (code c));
       enc alphabet (sextet4 (code c))] ++ btoa s'
  end.

(** URL-safe base64 without padding, of a sequence of bytes. *)
Fixpoint base64url_nopad (bs : list N) : str :=
  match bs with
  | [] => []
  | [a] => [enc url_alphabet (sextet1 a); enc url_alphabet (sextet2 a 0)]
  | [a; b] =>
      [enc url_alphabet (sextet1 a); enc url_alphabet (sextet2 a b);
       enc url_alphabet (sextet3 b 0)]
  | a :: b :: c :: bs' =>
      [enc url_alphabet (sextet1 a); enc url_alphabet (sextet2 a b);
       enc url_alphabet (sextet3 b c); enc url_alphabet (sextet4 c)]
        ++ base64url_nopad bs'
  end.

End Base64.

(** ** The background script (unnamed/part_001, lines 8-22): the PKCE
       helpers *)

Module Pkce.
Import Js Regex.

(** The UTF-8 bytes of a character below U+0100. *)
Definition utf8 (a : ascii) : list N :=
  let c := N_of_ascii a in
  if (c <? 128)%N then [c]
  else [N.lor 0xC0 (N.shiftr c 6); N.lor 0x80 (N.land c 0x3F)].

(** [new TextEncoder().encode(plain)] *)
Definition TextEncoder_encode (plain : str) : list N := flat_map utf8 plain.

Definition sha256 (plain : str) : list N :=
  let data := TextEncoder_encode plain in
  Sha256.digest data.

(** [String.fromCharCode(b)] for a byte. *)
Definition fromCharCode (b : N) : ascii := ascii_of_N b.

(** [s.replace(/c/g, by)] for a one-character pattern. *)
Definition replace_all (c by_ : ascii) (s : str) : str :=
  map (fun a => if chr_eqb a c then by_ else a) s.

(** [/=+$/] *)
Definition trailing_equals : re := seqs [Plus (chr "="); Eol].

(** [s.replace(r, by)] without the [g] flag: the first match only. *)
Definition replace_first (r : re) (by_ : str) (s : str) : str :=
  match exec r s with
  | Some mt => firstn (rm_index mt) s ++ by_ ++ skipn (rm_end mt) s
  | None => s
  end.

Definition base64urlencode (a : list N) : str :=
  let str := map fromCharCode a in
  replace_first trailing_equals []
    (replace_all "/" "_" (replace_all "+" "-" (Base64.btoa str))).

(** [oauthChallenge = base64urlencode(await sha256(oauthVerifier))] *)
Definition challenge (oauthVerifier : str) : str :=
  let hashed := sha256 oauthVerifier in
  base64urlencode hashed.

(** The two replacements on one character. *)
Definition url_char (a : ascii) : ascii :=
  let a := if chr_eqb a "+" then "-"%char else a in
  if chr_eqb a "/" then "_"%char else a.

End Pkce.

(** ** entrypoints/utils/oauth.ts: the token store and its refresh

    The access and refresh tokens are two cells mirrored in
    [browser.storage.local]; [refreshPromise] is the module-level variable
    that holds the refresh in flight.  An [async] function runs until its
    first [await] and is resumed later, so a call leaves a pending promise
    together with the point at which its body is suspended, and [resume]
    runs the body from there to the next [await] or to its end.  Storage
    operations take effect when they are issued and always succeed. *)

Module OAuth.
#[local] Open Scope string_scope.

Record tokens := Tokens { access_token : string; refresh_token : string }.

(** The payload of a [REFRESH_TOKEN] message to the background. *)
Record message := RefreshToken {
  msg_endpoint : string;
  msg_clientId : string;
  msg_refreshToken : string;
}.

(** What [browser.runtime.sendMessage] settles with. *)
Inductive bg_response :=
| BgSuccess (data : tokens)      (* { success: true, data } *)
| BgFailure (error : string)     (* { success: false, error } *)
| BgRejected (error : string).   (* sendMessage itself rejects *)

Inductive outcome := Fulfilled | Rejected (error : string).

(** Where a suspended body waits. *)
Inductive cont :=
| KLoggedOut                 (* line 58: await storage.local.remove *)
| KResponse                  (* line 64: await runtime.sendMessage *)
| KStored (data : tokens)    (* line 78: await storage.local.set *)
| KCleared (error : string). (* line 88: await storage.local.remove *)

Inductive promise := Pending (k : cont) | Settled (o : outcome).

Record state := State {
  endpoint : string;
  clientId : string;
  accessToken : string;
  refreshToken : string;
  storage : gmap string string;
  refreshPromise : option nat;
  promises : list promise;
  sent : list message;
}.

Definition set_cells (a r : string) (st : state) : state :=
  State (endpoint st) (clientId st) a r (storage st) (refreshPromise st)
        (promises st) (sent st).

Definition set_storage (s : gmap string string) (st : state) : state :=
  State (endpoint st) (clientId st) (accessToken st) (refreshToken st) s
        (refreshPromise st) (promises st) (sent st).

Definition set_refreshPromise (p : option nat) (st : state) : state :=
  State (endpoint st) (clientId st) (accessToken st) (refreshToken st)
        (storage st) p (promises st) (sent st).

Definition set_promises (ps : list promise) (st : state) : state :=
  State (endpoint st) (clientId st) (accessToken st) (refreshToken st)
        (storage st) (refreshPromise st) ps (sent st).

(** [browser.runtime.sendMessage({ type: "REFRESH_TOKEN", payload })] *)
Definition sendMessage (msg : message) (st : state) : state :=
  State (endpoint st) (clientId st) (accessToken st) (refreshToken st)
        (storage st) (refreshPromise st) (promises st) (sent st ++ [msg]).

(** [browser.storage.local.remove(["access_token", "refresh_token"])] *)
Definition storage_remove_tokens (st : state) : state :=
  set_storage (delete "refresh_token" (delete "access_token" (storage st))) st.

(** [browser.storage.local.set({ access_token, refresh_token })] *)
Definition storage_set_tokens (t : tokens) (st : state) : state :=
  set_storage (<["refresh_token" := refresh_token t]>
                 (<["access_token" := access_token t]> (storage st))) st.

(** A new pending promise and its identifier. *)
Definition new_promise (k : cont) (st : state) : state * nat :=
  (set_promises (promises st ++ [Pending k]) st, length (promises st)).

Definition update_promise (p : nat) (v : promise) (st : state) : state :=
  set_promises (<[p := v]> (promises st)) st.

Definition NO_REFRESH_TOKEN : string :=
  "No refresh token available - user logged out".

(** A call of [refreshAccessToken()], up to its first [await].  The
    result names the promise whose outcome the caller observes: an
    [async] function that returns a promise settles as that promise
    does. *)
Definition refreshAccessToken (st : state) : state * nat :=
  match refreshPromise st with
  | Some p => (st, p)
  | None =>
      let currentRefreshToken := refreshToken st in
      if String.eqb currentRefreshToken "" then
        new_promise KLoggedOut (storage_remove_tokens (set_cells "" "" st))
      else
        let msg := RefreshToken (endpoint st) (clientId st) currentRefreshToken in
        let '(st1, p) := new_promise KResponse (sendMessage msg st) in
        (set_refreshPromise (Some p) st1, p)
  end.

(** What resumes a suspended body. *)
Inductive input :=
| StorageDone                  (* a storage operation completed *)
| Response (r : bg_response).  (* the background answered *)

(** The [catch] block of the refresh, up to its [await]. *)
Definition catch_block (p : nat) (error : string) (st : state) : state :=
  update_promise p (Pending (KCleared error))
    (storage_remove_tokens (set_cells "" "" st)).

(** [response.error || "Failed to refresh token"] *)
Definition failure_message (error : string) : string :=
  if String.eqb error "" then "Failed to refresh token" else error.

Definition resume (p : nat) (i : input) (st : state) : option state :=
  match promises st !! p, i with
  | Some (Pending KLoggedOut), StorageDone =>
      Some (update_promise p (Settled (Rejected NO_REFRESH_TOKEN)) st)
  | Some (Pending KResponse), Response (BgSuccess data) =>
      Some (update_promise p (Pending (KStored data))
              (storage_set_tokens data st))
  | Some (Pending KResponse), Response (BgFailure error) =>
      Some (catch_block p (failure_message error) st)
  | Some (Pending KResponse), Response (BgRejected error) =>
      Some (catch_block p error st)
  | Some (Pending (KStored data)), StorageDone =>
      Some (update_promise p (Settled Fulfilled)
              (set_refreshPromise None
                 (set_cells (access_token data) (refresh_token data) st)))
  | Some (Pending (KCleared error)), StorageDone =>
      Some (update_promise p (Settled (Rejected error))
              (set_refreshPromise None st))
  | _, _ => None
  end.

(** The outcome a holder of promise [p] observes. *)
Definition observe (st : state) (p : nat) : option outcome :=
  match promises st !! p with
  | Some (Settled o) => Some o
  | _ => None
  end.

(** [n] more calls, one after the other. *)
Fixpoint calls (n : nat) (st : state) : state * list nat :=
  match n with
  | O => (st, [])
  | S n' =>
      let '(st1, p) := refreshAccessToken st in
      let '(st2, ps) := calls n' st1 in
      (st2, p :: ps)
  end.

(** [await p]: the environment completes what [p] waits for, the
    background answering [r], until [p] settles. *)
Fixpoint await (fuel : nat) (r : bg_response) (p : nat) (st : state)
  : state * option outcome :=
  match promises st !! p with
  | Some (Settled o) => (st, Some o)
  | Some (Pending k) =>
      match fuel with
      | O => (st, None)
      | S fuel' =>
          let i := match k with KResponse => Response r | _ => StorageDone end in
          match resume p i st with
          | Some st' => await fuel' r p st'
          | None => (st, None)
          end
      end
  | None => (st, None)
  end.

(** [refreshPromise] names a pending refresh, and nothing else is a
    pending refresh. *)
Definition in_flight (k : cont) : bool :=
  match k with KLoggedOut => false | _ => true end.

Definition wf (st : state) : Prop :=
  match refreshPromise st with
  | Some p => exists k, promises st !! p = Some (Pending k) /\ in_flight k = true
  | None => True
  end.

(** What a refresh that waits at [k] settles with when the background
    answers [r]. *)
Definition outcome_of (r : bg_response) : outcome :=
  match r with
  | BgSuccess _ => Fulfilled
  | BgFailure error => Rejected (failure_message error)
  | BgRejected error => Rejected error
  end.

Definition final_outcome (r : bg_response) (k : cont) : outcome :=
  match k with
  | KLoggedOut => Rejected NO_REFRESH_TOKEN
  | KResponse => outcome_of r
  | KStored _ => Fulfilled
  | KCleared error => Rejected error
  end.

(** The events of one process: a call of [refreshAccessToken], or the
    completion of what a suspended body waits for (an event that nothing
    waits for changes nothing). *)
Inductive event :=
| Call
| Resume (p : nat) (i : input).

Definition step (e : event) (st : state) : state :=
  match e with
  | Call => fst (refreshAccessToken st)
  | Resume p i => default st (resume p i st)
  end.

Definition run (es : list event) (st : state) : state :=
  fold_left (fun st e => step e st) es st.

(** The state in which the module is loaded. *)
Definition initial (st : state) : Prop :=
  refreshPromise st = None /\ promises st = [].

(** The refresh with promise [p] is in flight. *)
Definition refreshing (st : state) (p : nat) : Prop :=
  exists k, promises st !! p = Some (Pending k) /\ in_flight k = true.

(** [refreshPromise] names the refresh in flight, and only that. *)
Definition single_flight (st : state) : Prop :=
  forall p, refreshing st p <-> refreshPromise st = Some p.

End OAuth.

(** ** entrypoints/utils/api.ts: the client and its response interceptor

    A request is answered by the server, which sees how many requests were
    sent before and the request itself.  [axios] and the interceptor call
    each other; [fuel] bounds the nesting of these calls. *)

Module Api.
#[local] Open Scope string_scope.

Record config := Config {
  url : string;
  Authorization : string;   (* headers.Authorization *)
  _retry : bool;
}.

Inductive reply :=
| Status (code : nat)
| NoResponse.                (* network error: the error has no response *)

(** What the promise of a request rejects with. *)
Inductive failure :=
| AxiosError (status : option nat) (cfg : config)  (* error.response?.status, error.config *)
| RefreshError (error : string).

Inductive result :=
| Resolved (status : nat)
| RejectedWith (f : failure)
| Unsettled.

Record world := World {
  auth : OAuth.state;
  requests : list config;    (* the requests sent, in order *)
  refreshes : nat;           (* calls of refreshAccessToken made *)
}.

Definition bearer (token : string) : string := "Bearer " ++ token.

(** axios' default [validateStatus] *)
Definition validateStatus (code : nat) : bool :=
  Nat.leb 200 code && Nat.ltb code 300.

Definition is401 (status : option nat) : bool :=
  match status with Some c => Nat.eqb c 401 | None => false end.

Section Environment.
Variable server : nat -> config -> reply.
Variable bg : OAuth.bg_response.

(** The rejection handler of the interceptor; [self] is
    [client.axios]. *)
Definition onRejected (self : config -> world -> world * result)
    (status : option nat) (originalRequest : config) (w : world)
  : world * result :=
  if is401 status && negb (_retry originalRequest) then
    let originalRequest :=
      Config (url originalRequest) (Authorization originalRequest) true in
    let '(a1, p) := OAuth.refreshAccessToken (auth w) in
    let '(a2, o) := OAuth.await 2 bg p a1 in
    let w2 := World a2 (requests w) (S (refreshes w)) in
    match o with
    | Some OAuth.Fulfilled =>
        let originalRequest :=
          Config (url originalRequest) (bearer (OAuth.accessToken a2))
                 (_retry originalRequest) in
        self originalRequest w2
    | Some (OAuth.Rejected refreshError) =>
        (w2, RejectedWith (RefreshError refreshError))
    | None => (w2, Unsettled)
    end
  else (w, RejectedWith (AxiosError status originalRequest)).

Fixpoint axios (fuel : nat) (cfg : config) (w : world) : world * result :=
  match fuel with
  | O => (w, Unsettled)
  | S fuel' =>
      let rep := server (length (requests w)) cfg in
      let w1 := World (auth w) (requests w ++ [cfg]) (refreshes w) in
      match rep with
      | Status code =>
          if validateStatus code then (w1, Resolved code)
          else onRejected (axios fuel') (Some code) cfg w1
      | NoResponse => onRejected (axios fuel') None cfg w1
      end
  end.

(** A request made through [apiClient()]. *)
Definition request (fuel : nat) (u : string) (w : world) : world * result :=
  axios fuel (Config u (bearer (OAuth.accessToken (auth w))) false) w.

End Environment.

(** What a request gives when the interceptor does not refresh. *)
Definition plain_result (rep : reply) (cfg : config) : result :=
  match rep with
  | Status code =>
      if validateStatus code then Resolved code
      else RejectedWith (AxiosError (Some code) cfg)
  | NoResponse => RejectedWith (AxiosError None cfg)
  end.

End Api.

(** ** The background script (unnamed/part_001, lines 28-144): the
       START_OAUTH_FLOW handler *)

Module Background.
Import Js Location.

(** The form body of the authorization-code POST to [/oauth/token]. *)
Record token_request := TokenRequest {
  grant_type : str;
  client_id : str;
  redirect_uri : str;
  code_verifier : str;
  code : str;
}.

(** What the [fetch] of the token endpoint gives. *)
Inductive fetch_result :=
| FetchOk (tokens : OAuth.tokens)   (* ok, and the JSON body *)
| FetchNotOk                        (* tokenResponse.ok is false *)
| FetchThrows (message : string).   (* fetch or json() throws *)

(** The argument of [sendResponse]. *)
Inductive response :=
| Success (data : OAuth.tokens)     (* { success: true, data } *)
| Failure (error : string).         (* { success: false, error } *)

Record state := State {
  oauthState : str;
  oauthVerifier : str;
  oauthChallenge : str;
  storage : gmap string string;         (* browser.storage.local *)
  tokenRequests : list token_request;   (* POSTs to /oauth/token *)
}.

(** Lines 37-40: the PKCE values of a new flow; the two random strings
    come from [createRandomString]. *)
Definition initPkce (randomState randomVerifier : str) (st : state) : state :=
  State randomState randomVerifier (Pkce.challenge randomVerifier)
        (storage st) (tokenRequests st).

(** [s.split(c)] *)
Fixpoint split (c : ascii) (s : str) : list str :=
  match s with
  | [] => [[]]
  | a :: s' =>
      if chr_eqb a c then [] :: split c s'
      else match split c s' with
           | piece :: pieces => (a :: piece) :: pieces
           | [] => [[a]]
           end
  end.

(** The value of a hexadecimal digit. *)
Definition hex_value (a : ascii) : option N :=
  let n := N_of_ascii a in
  if (48 <=? n)%N && (n <=? 57)%N then Some (n - 48)%N
  else if (65 <=? n)%N && (n <=? 70)%N then Some (n - 55)%N
  else if (97 <=? n)%N && (n <=? 102)%N then Some (n - 87)%N
  else None.

(** Modelled from the URL standard: percent-decoding.  [%] followed by
    two hexadecimal digits is the byte they name; any other [%] stays. *)
Fixpoint percent_decode (s : str) : str :=
  match s with
  | [] => []
  | a :: s' =>
      if chr_eqb a "%" then
        match s' with
        | h :: l :: rest =>
            match hex_value h, hex_value l with
            | Some x, Some y => ascii_of_N (16 * x + y) :: percent_decode rest
            | _, _ => a :: percent_decode s'
            end
        | _ => a :: percent_decode s'
        end
      else a :: percent_decode s'
  end.

(** Modelled from the URL standard: a name or a value of a query in the
    [application/x-www-form-urlencoded] format.  Every [+] is a space,
    then the text is percent-decoded.  The decoded bytes are read as
    UTF-8, which for the bytes below 128 is the character itself; the
    bytes of a character outside ASCII are kept here one by one. *)
Definition form_decode (s : str) : str :=
  percent_decode (map (fun a => if chr_eqb a "+" then " "%char else a) s).

(** Modelled from the URL standard, which the browser implements:
    [url.searchParams].  The query is cut at every [&], the empty pieces
    are dropped, a piece is cut at its first [=], and the name and the
    value are decoded. *)
Definition searchParams (l : location) : list (str * str) :=
  match search l with
  | [] => []
  | _ :: query =>
      map (fun piece =>
             (form_decode (take_until (chr_eqb "=") piece),
              form_decode (tl (drop_until (chr_eqb "=") piece))))
          (filter (fun piece => truthy piece) (split "&" query))
  end.

(** What [new URL(responseUrl)] gives: the parameters of the query of
    the URL, or the [TypeError] that it throws for a string that is not
    an absolute URL.  The parser is the browser's, so the handler takes
    it as [newURL]. *)
Inductive parsed :=
| Parsed (params : list (str * str))   (* url.searchParams *)
| InvalidUrl (message : string).       (* the message of the TypeError *)

(** [searchParams.get(name)]: [None] is [null]. *)
Fixpoint get (name : str) (params : list (str * str)) : option str :=
  match params with
  | [] => None
  | (k, v) :: params' => if str_eqb k name then Some v else get name params'
  end.

(** Truthiness of a string that may be [null]. *)
Definition present (o : option str) : bool :=
  match o with Some s => truthy s | None => false end.

(** [responseState !== oauthState] *)
Definition differs (responseState : option str) (expected : str) : bool :=
  match responseState with
  | Some s => negb (str_eqb s expected)
  | None => true
  end.

Definition message_or (default message : string) : string :=
  if String.eqb message "" then default else message.

(** The callback of [launchWebAuthFlow] (lines 61-132).  [lastError] is
    the message of [browser.runtime.lastError] when there is one;
    [newURL] and [fetch] are the browser's.  Whatever the [try] block
    throws, the [TypeError] of [new URL] included, is answered with its
    message by the [catch] block. *)
Definition onAuthFlow (endpoint clientId redirectUrl : str)
    (newURL : str -> parsed)
    (fetch : token_request -> fetch_result)
    (lastError : option string) (responseUrl : option str) (st : state)
  : state * response :=
  match lastError with
  | Some message => (st, Failure (message_or "OAuth failed" message))
  | None =>
      if negb (present responseUrl) then (st, Failure "No response URL")
      else
        match newURL (default [] responseUrl) with
        | InvalidUrl message => (st, Failure message)
        | Parsed searchParams =>
            let code := get (lit "code") searchParams in
            let responseState := get (lit "state") searchParams in
            let error := get (lit "error") searchParams in
            if present error then
              (st, Failure ("OAuth error: "
                              ++ string_of_list_ascii (default [] error)))
            else if differs responseState (oauthState st)
                    || negb (present code) then
              (st, Failure "Invalid state or missing code")
            else
              let req := TokenRequest (lit "authorization_code") clientId
                           redirectUrl (oauthVerifier st) (default [] code) in
              let st1 := State (oauthState st) (oauthVerifier st)
                           (oauthChallenge st) (storage st)
                           (tokenRequests st ++ [req]) in
              match fetch req with
              | FetchThrows message => (st1, Failure message)
              | FetchNotOk => (st1, Failure "Token exchange failed")
              | FetchOk tokens =>
                  (State (oauthState st1) (oauthVerifier st1)
                     (oauthChallenge st1)
                     (<["refresh_token" := OAuth.refresh_token tokens]>
                        (<["access_token" := OAuth.access_token tokens]>
                           (storage st1)))
                     (tokenRequests st1),
                   Success tokens)
              end
        end
  end.


End Background.

(** ** The content script (unnamed/part_001, lines 239-294) and
       utils/linear.ts: injecting the section

    The document is the list of the identifiers of its elements; the
    injected section is the element whose identifier is [SECTION_ID].
    [handlePageLoad] and [injectTimeTrackingSection] are [async]: each
    call runs until its first [await] and leaves a task that a later
    event resumes. *)

Module Content.
Import Js Location.
#[local] Open Scope string_scope.

Definition SECTION_ID : string := "solidtime-time-tracking-section".

(** Where a call is suspended. *)
Inductive task :=
| ElementFound          (* part_001 255: waitForElement resolved *)
| Polling               (* part_001 255: waitForElement polls *)
| CurrentTimeEntry      (* linear.ts 352: await getCurrentTimeEntry() *)
| Finished.

Record tab := Tab {
  location : location;         (* window.location *)
  document : list string;      (* the ids of the elements of the page *)
  sidebar : bool;              (* findPropertiesSidebar() finds it *)
  accessToken : string;
  tasks : list task;
}.

Definition set_document (d : list string) (t : tab) : tab :=
  Tab (location t) d (sidebar t) (accessToken t) (tasks t).

Definition set_tasks (ts : list task) (t : tab) : tab :=
  Tab (location t) (document t) (sidebar t) (accessToken t) ts.

(** [document.getElementById(id)] finds an element. *)
Definition getElementById (id : string) (d : list string) : bool :=
  existsb (String.eqb id) d.

(** [document.getElementById(id).remove()] *)
Fixpoint remove_first (id : string) (d : list string) : list string :=
  match d with
  | [] => []
  | e :: d' => if String.eqb id e then d' else e :: remove_first id d'
  end.

(** linear.ts 484 *)
Definition removeTimeTrackingSection (t : tab) : tab :=
  if getElementById SECTION_ID (document t)
  then set_document (remove_first SECTION_ID (document t)) t
  else t.

(** linear.ts 359-377: create the section and insert it in the
    container. *)
Definition insertSection (t : tab) : tab :=
  set_document (document t ++ [SECTION_ID]) t.

(** linear.ts 332-357: [injectTimeTrackingSection] up to its [await];
    the task it leaves takes the place of task [i]. *)
Definition injectTimeTrackingSection (i : nat) (skipExistingCheck : bool)
    (t : tab) : tab :=
  let existingSection := getElementById SECTION_ID (document t) in
  if existingSection && negb skipExistingCheck then
    set_tasks (<[i := Finished]> (tasks t)) t
  else
    let t := if existingSection
             then set_document (remove_first SECTION_ID (document t)) t
             else t in
    if negb (String.eqb (accessToken t) "") then
      set_tasks (<[i := CurrentTimeEntry]> (tasks t)) t
    else
      set_tasks (<[i := Finished]> (tasks t)) (insertSection t).

(** part_001 241-258: [handlePageLoad] up to its [await]. *)
Definition handlePageLoad (t : tab) : tab :=
  if negb (Linear.isLinearIssuePage (location t)) then
    removeTimeTrackingSection t
  else if getElementById SECTION_ID (document t) then t
  else
    set_tasks (tasks t ++ [if sidebar t then ElementFound else Polling]) t.

(** part_001 260-278: [handlePageLoad] after the sidebar was found. *)
Definition afterSidebar (i : nat) (t : tab) : tab :=
  match Linear.getLinearIssueInfo (location t) with
  | None => set_tasks (<[i := Finished]> (tasks t)) t
  | Some issueInfo => injectTimeTrackingSection i false t
  end.

Inductive event :=
| PageLoad                      (* the initial load, the URL observer, popstate *)
| Continue (i : nat)            (* task i goes on after waitForElement *)
| Frame (i : nat) (late : bool) (* an animation frame of waitForElement *)
| Answer (i : nat)              (* getCurrentTimeEntry() of task i settles *)
| Navigate (l : Location.location) (rendered : bool)  (* the host changes page *)
| HostRemoves                   (* the host drops the section *)
| Clicked.                      (* linear.ts 458: the click handler refreshes *)

Definition step (e : event) (t : tab) : tab :=
  match e with
  | PageLoad => handlePageLoad t
  | Continue i =>
      match tasks t !! i with
      | Some ElementFound => afterSidebar i t
      | _ => t
      end
  | Frame i late =>
      match tasks t !! i with
      | Some Polling =>
          if sidebar t then afterSidebar i t
          else if late then set_tasks (<[i := Finished]> (tasks t)) t
          else t
      | _ => t
      end
  | Answer i =>
      match tasks t !! i with
      | Some CurrentTimeEntry =>
          set_tasks (<[i := Finished]> (tasks t)) (insertSection t)
      | _ => t
      end
  | Navigate l rendered =>
      Tab l (document t) rendered (accessToken t) (tasks t)
  | HostRemoves =>
      set_document (filter (fun e => negb (String.eqb SECTION_ID e)) (document t)) t
  | Clicked =>
      if sidebar t
      then injectTimeTrackingSection (length (tasks t)) true
             (set_tasks (tasks t ++ [Finished]) t)
      else t
  end.

Definition run (es : list event) (t : tab) : tab :=
  fold_left (fun t e => step e t) es t.

(** How many elements carry the identifier of the section. *)
Definition sections (t : tab) : nat :=
  length (filter (String.eqb SECTION_ID) (document t)).

End Content.

(** ** entrypoints/utils/timeEntries.ts: the mutations and [useTimer]

    A timestamp is the string that [dayjs().utc().format()] prints, of the
    form [YYYY-MM-DDTHH:mm:ssZ]; it is modelled by the whole second it
    names, and the empty string of [emptyTimeEntry] by [NoStamp].  The
    clock is read in milliseconds. *)

Module Timer.
#[local] Open Scope string_scope.

Inductive stamp := NoStamp | At (second : N).

Definition format (now : N) : stamp := At (now / 1000)%N.

(** The order of the timestamps as strings. *)
Definition stamp_le (a b : stamp) : Prop :=
  match a, b with
  | NoStamp, _ => True
  | At _, NoStamp => False
  | At x, At y => (x <= y)%N
  end.

Record TimeEntry := {
  id : string;
  description : option string;
  user_id : string;
  start : stamp;
  end_ : option stamp;
  duration : option N;
  task_id : option string;
  project_id : option string;
  tags : list string;
  billable : bool;
  organization_id : option string;
}.

Definition emptyTimeEntry : TimeEntry :=
  {| id := ""; description := None; user_id := ""; start := NoStamp;
     end_ := None; duration := None; task_id := None; project_id := None;
     tags := []; billable := false; organization_id := Some "" |}.

Record membership := {
  membership_id : string;
  organization : string;      (* membership.organization.id *)
}.

(** The data of the query [['currentTimeEntry']]. *)
Inductive cached :=
| Entry (e : TimeEntry)                          (* a bare entry *)
| Data (e : TimeEntry) (member_id : option string).  (* { data: ... } *)

(** The mutations of scope ['timeEntry'] handed to the client. *)
Inductive mutation :=
| Stop (timeEntry : TimeEntry)
| Create (timeEntry : TimeEntry) (member_id : option string)
         (optimistic : TimeEntry).

Record popup := Popup {
  currentTimeEntry : TimeEntry;          (* useStorage 'currentTimeEntry' *)
  currentMembershipId : option string;
  memberships : list membership;
  currentTimeEntryQuery : option cached;
  mutations : list mutation;
}.

(** unnamed/part_003 34-39: [currentOrganizationId] *)
Definition currentOrganizationId (st : popup) : option string :=
  match currentMembershipId st with
  | None => None
  | Some mid =>
      option_map organization
        (find (fun m => String.eqb (membership_id m) mid) (memberships st))
  end.

(** timeEntries.ts 61-68: [mutate] of the stop mutation with its
    [onMutate] run to the end, and the mutation handed over.  [onMutate]
    writes the cache after two [await], so this is a call that nothing
    follows before they have settled; [TimerTasks] has the steps, and
    the case of a call that follows at once. *)
Definition timeEntryStop_mutate (timeEntry : TimeEntry) (st : popup) : popup :=
  Popup (currentTimeEntry st) (currentMembershipId st) (memberships st)
        (Some (Entry emptyTimeEntry))
        (mutations st ++ [Stop timeEntry]).

(** timeEntries.ts 134-145: [mutate] of the create mutation with its
    [onMutate] run to the end, with the identifier
    [self.crypto.randomUUID()] returned, and the mutation handed over;
    as above, for a call that nothing follows before the [await] of
    [onMutate] has settled. *)
Definition timeEntryCreate_mutate (variables : TimeEntry)
    (member_id : option string) (randomUUID : string) (st : popup) : popup :=
  let optimisticTimeEntry :=
    {| id := randomUUID;
       description := description variables;
       user_id := user_id variables;
       start := start variables;
       end_ := end_ variables;
       duration := duration variables;
       task_id := task_id variables;
       project_id := project_id variables;
       tags := tags variables;
       billable := billable variables;
       organization_id := currentOrganizationId st |} in
  Popup (currentTimeEntry st) (currentMembershipId st) (memberships st)
        (Some (Data optimisticTimeEntry member_id))
        (mutations st ++ [Create variables member_id optimisticTimeEntry]).

(** [endTime || dayjs().utc().format()] *)
Definition or_now (endTime : option stamp) (now : N) : stamp :=
  match endTime with
  | Some (At s) => At s
  | Some NoStamp | None => format now
  end.

Definition with_end (e : TimeEntry) (t : stamp) : TimeEntry :=
  {| id := id e; description := description e; user_id := user_id e;
     start := start e; end_ := Some t; duration := duration e;
     task_id := task_id e; project_id := project_id e; tags := tags e;
     billable := billable e; organization_id := organization_id e |}.

(** timeEntries.ts 207-218: [stopTimer(endTime?)], the clock reading
    [now], and the [onMutate] of its mutation. *)
Definition stopTimer (endTime : option stamp) (now : N) (st : popup) : popup :=
  let stoppedTimeEntry := currentTimeEntry st in
  let membershipId :=
    option_map membership_id
      (find (fun m =>
               match organization_id stoppedTimeEntry with
               | Some o => String.eqb (organization m) o
               | None => false
               end) (memberships st)) in
  let st := Popup emptyTimeEntry membershipId (memberships st)
                  (currentTimeEntryQuery st) (mutations st) in
  timeEntryStop_mutate (with_end stoppedTimeEntry (or_now endTime now)) st.

(** timeEntries.ts 225-244: [startTimer()], the clock reading [now],
    and the [onMutate] of its mutation. *)
Definition startTimer (now : N) (randomUUID : string) (st : popup) : popup :=
  let startTime := format now in
  let current := currentTimeEntry st in
  let entry :=
    {| id := id emptyTimeEntry;
       description := description current;
       user_id := user_id emptyTimeEntry;
       start := startTime;
       end_ := end_ emptyTimeEntry;
       duration := duration emptyTimeEntry;
       task_id := task_id current;
       project_id := project_id current;
       tags := tags current;
       billable := billable current;
       organization_id := organization_id emptyTimeEntry |} in
  let st := Popup entry (currentMembershipId st) (memberships st)
                  (currentTimeEntryQuery st) (mutations st) in
  timeEntryCreate_mutate (currentTimeEntry st) (currentMembershipId st)
                         randomUUID st.

(** MainTimeEntryTable.vue 222-226: the watcher that copies the data of
    the query into [currentTimeEntry]; a bare entry has no [data]. *)
Definition watchCurrentTimeEntryResponse (st : popup) : popup :=
  match currentTimeEntryQuery st with
  | Some (Data e _) =>
      Popup e (currentMembershipId st) (memberships st)
            (currentTimeEntryQuery st) (mutations st)
  | Some (Entry _) | None => st
  end.

End Timer.

(** ** entrypoints/utils/timeEntries.ts: [onMutate] await by await

    [mutate] starts the [onMutate] of the mutation, an [async] function
    that stops at each [await]: the one of the stop mutation at lines 62
    and 63, the one of the create mutation at line 135, and each writes
    the data of the query [['currentTimeEntry']] only after its last
    [await].  What they await settles in a later microtask, so a
    [startTimer()] that follows [stopTimer()] in the same task runs
    before the stop mutation has written.  A session is the popup with
    the [onMutate] that have started. *)

Module TimerTasks.
#[local] Open Scope string_scope.

(** Where an [onMutate] waits. *)
Inductive onMutate :=
| StopAt62 (timeEntry : Timer.TimeEntry)     (* await cancelQueries, line 62 *)
| StopAt63 (timeEntry : Timer.TimeEntry)     (* await cancelQueries, line 63 *)
| CreateAt135 (variables : Timer.TimeEntry) (member_id : option string)
                                              (* await cancelQueries, line 135 *)
| Returned.

Record session := Session {
  currentTimeEntry : Timer.TimeEntry;            (* useStorage 'currentTimeEntry' *)
  currentMembershipId : option string;
  memberships : list Timer.membership;
  currentTimeEntryQuery : option Timer.cached;   (* the data of the query *)
  changed : bool;              (* the data changed since the watcher ran *)
  onMutates : list onMutate;   (* one for each [mutate], in the order of the calls *)
}.

(** A popup in which no [onMutate] is under way and the watcher has
    seen the data of the query. *)
Definition idle (st : Timer.popup) : session :=
  Session (Timer.currentTimeEntry st) (Timer.currentMembershipId st)
          (Timer.memberships st) (Timer.currentTimeEntryQuery st) false [].

(** unnamed/part_003 32-37: [currentOrganizationId] *)
Definition currentOrganizationId (s : session) : option string :=
  match currentMembershipId s with
  | None => None
  | Some mid =>
      option_map Timer.organization
        (find (fun m => String.eqb (Timer.membership_id m) mid) (memberships s))
  end.

(** [queryClient.setQueryData(['currentTimeEntry'], () => d)] *)
Definition setQueryData (d : Timer.cached) (s : session) : session :=
  Session (currentTimeEntry s) (currentMembershipId s) (memberships s)
          (Some d) true (onMutates s).

(** [mutate(variables)]: the [onMutate] starts and stops at its first
    [await]. *)
Definition mutate (t : onMutate) (s : session) : session :=
  Session (currentTimeEntry s) (currentMembershipId s) (memberships s)
          (currentTimeEntryQuery s) (changed s) (onMutates s ++ [t]).

Definition set_onMutate (i : nat) (t : onMutate) (s : session) : session :=
  Session (currentTimeEntry s) (currentMembershipId s) (memberships s)
          (currentTimeEntryQuery s) (changed s) (<[i := t]> (onMutates s)).

(** timeEntries.ts 207-218: [stopTimer(endTime?)] up to its [await],
    the clock reading [now]. *)
Definition stopTimer (endTime : option Timer.stamp) (now : N) (s : session)
  : session :=
  let stoppedTimeEntry := currentTimeEntry s in
  let membershipId :=
    option_map Timer.membership_id
      (find (fun m =>
               match Timer.organization_id stoppedTimeEntry with
               | Some o => String.eqb (Timer.organization m) o
               | None => false
               end) (memberships s)) in
  let s := Session Timer.emptyTimeEntry membershipId (memberships s)
                   (currentTimeEntryQuery s) (changed s) (onMutates s) in
  mutate (StopAt62 (Timer.with_end stoppedTimeEntry (Timer.or_now endTime now))) s.

(** timeEntries.ts 225-244: [startTimer()], the clock reading [now]. *)
Definition startTimer (now : N) (s : session) : session :=
  let startTime := Timer.format now in
  let current := currentTimeEntry s in
  let entry :=
    {| Timer.id := Timer.id Timer.emptyTimeEntry;
       Timer.description := Timer.description current;
       Timer.user_id := Timer.user_id Timer.emptyTimeEntry;
       Timer.start := startTime;
       Timer.end_ := Timer.end_ Timer.emptyTimeEntry;
       Timer.duration := Timer.duration Timer.emptyTimeEntry;
       Timer.task_id := Timer.task_id current;
       Timer.project_id := Timer.project_id current;
       Timer.tags := Timer.tags current;
       Timer.billable := Timer.billable current;
       Timer.organization_id := Timer.organization_id Timer.emptyTimeEntry |} in
  let s := Session entry (currentMembershipId s) (memberships s)
                   (currentTimeEntryQuery s) (changed s) (onMutates s) in
  mutate (CreateAt135 (currentTimeEntry s) (currentMembershipId s)) s.

(** What the [i]-th [onMutate] awaits has settled: it goes on to its
    next [await], or to its end (timeEntries.ts 61-68 and 134-145).
    [randomUUID] is what [self.crypto.randomUUID()] returns at line
    140. *)
Definition resume (randomUUID : string) (i : nat) (s : session) : session :=
  match onMutates s !! i with
  | Some (StopAt62 timeEntry) => set_onMutate i (StopAt63 timeEntry) s
  | Some (StopAt63 timeEntry) =>
      set_onMutate i Returned (setQueryData (Timer.Entry Timer.emptyTimeEntry) s)
  | Some (CreateAt135 variables member_id) =>
      let optimisticTimeEntry :=
        {| Timer.id := randomUUID;
           Timer.description := Timer.description variables;
           Timer.user_id := Timer.user_id variables;
           Timer.start := Timer.start variables;
           Timer.end_ := Timer.end_ variables;
           Timer.duration := Timer.duration variables;
           Timer.task_id := Timer.task_id variables;
           Timer.project_id := Timer.project_id variables;
           Timer.tags := Timer.tags variables;
           Timer.billable := Timer.billable variables;
           Timer.organization_id := currentOrganizationId s |} in
      set_onMutate i Returned
        (setQueryData (Timer.Data optimisticTimeEntry member_id) s)
  | Some Returned | None => s
  end.

(** MainTimeEntryTable.vue 222-226: the watcher of the data of the
    query.  It runs when the data changed, and copies an entry that
    comes as [{ data }]. *)
Definition watchCurrentTimeEntryResponse (s : session) : session :=
  if changed s then
    match currentTimeEntryQuery s with
    | Some (Timer.Data e _) =>
        Session e (currentMembershipId s) (memberships s)
                (currentTimeEntryQuery s) false (onMutates s)
    | Some (Timer.Entry _) | None =>
        Session (currentTimeEntry s) (currentMembershipId s) (memberships s)
                (currentTimeEntryQuery s) false (onMutates s)
    end
  else s.

(** What happens after the calls: an [onMutate] goes on, or the watcher
    runs.  The [i]-th [onMutate] gets [randomUUID i] from
    [crypto.randomUUID()]. *)
Inductive event :=
| Resume (i : nat)
| Watch.

Definition step (randomUUID : nat -> string) (e : event) (s : session)
  : session :=
  match e with
  | Resume i => resume (randomUUID i) i s
  | Watch => watchCurrentTimeEntryResponse s
  end.

Definition run (randomUUID : nat -> string) (es : list event) (s : session)
  : session :=
  fold_left (fun s e => step randomUUID e s) es s.

(** The microtask queue serves the [onMutate] in turn: each goes on by
    one [await], in the order of the calls. *)
Definition turn (randomUUID : nat -> string) (s : session) : session :=
  fold_left (fun s i => resume (randomUUID i) i s)
            (seq 0 (length (onMutates s))) s.

(** The microtasks of a task, to the end: no [onMutate] has more than
    two [await], so two turns end them all. *)
Definition microtasks (randomUUID : nat -> string) (s : session) : session :=
  turn randomUUID (turn randomUUID s).

(** The task of a stop mutation, at any of its stages. *)
Definition of_stop (t : onMutate) : Prop :=
  match t with
  | CreateAt135 _ _ => False
  | StopAt62 _ | StopAt63 _ | Returned => True
  end.

(** The task of a create mutation for an entry that starts at
    [startTime], at any of its stages. *)
Definition of_create (startTime : Timer.stamp) (t : onMutate) : Prop :=
  match t with
  | CreateAt135 variables _ => Timer.start variables = startTime
  | Returned => True
  | StopAt62 _ | StopAt63 _ => False
  end.

(** What holds from [stopTimer()] in an idle popup until the next call:
    one [onMutate], of the stop mutation; data that the watcher has not
    seen are the empty entry; the current entry is the empty one. *)
Definition after_stop (s : session) : Prop :=
  (exists t, onMutates s = [t] /\ of_stop t)
  /\ (changed s = true ->
      currentTimeEntryQuery s = Some (Timer.Entry Timer.emptyTimeEntry))
  /\ currentTimeEntry s = Timer.emptyTimeEntry.

(** What holds from the [startTimer()] that follows: the two
    [onMutate]; data that the watcher has not seen are the empty entry
    or an entry that starts at [startTime] under the id [temporary];
    the current entry starts at [startTime] under the empty id or under
    [temporary]. *)
Definition after_start (startTime : Timer.stamp) (temporary : string)
    (s : session) : Prop :=
  (exists t0 t1, onMutates s = [t0; t1] /\ of_stop t0 /\ of_create startTime t1)
  /\ (changed s = true ->
      match currentTimeEntryQuery s with
      | Some (Timer.Entry e) => e = Timer.emptyTimeEntry
      | Some (Timer.Data e _) =>
          Timer.start e = startTime /\ Timer.id e = temporary
      | None => False
      end)
  /\ Timer.start (currentTimeEntry s) = startTime
  /\ (Timer.id (currentTimeEntry s) = "" \/
      Timer.id (currentTimeEntry s) = temporary).

End TimerTasks.

(** ** More on regular expressions and strings *)

Module RegexMore.
Import Js Regex.

(** A pattern without capture groups. *)
Fixpoint groupless (r : re) : bool :=
  match r with
  | Eps | Bol | Eol | Cls _ => true
  | Seq r1 r2 => groupless r1 && groupless r2
  | Plus r1 | Opt r1 => groupless r1
  | Grp _ _ => false
  end.

(** The white space that [trim] removes, among the characters below
    U+0100: tab, line feed, vertical tab, form feed, carriage return,
    space and no-break space. *)
Definition is_space (a : ascii) : bool :=
  let n := nat_of_ascii a in
  (Nat.leb 9 n && Nat.leb n 13) || Nat.eqb n 32 || Nat.eqb n 160.

Fixpoint trimStart (s : str) : str :=
  match s with
  | [] => []
  | a :: s' => if is_space a then trimStart s' else s
  end.

(** [s.trim()] *)
Definition trim (s : str) : str := rev (trimStart (rev (trimStart s))).

(** The longest prefix of [s] whose characters all satisfy [p], and what
    follows it. *)
Definition run (p : ascii -> bool) (s : str) : str :=
  Location.take_until (fun a => negb (p a)) s.

Definition after_run (p : ascii -> bool) (s : str) : str :=
  Location.drop_until (fun a => negb (p a)) s.

(** [s] starts with a character that satisfies [p]. *)
Definition starts_with_a (p : ascii -> bool) (s : str) : bool :=
  match s with a :: _ => p a | [] => false end.

(** [x || null] on a string that may be [undefined]. *)
Definition or_null (o : option str) : option str :=
  match o with
  | Some s => if truthy s then Some s else None
  | None => None
  end.

End RegexMore.

(** ** entrypoints/utils/linear.ts: the title and the description *)

Module LinearMore.
Import Js Regex RegexMore Location Linear.

(** linear.ts 65-76: [getIssueTitleFromDOM]; [textContent] is the text
    of the element that the selector finds, if it finds one. *)
Definition getIssueTitleFromDOM (textContent : option str) : option str :=
  match textContent with
  | Some text => or_null (Some (trim text))
  | None => None
  end.

(** unnamed/part_001 271-275: the title and the description of the time
    entry, [getLinearTitleFromDOM() || issueInfo.issueTitle ||
    issueInfo.issueId]. *)
Definition issueTitleOf (textContent : option str) (issueInfo : LinearIssueInfo)
  : str :=
  match getIssueTitleFromDOM textContent with
  | Some title => title
  | None =>
      if truthy (issueTitle issueInfo) then issueTitle issueInfo
      else issueId issueInfo
  end.

Definition issueDescription (textContent : option str)
    (issueInfo : LinearIssueInfo) : str :=
  issueId issueInfo ++ " "%char :: issueTitleOf textContent issueInfo.

(** The slug of a path, given what follows [/issue/]: after the issue
    id and a slash, all characters up to a line terminator. *)
Definition slug_of (rest : str) : str :=
  match after_run not_slash rest with
  | _ :: after => run dot after
  | [] => []
  end.

End LinearMore.

(** ** entrypoints/utils/jira.ts: the identity of the issue *)

Module JiraInfo.
Import Js Regex RegexMore Location Jira.

Record JiraIssueInfo := {
  issueKey : str;
  workspaceName : str;
  projectName : str;
  fullUrl : str;
}.

(** [/^(.+)\.atlassian\.net$/] *)
Definition hostnamePattern : re :=
  seqs [Bol; Grp 1 (Plus (Cls dot)); text (lit ".atlassian.net"); Eol].

(** [/^\/browse\/([A-Z]+-\d+)/] *)
Definition browseMatchPattern : re :=
  seqs [Bol; text (lit "/browse/");
        Grp 1 (seqs [Plus (Cls upper); chr "-"; Plus (Cls digit)])].

(** [/\/jira\/software\/projects\/([^/]+)\//] *)
Definition projectPathPattern : re :=
  seqs [text (lit "/jira/software/projects/"); Grp 1 (Plus (Cls not_slash));
        chr "/"].

(** [match ? match[1] : ""] *)
Definition group_or_empty (i : nat) (o : option rmatch) : str :=
  match o with
  | Some mt => default [] (group i mt)
  | None => []
  end.

(** jira.ts 42-85 *)
Definition getJiraIssueInfo (l : location) : option JiraIssueInfo :=
  if negb (isJiraIssuePage l) then None
  else
    let hostnameMatch := exec hostnamePattern (hostname l) in
    let workspaceName := group_or_empty 1 hostnameMatch in
    match exec browseMatchPattern (pathname l) with
    | Some browseMatch =>
        let issueKey := default [] (group 1 browseMatch) in
        let projectName := hd [] (Background.split "-" issueKey) in
        Some {| issueKey := issueKey;
                workspaceName := workspaceName;
                projectName := projectName;
                fullUrl := href l |}
    | None =>
        let pathMatch := exec projectPathPattern (pathname l) in
        let projectName := group_or_empty 1 pathMatch in
        let urlParams := Background.searchParams l in
        let issueKey :=
          Linear.or_empty (Background.get (lit "selectedIssue") urlParams) in
        Some {| issueKey := issueKey;
                workspaceName := workspaceName;
                projectName := projectName;
                fullUrl := href l |}
    end.

(** A character that [URLSearchParams] reads as it is: neither the
    [%] of an escape nor the [+] that stands for a space. *)
Definition literal (a : ascii) : bool :=
  negb (chr_eqb a "%") && negb (chr_eqb a "+").

(** Names and values that a query string carries as they are: a name
    has no [&] and no [=], a value has no [&], and neither needs
    decoding. *)
Definition plain_param (kv : str * str) : Prop :=
  forallb (fun a => negb (chr_eqb a "&") && negb (chr_eqb a "=")) (fst kv) = true /\
  forallb (fun a => negb (chr_eqb a "&")) (snd kv) = true /\
  forallb literal (fst kv ++ snd kv) = true.

(** One [name=value] of a query string. *)
Definition piece_of (kv : str * str) : str := fst kv ++ "="%char :: snd kv.

End JiraInfo.

(** ** entrypoints/utils/plane.ts: the identity of the issue *)

Module PlaneInfo.
Import Js Regex RegexMore Location Plane.

Record PlaneIssueInfo := {
  issueKey : str;
  workspaceName : str;
  projectId : str;
  fullUrl : str;
}.

(** [/^[A-Z]+-\d+$/] *)
Definition keyPattern : re :=
  seqs [Bol; Plus (Cls upper); chr "-"; Plus (Cls digit); Eol].

(** plane.ts 85-100: [getIssueKeyFromDOM]; [textContent] is the text of
    the element that the selector finds, if it finds one. *)
Definition getIssueKeyFromDOM (textContent : option str) : option str :=
  match textContent with
  | Some text0 =>
      if truthy text0 then
        let text := trim text0 in
        if test keyPattern text then Some text else None
      else None
  | None => None
  end.

(** [/^\/([^/]+)\/browse\/([A-Z]+-\d+)/] *)
Definition browseMatchPattern : re :=
  seqs [Bol; chr "/"; Grp 1 (Plus (Cls not_slash)); text (lit "/browse/");
        Grp 2 (seqs [Plus (Cls upper); chr "-"; Plus (Cls digit)])].

(** [/^\/([^/]+)\/projects\/([^/]+)\/issues\//] *)
Definition projectMatchPattern : re :=
  seqs [Bol; chr "/"; Grp 1 (Plus (Cls not_slash)); text (lit "/projects/");
        Grp 2 (Plus (Cls not_slash)); text (lit "/issues/")].

(** plane.ts 39-80 *)
Definition getPlaneIssueInfo (textContent : option str) (l : location)
  : option PlaneIssueInfo :=
  if negb (isPlaneIssuePage l) then None
  else
    match exec browseMatchPattern (pathname l) with
    | Some browseMatch =>
        Some {| issueKey := default [] (group 2 browseMatch);
                workspaceName := default [] (group 1 browseMatch);
                projectId := [];
                fullUrl := href l |}
    | None =>
        match exec projectMatchPattern (pathname l) with
        | Some projectMatch =>
            Some {| issueKey := match getIssueKeyFromDOM textContent with
                                | Some key => if truthy key then key else []
                                | None => []
                                end;
                    workspaceName := default [] (group 1 projectMatch);
                    projectId := default [] (group 2 projectMatch);
                    fullUrl := href l |}
        | None => None
        end
    end.

End PlaneInfo.

(** ** entrypoints/utils/oauth.ts: loading the tokens, the storage
       listener and the logout *)

Module OAuthMore.
Import OAuth.
#[local] Open Scope string_scope.

(** [x || ""] on a stored value that may be [undefined]. *)
Definition or_blank (o : option string) : string := default "" o.

(** Lines 18-25: [loadTokens], when its [storage.local.get] has
    answered. *)
Definition loadTokens (st : state) : state :=
  set_cells (or_blank (storage st !! "access_token"))
            (or_blank (storage st !! "refresh_token")) st.

(** The storage areas of [browser.storage]. *)
Inductive area := Local | Sync | Managed | Session.

(** The [changes] of a storage event, for the two keys the listener
    reads: a key that the event reports holds its [newValue], which is
    [undefined] when the key was removed. *)
Record changes := Changes {
  ch_access_token : option (option string);
  ch_refresh_token : option (option string);
}.

(** Lines 28-37: the listener of [browser.storage.onChanged]. *)
Definition onChanged (c : changes) (a : area) (st : state) : state :=
  match a with
  | Local =>
      let st1 :=
        match ch_access_token c with
        | Some newValue => set_cells (or_blank newValue) (refreshToken st) st
        | None => st
        end in
      match ch_refresh_token c with
      | Some newValue => set_cells (accessToken st1) (or_blank newValue) st1
      | None => st1
      end
  | _ => st
  end.

(** Line 45: [isLoggedIn] *)
Definition isLoggedIn (st : state) : bool :=
  negb (String.eqb (accessToken st) "").

(** Lines 125-129: [logout], up to its [await]. *)
Definition logout (st : state) : state :=
  storage_remove_tokens (set_cells "" "" st).

(** Modelled from the WebExtensions API, which the browser implements:
    the event that a write to [browser.storage.local] raises in every
    context of the extension.  A key whose value differs is reported
    with its new value; a key whose value is the same may be reported
    as well. *)
Definition reports (c : changes) (old new : gmap string string) : Prop :=
  match ch_access_token c with
  | Some newValue => newValue = new !! "access_token"
  | None => old !! "access_token" = new !! "access_token"
  end /\
  match ch_refresh_token c with
  | Some newValue => newValue = new !! "refresh_token"
  | None => old !! "refresh_token" = new !! "refresh_token"
  end.

(** The event in which exactly the keys that differ are reported. *)
Definition changes_of (old new : gmap string string) : changes :=
  let change (key : string) :=
    match old !! key, new !! key with
    | Some x, Some y => if String.eqb x y then None else Some (Some y)
    | None, None => None
    | _, newValue => Some newValue
    end in
  Changes (change "access_token") (change "refresh_token").

(** A write to the storage made elsewhere (the background script), as
    this context sees it: the storage is the new one and the listener
    has run. *)
Definition storage_written (new : gmap string string) (st : state) : state :=
  onChanged (changes_of (storage st) new) Local (set_storage new st).

(** The two cells hold what the storage holds. *)
Definition mirrors (st : state) : Prop :=
  accessToken st = or_blank (storage st !! "access_token") /\
  refreshToken st = or_blank (storage st !! "refresh_token").

(** A whole refresh: the call, and what it waits for until it settles,
    the background answering [r]. *)
Definition refresh (r : bg_response) (st : state) : state * option outcome :=
  let '(st1, p) := refreshAccessToken st in await 2 r p st1.

End OAuthMore.

(** ** The background script (unnamed/part_001, lines 146-175): the
       REFRESH_TOKEN handler *)

Module BackgroundMore.
#[local] Open Scope string_scope.

(** Lines 91-103: the POST of a callback whose parameters pass the
    checks. *)
Definition tokenRequest (clientId redirectUrl : Js.str) (st : Background.state)
    (params : list (Js.str * Js.str)) : Background.token_request :=
  Background.TokenRequest (Js.lit "authorization_code") clientId redirectUrl
    (Background.oauthVerifier st)
    (default [] (Background.get (Js.lit "code") params)).

(** The POST to [endpoint + "/oauth/token"]. *)
Record refresh_request := RefreshRequest {
  url : string;
  grant_type : string;
  client_id : string;
  refresh_token : string;
}.

Definition refreshRequest (msg : OAuth.message) : refresh_request :=
  RefreshRequest (OAuth.msg_endpoint msg ++ "/oauth/token") "refresh_token"
                 (OAuth.msg_clientId msg) (OAuth.msg_refreshToken msg).

(** The handler: what it passes to [sendResponse]. *)
Definition onRefreshToken (fetch : refresh_request -> Background.fetch_result)
    (msg : OAuth.message) : Background.response :=
  match fetch (refreshRequest msg) with
  | Background.FetchOk data => Background.Success data
  | Background.FetchNotOk => Background.Failure "Failed to refresh token"
  | Background.FetchThrows message => Background.Failure message
  end.

(** What [browser.runtime.sendMessage] settles with in the sender, for
    an answer of the handler. *)
Definition delivered (resp : Background.response) : OAuth.bg_response :=
  match resp with
  | Background.Success data => OAuth.BgSuccess data
  | Background.Failure error => OAuth.BgFailure error
  end.

End BackgroundMore.
(** ** entrypoints/utils/timeEntries.ts and unnamed/part_003: the rest of
       [useTimer], the mutation functions and the memberships

    The identifiers of time entries are those the server issues and
    those of [crypto.randomUUID()]; none of them is the name of a
    property that every JavaScript object inherits, so
    [id in offlineUuidStore] is a lookup in the entries of the store. *)

Module TimerMore.
Import Timer.
#[local] Open Scope string_scope.

(** timeEntries.ts 192-201: [isActive] *)
Definition isActive (st : popup) : bool :=
  match start (currentTimeEntry st), end_ (currentTimeEntry st) with
  | At _, None => true
  | _, _ => false
  end.

(** [{ ...emptyTimeEntry, project_id, task_id, description, tags,
    billable, start }] with the five fields taken from [source]. *)
Definition fresh_entry (source : TimeEntry) (startTime : stamp) : TimeEntry :=
  {| id := id emptyTimeEntry;
     description := description source;
     user_id := user_id emptyTimeEntry;
     start := startTime;
     end_ := end_ emptyTimeEntry;
     duration := duration emptyTimeEntry;
     task_id := task_id source;
     project_id := project_id source;
     tags := tags source;
     billable := billable source;
     organization_id := organization_id emptyTimeEntry |}.

(** timeEntries.ts 250-275: [continueLastTimer()], the clock reading
    [now]; [lastTimeEntry] is the stored value, which may be [null]. *)
Definition continueLastTimer (lastTimeEntry : option TimeEntry) (now : N)
    (randomUUID : string) (st : popup) : popup :=
  let startTime := format now in
  let entry :=
    match lastTimeEntry with
    | Some last =>
        match start last with
        | At _ => fresh_entry last startTime
        | NoStamp => fresh_entry emptyTimeEntry startTime
        end
    | None => fresh_entry emptyTimeEntry startTime
    end in
  let st := Popup entry (currentMembershipId st) (memberships st)
                  (currentTimeEntryQuery st) (mutations st) in
  timeEntryCreate_mutate (currentTimeEntry st) (currentMembershipId st)
                         randomUUID st.

(** The calls of the API client. *)
Inductive request :=
| UpdateTimeEntry (organization timeEntry : string) (body : TimeEntry)
| CreateTimeEntry (organization : string) (body : TimeEntry)
                  (member_id : option string).

(** What a mutation function does: it throws, or it calls the client. *)
Inductive attempt :=
| Throws (message : string)
| Sends (r : request).

Definition with_id (e : TimeEntry) (i : string) : TimeEntry :=
  {| id := i; description := description e; user_id := user_id e;
     start := start e; end_ := end_ e; duration := duration e;
     task_id := task_id e; project_id := project_id e; tags := tags e;
     billable := billable e; organization_id := organization_id e |}.

(** timeEntries.ts 40-60: [mutationFn] of the stop mutation. *)
Definition stop_mutationFn (offlineUuidStore : gmap string string)
    (st : popup) (timeEntry : TimeEntry) : attempt :=
  match currentOrganizationId st with
  | None => Throws "No current organization id - create time entry"
  | Some organization =>
      if String.eqb (id timeEntry) "" then
        Throws "No time entry id - stop time entry"
      else
        let timeEntry :=
          match offlineUuidStore !! id timeEntry with
          | Some real => with_id timeEntry real
          | None => timeEntry
          end in
        Sends (UpdateTimeEntry organization (id timeEntry) timeEntry)
  end.

(** timeEntries.ts 123-133: [mutationFn] of the create mutation. *)
Definition create_mutationFn (st : popup) (timeEntry : TimeEntry)
    (member_id : option string) : attempt :=
  match currentOrganizationId st with
  | None => Throws "No current organization id - create time entry"
  | Some organization => Sends (CreateTimeEntry organization timeEntry member_id)
  end.

(** timeEntries.ts 146-148: [onSuccess] of the create mutation; [real]
    is the id of the entry that the server created. *)
Definition create_onSuccess (optimistic : TimeEntry) (real : string)
    (offlineUuidStore : gmap string string) : gmap string string :=
  <[id optimistic := real]> offlineUuidStore.

(** One mutation of the scope runs: its function, and for a create
    that the server answers with the id [created r], its [onSuccess]. *)
Definition execute (created : request -> option string) (st : popup)
    (m : mutation) (offlineUuidStore : gmap string string)
  : gmap string string * attempt :=
  match m with
  | Stop timeEntry =>
      (offlineUuidStore, stop_mutationFn offlineUuidStore st timeEntry)
  | Create timeEntry member_id optimistic =>
      match create_mutationFn st timeEntry member_id with
      | Sends r =>
          (match created r with
           | Some real => create_onSuccess optimistic real offlineUuidStore
           | None => offlineUuidStore
           end, Sends r)
      | Throws message => (offlineUuidStore, Throws message)
      end
  end.

Definition set_currentMembershipId (mid : option string) (st : popup) : popup :=
  Popup (currentTimeEntry st) mid (memberships st) (currentTimeEntryQuery st)
        (mutations st).

(** unnamed/part_003 39-50: the watcher of [memberships]; a membership
    id that is [null] or [undefined] is [None]. *)
Definition watchMemberships (st : popup) : popup :=
  let first := option_map membership_id (head (memberships st)) in
  match currentMembershipId st with
  | None => set_currentMembershipId first st
  | Some mid =>
      if existsb (fun m => String.eqb (membership_id m) mid) (memberships st)
      then st
      else set_currentMembershipId first st
  end.

Definition same_membership (a b : membership) : bool :=
  String.eqb (membership_id a) (membership_id b)
  && String.eqb (organization a) (organization b).

Fixpoint same_memberships (xs ys : list membership) : bool :=
  match xs, ys with
  | [], [] => true
  | x :: xs', y :: ys' => same_membership x y && same_memberships xs' ys'
  | _, _ => false
  end.

(** unnamed/part_003 18-24 and 39: the query of the memberships brings
    [ms]; [before] is the list it held, [None] while it had no data.
    The query keeps the object it holds when the new data are equal to
    it, so the computed [memberships] changes, and its watcher runs,
    only when the query had no data or other data. *)
Definition membershipsLoaded (before : option (list membership))
    (ms : list membership) (st : popup) : popup :=
  let unchanged :=
    match before with
    | Some held => same_memberships held ms
    | None => false
    end in
  if unchanged then st
  else
    watchMemberships
      (Popup (currentTimeEntry st) (currentMembershipId st) ms
             (currentTimeEntryQuery st) (mutations st)).

(** MainTimeEntryTable.vue 212-220: the watcher of the error of the
    query of the current entry. *)
Definition watchIsError (isError : bool) (st : popup) : popup :=
  if isError && negb (String.eqb (id (currentTimeEntry st)) "") then
    Popup emptyTimeEntry (currentMembershipId st) (memberships st)
          (currentTimeEntryQuery st) (mutations st)
  else st.

End TimerMore.
(** ** The content script: page loads that do not overlap *)

Module ContentMore.
Import Content.
#[local] Open Scope string_scope.

Definition finished (k : task) : bool :=
  match k with Finished => true | _ => false end.

(** The tasks that are not finished. *)
Definition undone (ts : list task) : nat :=
  length (filter (fun k => negb (finished k)) ts).

(** The calls that are suspended. *)
Definition pending (t : tab) : nat := undone (tasks t).

(** The elements of a document that carry the identifier of the
    section. *)
Definition count (d : list string) : nat :=
  length (filter (String.eqb SECTION_ID) d).

(** At most one section is in the document or about to be inserted. *)
Definition at_most_one (t : tab) : Prop := sections t + pending t <= 1.

(** The events that start a call of [injectTimeTrackingSection]. *)
Definition starts_injection (e : event) : bool :=
  match e with
  | PageLoad | Clicked => true
  | _ => false
  end.

(** No page load and no click arrives while a call is suspended. *)
Fixpoint spaced (es : list event) (t : tab) : bool :=
  match es with
  | [] => true
  | e :: es' =>
      (if starts_injection e then Nat.eqb (pending t) 0 else true)
      && spaced es' (step e t)
  end.

End ContentMore.
(** ** entrypoints/utils/linear.ts 129-157 (and the same function in
       jira.ts and plane.ts): [waitForElement]

    The promise settles in one of the runs of [check]: the first run is
    made by the call, each later one by [requestAnimationFrame]. *)

Module Wait.
#[local] Open Scope Z_scope.

(** One run of [check]: whether the selector finds the element, and
    what [Date.now()] reads. *)
Record frame := Frame { found : bool; clock : Z }.

Inductive result :=
| Resolved (run : nat)    (* [resolve(element)] in that run of [check] *)
| Rejected (run : nat)    (* "Element not found within timeout" *)
| Waiting.                (* the next frame has not come *)

Fixpoint check (timeout startTime : Z) (run : nat) (frames : list frame)
  : result :=
  match frames with
  | [] => Waiting
  | f :: frames' =>
      if found f then Resolved run
      else if timeout <? clock f - startTime then Rejected run
      else check timeout startTime (S run) frames'
  end.

Definition waitForElement (timeout startTime : Z) (frames : list frame)
  : result :=
  check timeout startTime 0 frames.

(** A run that neither resolves nor rejects. *)
Definition goes_on (timeout startTime : Z) (f : frame) : Prop :=
  found f = false /\ clock f - startTime <= timeout.

End Wait.

(** ** entrypoints/utils/linear.ts 162-182 (and jira.ts 442-460,
       plane.ts 424-442): [observeUrlChanges] *)

Module UrlObserver.
Import Js.

Record state := State {
  lastUrl : str;
  calls : nat;       (* how often [callback] was called *)
}.

(** The observer is set up on the page [href]. *)
Definition observeUrlChanges (href : str) : state := State href 0.

Inductive event :=
| Mutation (href : str)   (* the observer runs; [window.location.href] *)
| Popstate.               (* the [popstate] listener runs *)

Definition step (e : event) (st : state) : state :=
  match e with
  | Mutation currentUrl =>
      if negb (str_eqb currentUrl (lastUrl st))
      then State currentUrl (S (calls st))
      else st
  | Popstate => State (lastUrl st) (S (calls st))
  end.

Definition run (es : list event) (st : state) : state :=
  fold_left (fun st e => step e st) es st.

(** An event of the observer that reports the address [href]. *)
Definition reports (href : str) (e : event) : Prop :=
  match e with
  | Mutation currentUrl => currentUrl = href
  | Popstate => False
  end.

End UrlObserver.

(** ** entrypoints/utils/jira.ts 466-529 (and plane.ts 448-499): the
       observer that puts the button back

    The state is that of one call of [observeJiraActionsWrapper]; the
    button is put into the document by this observer only. *)

Module Watchdog.

(** Where a call of [checkAndReinject] is suspended. *)
Inductive phase :=
| AwaitEntry     (* jira.ts 280: inside the injection, before the button *)
| AwaitReturn.   (* jira.ts 492: the injection has returned *)

Record state := State {
  isReinjecting : bool;
  checkScheduled : bool;
  frames : nat;             (* callbacks queued by requestAnimationFrame *)
  timers : nat;             (* callbacks queued by setTimeout *)
  suspended : list phase;   (* calls of checkAndReinject at an await *)
  buttons : nat;            (* elements with the id of the button *)
  issuePage : bool;         (* isJiraIssuePage() *)
  wrapper : bool;           (* findJiraActionsWrapper() finds one *)
  loggedIn : bool;          (* accessToken.value is not empty *)
}.

(** The observer is set up. *)
Definition observeJiraActionsWrapper (buttons : nat)
    (issuePage wrapper loggedIn : bool) : state :=
  State false false 0 0 [] buttons issuePage wrapper loggedIn.

Inductive event :=
| Mutation                    (* the callback of the observer *)
| AnimationFrame              (* a queued [checkAndReinject] runs *)
| Settled (attached : bool)   (* what the oldest suspended call waits
                                 for settles; [attached]: the wrapper it
                                 holds is still in the document *)
| Timeout                     (* a queued timer fires *)
| HostRemoves                 (* the host drops the button *)
| Page (issuePage wrapper loggedIn : bool).   (* the page changes *)

(** jira.ts 472-502: [checkAndReinject] up to its [await], or to its
    end. *)
Definition checkAndReinject (st : state) : state :=
  let st := State (isReinjecting st) false (frames st) (timers st)
                  (suspended st) (buttons st) (issuePage st) (wrapper st)
                  (loggedIn st) in
  if isReinjecting st then st
  else if Nat.eqb (buttons st) 0 && issuePage st then
    if wrapper st then
      if loggedIn st then
        State true (checkScheduled st) (frames st) (timers st)
              (suspended st ++ [AwaitEntry]) (buttons st) (issuePage st)
              (wrapper st) (loggedIn st)
      else
        State true (checkScheduled st) (frames st) (timers st)
              (suspended st ++ [AwaitReturn]) (S (buttons st)) (issuePage st)
              (wrapper st) (loggedIn st)
    else
      State true (checkScheduled st) (frames st) (S (timers st))
            (suspended st) (buttons st) (issuePage st) (wrapper st)
            (loggedIn st)
  else st.

Definition step (e : event) (st : state) : state :=
  match e with
  | Mutation =>
      if negb (checkScheduled st) then
        State (isReinjecting st) true (S (frames st)) (timers st)
              (suspended st) (buttons st) (issuePage st) (wrapper st)
              (loggedIn st)
      else st
  | AnimationFrame =>
      match frames st with
      | O => st
      | S n =>
          checkAndReinject
            (State (isReinjecting st) (checkScheduled st) n (timers st)
                   (suspended st) (buttons st) (issuePage st) (wrapper st)
                   (loggedIn st))
      end
  | Settled attached =>
      match suspended st with
      | [] => st
      | AwaitEntry :: rest =>
          State (isReinjecting st) (checkScheduled st) (frames st) (timers st)
                (rest ++ [AwaitReturn])
                (if attached then S (buttons st) else buttons st)
                (issuePage st) (wrapper st) (loggedIn st)
      | AwaitReturn :: rest =>
          State (isReinjecting st) (checkScheduled st) (frames st)
                (S (timers st)) rest (buttons st) (issuePage st) (wrapper st)
                (loggedIn st)
      end
  | Timeout =>
      match timers st with
      | O => st
      | S n =>
          State false (checkScheduled st) (frames st) n (suspended st)
                (buttons st) (issuePage st) (wrapper st) (loggedIn st)
      end
  | HostRemoves =>
      State (isReinjecting st) (checkScheduled st) (frames st) (timers st)
            (suspended st) 0 (issuePage st) (wrapper st) (loggedIn st)
  | Page i w l =>
      State (isReinjecting st) (checkScheduled st) (frames st) (timers st)
            (suspended st) (buttons st) i w l
  end.

Definition run (es : list event) (st : state) : state :=
  fold_left (fun st e => step e st) es st.

Definition flag (b : bool) : nat := if b then 1 else 0.

(** The buttons that suspended calls are about to insert. *)
Definition coming (st : state) : nat :=
  length (List.filter
            (fun p => match p with AwaitEntry => true | AwaitReturn => false end)
            (suspended st)).

(** What the two flags stand for, and the bound on the buttons. *)
Definition invariant (st : state) : Prop :=
  frames st = flag (checkScheduled st) /\
  length (suspended st) + timers st = flag (isReinjecting st) /\
  buttons st + coming st <= 1.

End Watchdog.

(** ** The settings dialog (unnamed/part_002, lines 36-44): [submit] *)

Module Settings.
#[local] Open Scope string_scope.

(** [s[s.length - 1]] *)
Definition last_char (s : string) : option ascii :=
  List.last (map Some (list_ascii_of_string s)) None.

(** [s.slice(0, -1)] *)
Definition slice_0_m1 (s : string) : string :=
  string_of_list_ascii (removelast (list_ascii_of_string s)).

Definition is_slash (o : option ascii) : bool :=
  match o with
  | Some a => Ascii.eqb a "/"
  | None => false
  end.

(** [submit()]: the two values of the dialog become the settings. *)
Definition submit (tempEndpoint tempClientId : string) (st : OAuth.state)
  : OAuth.state :=
  let tempEndpoint :=
    if is_slash (last_char tempEndpoint) then slice_0_m1 tempEndpoint
    else tempEndpoint in
  OAuth.State tempEndpoint tempClientId (OAuth.accessToken st)
              (OAuth.refreshToken st) (OAuth.storage st)
              (OAuth.refreshPromise st) (OAuth.promises st) (OAuth.sent st).

End Settings.
(** ** entrypoints/utils/linear.ts 391-479 (and the same handler in
       jira.ts 307-394 and plane.ts 289-376): the click on the button

    A click is modelled by what it does, in order, in an environment
    that says what the page, the token store, the storage and the
    server answer. *)

Module Click.
#[local] Open Scope string_scope.

(** [currentEntry.data] *)
Record entry := Entry { id : string; organization_id : string }.

(** What [getCurrentTimeEntry()] settles with. *)
Inductive fetched :=
| FetchFails                        (* the request is rejected *)
| Fetched (data : option entry).    (* [currentEntry?.data] *)

Record env := Env {
  button : bool;                    (* the button is in the document *)
  accessToken : string;
  current : fetched;
  current_organization_id : option string;   (* browser.storage.local *)
  currentMembershipId : option string;       (* browser.storage.local *)
  updateFails : bool;               (* updateTimeEntry is rejected *)
  createFails : bool;               (* createTimeEntry is rejected *)
  sidebar : bool;                   (* findPropertiesSidebar() finds it *)
  injectFails : bool;               (* the injection throws *)
}.

Inductive effect :=
| Disable                           (* the button is disabled *)
| Enable                            (* the button is enabled again *)
| Alert (message : string)
| GetCurrentTimeEntry
| UpdateTimeEntry (organization timeEntry : string)
| StorageGet
| CreateTimeEntry (organization member_id description : string)
| Inject.                           (* injectTimeTrackingSection(.., true) *)

Definition LOGIN : string :=
  "Please log in to Solidtime first by clicking the extension icon".
Definition SELECT : string :=
  "Please select an organization in the Solidtime extension first".
Definition FAILED : string :=
  "Failed to toggle time tracking. Please make sure you are logged in.".

(** Truthiness of a stored value. *)
Definition given (o : option string) : bool :=
  match o with
  | Some s => negb (String.eqb s "")
  | None => false
  end.

(** Lines 455-463: the section is rendered again. *)
Definition refresh (e : env) : list effect :=
  if sidebar e then
    Inject :: (if injectFails e then [Alert FAILED] else [])
  else [].

(** Lines 403-469: the body of the [try]. *)
Definition toggle (issueDescription : string) (isCurrentlyTracking : bool)
    (e : env) : list effect :=
  if String.eqb (accessToken e) "" then [Alert LOGIN]
  else if isCurrentlyTracking then
    GetCurrentTimeEntry ::
      match current e with
      | FetchFails => [Alert FAILED]
      | Fetched (Some data) =>
          if negb (String.eqb (id data) "") then
            UpdateTimeEntry (organization_id data) (id data) ::
              (if updateFails e then [Alert FAILED] else refresh e)
          else refresh e
      | Fetched None => refresh e
      end
  else
    StorageGet ::
      (if negb (given (current_organization_id e))
          || negb (given (currentMembershipId e))
       then [Alert SELECT]
       else
         CreateTimeEntry (default "" (current_organization_id e))
                         (default "" (currentMembershipId e))
                         issueDescription ::
           (if createFails e then [Alert FAILED] else refresh e)).

Definition handleTrackingClick (issueDescription : string)
    (isCurrentlyTracking : bool) (e : env) : list effect :=
  if negb (button e) then []
  else Disable :: toggle issueDescription isCurrentlyTracking e ++ [Enable].

Definition is_alert (x : effect) : bool :=
  match x with Alert _ => true | _ => false end.

(** A call of the API client or of the storage. *)
Definition is_call (x : effect) : bool :=
  match x with
  | GetCurrentTimeEntry | UpdateTimeEntry _ _ | StorageGet
  | CreateTimeEntry _ _ _ => true
  | _ => false
  end.

End Click.
(** ** Concrete states and environments, used as examples *)

Definition idle_store : OAuth.state :=
  OAuth.State "https://app.solidtime.io" "client" "old-access" "old-refresh"
    ∅ None [] [].

Definition in_flight_store : OAuth.state :=
  OAuth.State "https://app.solidtime.io" "client" "old-access" "old-refresh"
    ∅ (Some 0) [OAuth.Pending OAuth.KResponse]
    [OAuth.RefreshToken "https://app.solidtime.io" "client" "old-refresh"].

Definition logged_out_store : OAuth.state :=
  OAuth.State "https://app.solidtime.io" "client" "stale-access" ""
    (<["access_token" := "stale-access"%string]> ∅) None [] [].

Definition example_server (n : nat) (cfg : Api.config) : Api.reply :=
  if String.eqb (Api.Authorization cfg) "Bearer new-access"
  then Api.Status 200 else Api.Status 401.

Definition example_world : Api.world := Api.World idle_store [] 0.

Definition example_request : Api.config :=
  Api.Config "/api/v1/users/me/time-entries/active" "Bearer old-access" false.

(** A URL parser for the examples: it reads the http(s) URLs that
    [Location.of_url] reads, the parameters of the query decoded, and
    answers any other string as [new URL] answers a string that is not
    a URL. *)
Definition example_newURL (s : Js.str) : Background.parsed :=
  if (Js.startsWith (Js.lit "https://") s || Js.startsWith (Js.lit "http://") s)
     && Js.truthy (Location.hostname (Location.of_url s))
  then Background.Parsed (Background.searchParams (Location.of_url s))
  else Background.InvalidUrl "Invalid URL".

Definition example_background : Background.state :=
  Background.State (Js.lit "expected-state") (Js.lit "verifier")
    (Js.lit "challenge") ∅ [].

(** A logged-in tab on a Linear issue whose sidebar is rendered and that
    has no section yet. *)
Definition issue_tab : Content.tab :=
  Content.Tab
    (Location.of_url (Js.lit "https://linear.app/acme/issue/ST-583/fix-bug"))
    ["app"%string; "sidebar"%string] true "access-token" [].

Definition running_popup : Timer.popup :=
  Timer.Popup
    {| Timer.id := "7d9f0c1e-server-id"; Timer.description := Some "ST-583 fix bug"%string;
       Timer.user_id := "user"; Timer.start := Timer.At 1700000000;
       Timer.end_ := None; Timer.duration := None; Timer.task_id := None;
       Timer.project_id := Some "project"%string; Timer.tags := [];
       Timer.billable := false; Timer.organization_id := Some "org"%string |}
    (Some "member"%string)
    [{| Timer.membership_id := "member"; Timer.organization := "org" |}]
    None [].

(* ===================================================================== *)
(** * Part II: theorems                                                   *)
(* ===================================================================== *)

(** ** The matcher against what a pattern matches *)

Module RegexFacts.
Import Js Regex.

Lemma iterate_sound (once : mstate -> list mstate)
    (D : nat -> str -> str -> Prop) :
  (forall x y, In y (once x) ->
     exists w, extends_by x y w /\ D (ms_pos x) w (ms_rest y)) ->
  forall n x y, In y (iterate once n x) ->
    exists w, extends_by x y w /\ plus_den D (ms_pos x) w (ms_rest y).
Proof.
  intros Honce n. induction n as [|n IH]; intros x y Hin; simpl in Hin;
    apply in_flat_map in Hin as (z & Hz & Hy).
  - destruct Hy as [<- | []]. destruct (Honce _ _ Hz) as (w & He & Hd).
    exists w. split; [assumption | now apply plus_one].
  - apply in_app_iff in Hy as [Hy | [<- | []]].
    + destruct (Nat.ltb (ms_pos x) (ms_pos z)) eqn:Hlt; [|destruct Hy].
      apply Nat.ltb_lt in Hlt.
      destruct (Honce _ _ Hz) as (w1 & [Hr1 Hp1] & Hd1).
      destruct (IH _ _ Hy) as (w2 & [Hr2 Hp2] & Hd2).
      exists (w1 ++ w2). split.
      * split; [now rewrite Hr1, Hr2, app_assoc | rewrite length_app; lia].
      * apply plus_more.
        -- now rewrite <- Hr2.
        -- intros ->. simpl in Hp1. lia.
        -- now rewrite <- Hp1.
    + destruct (Honce _ _ Hz) as (w & He & Hd).
      exists w. split; [assumption | now apply plus_one].
Qed.

(** Soundness: what the matcher returns, the pattern matches. *)
Lemma m_sound r : forall x y, In y (m r x) ->
  exists w, extends_by x y w /\ den r (ms_pos x) w (ms_rest y).
Proof.
  induction r as [| | |p|r1 IH1 r2 IH2|r1 IH1|r1 IH1|i r1 IH1];
    intros x y Hin; simpl in Hin.
  - destruct Hin as [<- | []]. exists []. repeat split; simpl; lia.
  - destruct (Nat.eqb (ms_pos x) 0) eqn:E; [|destruct Hin].
    destruct Hin as [<- | []]. apply Nat.eqb_eq in E.
    exists []. repeat split; simpl; lia.
  - destruct (ms_rest x) eqn:E; [|destruct Hin].
    destruct Hin as [<- | []]. exists []. repeat split; simpl; auto; lia.
  - destruct (ms_rest x) as [|a s'] eqn:E; [destruct Hin|].
    destruct (p a) eqn:Hp; [|destruct Hin].
    destruct Hin as [<- | []]. exists [a]. repeat split; simpl; eauto; lia.
  - apply in_flat_map in Hin as (z & Hz & Hy).
    destruct (IH1 _ _ Hz) as (w1 & [Hr1 Hp1] & Hd1).
    destruct (IH2 _ _ Hy) as (w2 & [Hr2 Hp2] & Hd2).
    exists (w1 ++ w2). split.
    + split; [now rewrite Hr1, Hr2, app_assoc | rewrite length_app; lia].
    + simpl. exists w1, w2. repeat split.
      * now rewrite <- Hr2.
      * now rewrite <- Hp1.
  - apply (iterate_sound (m r1) (den r1) IH1) in Hin. exact Hin.
  - apply in_app_iff in Hin as [Hin | [<- | []]].
    + destruct (IH1 _ _ Hin) as (w & He & Hd). exists w. simpl. auto.
    + exists []. repeat split; simpl; auto; lia.
  - apply in_map_iff in Hin as (z & <- & Hz).
    destruct (IH1 _ _ Hz) as (w & He & Hd). exists w. simpl. auto.
Qed.

Lemma iterate_complete (once : mstate -> list mstate)
    (D : nat -> str -> str -> Prop) :
  (forall x w rest, ms_rest x = w ++ rest -> D (ms_pos x) w rest ->
     exists c, In (MS (ms_pos x + length w) rest c) (once x)) ->
  forall pos w rest, plus_den D pos w rest ->
  forall n x, ms_pos x = pos -> ms_rest x = w ++ rest ->
    length (ms_rest x) <= n ->
    exists c, In (MS (pos + length w) rest c) (iterate once n x).
Proof.
  intros Honce pos w rest Hd.
  induction Hd as [pos w rest Hd | pos w1 w2 rest Hd1 Hne Hd2 IH];
    intros n x Hpos Hrest Hn.
  - subst pos. destruct (Honce _ _ _ Hrest Hd) as (c & Hc).
    exists c. destruct n; simpl; apply in_flat_map; eexists;
      (split; [exact Hc|]); [now left | apply in_app_iff; right; now left].
  - subst pos. rewrite <- app_assoc in Hrest.
    destruct (Honce _ _ _ Hrest Hd1) as (c1 & Hc1).
    destruct n as [|n].
    { rewrite Hrest, length_app in Hn. destruct w1; [congruence | simpl in Hn; lia]. }
    destruct (IH n (MS (ms_pos x + length w1) (w2 ++ rest) c1)) as (c & Hc);
      simpl; auto.
    { rewrite Hrest, length_app in Hn. destruct w1; [congruence | simpl in Hn; lia]. }
    exists c. simpl. apply in_flat_map. eexists. split; [exact Hc1|].
    apply in_app_iff. left. simpl.
    replace (Nat.ltb (ms_pos x) (ms_pos x + length w1)) with true.
    + rewrite length_app, Nat.add_assoc. exact Hc.
    + symmetry. apply Nat.ltb_lt. destruct w1; [congruence | simpl; lia].
Qed.

(** Completeness: what the pattern matches, the matcher returns. *)
Lemma m_complete r : forall x w rest,
  ms_rest x = w ++ rest -> den r (ms_pos x) w rest ->
  exists c, In (MS (ms_pos x + length w) rest c) (m r x).
Proof.
  induction r as [| | |p|r1 IH1 r2 IH2|r1 IH1|r1 IH1|i r1 IH1];
    intros x w rest Hrest Hd; simpl in Hd.
  - subst w. simpl in *. exists (ms_caps x). left.
    destruct x; simpl in *; subst; f_equal; lia.
  - destruct Hd as [-> Hp]. simpl in *. rewrite Hp. simpl.
    exists (ms_caps x). left. destruct x; simpl in *; subst; f_equal.
  - destruct Hd as [-> ->]. simpl in *. rewrite Hrest.
    exists (ms_caps x). left. destruct x; simpl in *; subst; f_equal; lia.
  - destruct Hd as (a & -> & Hp). simpl in *. rewrite Hrest, Hp.
    exists (ms_caps x). left. f_equal. lia.
  - destruct Hd as (w1 & w2 & -> & Hd1 & Hd2).
    rewrite <- app_assoc in Hrest.
    destruct (IH1 _ _ _ Hrest Hd1) as (c1 & Hc1).
    destruct (IH2 (MS (ms_pos x + length w1) (w2 ++ rest) c1) w2 rest eq_refl Hd2)
      as (c2 & Hc2).
    exists c2. simpl. apply in_flat_map. eexists. split; [exact Hc1|].
    simpl in Hc2. now rewrite length_app, Nat.add_assoc.
  - simpl. eapply (iterate_complete (m r1) (den r1) IH1); eauto.
  - destruct Hd as [Hd | ->].
    + destruct (IH1 _ _ _ Hrest Hd) as (c & Hc). exists c. simpl.
      apply in_app_iff. now left.
    + exists (ms_caps x). simpl. apply in_app_iff. right. left.
      simpl in *. destruct x; simpl in *; subst; f_equal; lia.
  - destruct (IH1 _ _ _ Hrest Hd) as (c & Hc). eexists. simpl.
    apply in_map_iff. eexists. split; [|exact Hc]. reflexivity.
Qed.

(** *** Anchored patterns *)

Lemma anchored_seqs_Bol rs : anchored (seqs (Bol :: rs)).
Proof.
  intros x Hx. simpl. destruct (Nat.eqb (ms_pos x) 0) eqn:E; [|reflexivity].
  apply Nat.eqb_eq in E. contradiction.
Qed.

Lemma search_anchored_later r : anchored r ->
  forall s pos, search r (S pos) s = None.
Proof.
  intros Ha s. induction s as [|a s IH]; intros pos; simpl;
    rewrite Ha by (simpl; lia); auto.
Qed.

Lemma exec_anchored r s : anchored r ->
  exec r s = match m r (MS 0 s []) with
             | y :: _ => Some (RM 0 (ms_pos y) (ms_caps y))
             | [] => None
             end.
Proof.
  intros Ha. unfold exec. destruct s; simpl; destruct (m r _); auto.
  now apply search_anchored_later.
Qed.

(** [test] of a pattern anchored at the start: some prefix of the
    subject is matched. *)
Lemma test_anchored rs s :
  test (seqs (Bol :: rs)) s = true <->
  exists w rest, s = w ++ rest /\ den (seqs rs) 0 w rest.
Proof.
  unfold test. rewrite exec_anchored by apply anchored_seqs_Bol. split.
  - destruct (m _ _) as [|y l] eqn:E; [discriminate|]. intros _.
    destruct (m_sound (seqs (Bol :: rs)) (MS 0 s []) y) as (w & [Hr Hp] & Hd).
    { rewrite E. now left. }
    simpl in Hr, Hd. destruct Hd as (w1 & w2 & -> & [-> _] & Hd).
    simpl in *. eauto.
  - intros (w & rest & -> & Hd).
    destruct (m_complete (seqs (Bol :: rs)) (MS 0 (w ++ rest) []) w rest eq_refl)
      as (c & Hc).
    { simpl. exists [], w. repeat split; auto. }
    destruct (m _ _); [destruct Hc | reflexivity].
Qed.

(** *** What the building blocks match *)

Lemma den_text t pos w rest : den (text t) pos w rest <-> w = t.
Proof.
  revert pos w. induction t as [|c t IH]; intros pos w; simpl.
  - tauto.
  - split.
    + intros (w1 & w2 & -> & (a & -> & Ha) & Hd). apply IH in Hd. subst.
      unfold chr_eqb in Ha. apply Ascii.eqb_eq in Ha. now subst.
    + intros ->. exists [c], t. repeat split; auto.
      * exists c. split; auto. unfold chr_eqb. apply Ascii.eqb_refl.
      * now apply IH.
Qed.

(** A greedy run over a class matches the non-empty words of the
    class. *)
Lemma den_plus_cls p pos w rest :
  den (Plus (Cls p)) pos w rest <-> w <> [] /\ forallb p w = true.
Proof.
  simpl. split.
  - induction 1 as [pos w rest (a & -> & Ha) | pos w1 w2 rest (a & -> & Ha) _ _ [_ IH]].
    + split; [discriminate | simpl; now rewrite Ha].
    + split; [discriminate | simpl; now rewrite Ha, IH].
  - intros [Hne Hall]. revert pos. induction w as [|a w IH]; [congruence|].
    intros pos. simpl in Hall. apply andb_true_iff in Hall as [Ha Hw].
    destruct w as [|b w].
    + apply plus_one. eauto.
    + apply (plus_more _ pos [a] (b :: w)); [eauto | discriminate |].
      apply IH; [discriminate | assumption].
Qed.

(** *** The first match *)

Lemma m_seq r1 r2 x : m (Seq r1 r2) x = flat_map (m r2) (m r1 x).
Proof. reflexivity. Qed.

Lemma m_opt r x : m (Opt r) x = m r x ++ [x].
Proof. reflexivity. Qed.

Lemma m_grp i r x :
  m (Grp i r) x =
  map (fun y => MS (ms_pos y) (ms_rest y)
                   ((i, firstn (ms_pos y - ms_pos x) (ms_rest x)) :: ms_caps y))
      (m r x).
Proof. reflexivity. Qed.

Lemma m_plus r x : m (Plus r) x = iterate (m r) (length (ms_rest x)) x.
Proof. reflexivity. Qed.

Lemma leads_seq r1 r2 x y z :
  leads r1 x y -> leads r2 y z -> leads (Seq r1 r2) x z.
Proof.
  intros [l1 H1] [l2 H2]. unfold leads. rewrite m_seq, H1.
  cbn [flat_map]. rewrite H2. cbn [app]. eauto.
Qed.

Lemma leads_eps x : leads Eps x x.
Proof. now exists []. Qed.

Lemma leads_bol s c : leads Bol (MS 0 s c) (MS 0 s c).
Proof. now exists []. Qed.

Lemma leads_chr a pos rest c :
  leads (chr a) (MS pos (a :: rest) c) (MS (S pos) rest c).
Proof. exists []. simpl. unfold chr_eqb. now rewrite Ascii.eqb_refl. Qed.

Lemma leads_text t : forall pos rest c,
  leads (text t) (MS pos (t ++ rest) c) (MS (pos + length t) rest c).
Proof.
  induction t as [|a t IH]; intros pos rest c.
  - simpl. rewrite Nat.add_0_r. apply leads_eps.
  - change (text (a :: t)) with (Seq (chr a) (text t)).
    eapply leads_seq; [apply leads_chr|].
    replace (pos + length (a :: t)) with (S pos + length t) by (simpl; lia).
    apply IH.
Qed.

Lemma iterate_cls_stop p n pos rest c :
  match rest with a :: _ => p a = false | [] => True end ->
  iterate (m (Cls p)) n (MS pos rest c) = [].
Proof.
  destruct n, rest; simpl; intros H; try rewrite H; reflexivity.
Qed.

Lemma iterate_cls_go p n pos a s c : p a = true ->
  iterate (m (Cls p)) (S n) (MS pos (a :: s) c)
  = iterate (m (Cls p)) n (MS (S pos) s c) ++ [MS (S pos) s c].
Proof.
  intros Ha. simpl. rewrite Ha. simpl.
  rewrite (proj2 (Nat.ltb_lt pos (S pos))) by lia.
  now rewrite app_nil_r.
Qed.

(** A greedy run takes the whole run of characters of the class. *)
Lemma leads_plus_cls p w : w <> [] -> forallb p w = true ->
  forall rest, match rest with a :: _ => p a = false | [] => True end ->
  forall n pos c, length (w ++ rest) <= n ->
  exists l, iterate (m (Cls p)) n (MS pos (w ++ rest) c)
            = MS (pos + length w) rest c :: l.
Proof.
  intros Hne Hall rest Hrest. induction w as [|a w IH]; [congruence|].
  intros n pos c Hn. simpl in Hall. apply andb_true_iff in Hall as [Ha Hw].
  destruct n as [|n]; [simpl in Hn; lia|].
  rewrite <- app_comm_cons, iterate_cls_go by assumption.
  destruct w as [|b w].
  - cbn [app]. rewrite iterate_cls_stop by assumption.
    exists []. cbn [app length]. do 2 f_equal. lia.
  - destruct (IH ltac:(discriminate) Hw n (S pos) c) as (l & Hl).
    { simpl in *. lia. }
    rewrite Hl. eexists. cbn [app length]. do 2 f_equal.
    cbn [length]. lia.
Qed.

Lemma leads_plus p w rest pos c :
  w <> [] -> forallb p w = true ->
  match rest with a :: _ => p a = false | [] => True end ->
  leads (Plus (Cls p)) (MS pos (w ++ rest) c) (MS (pos + length w) rest c).
Proof.
  intros Hne Hall Hrest. unfold leads. rewrite m_plus.
  apply leads_plus_cls; auto.
Qed.

Lemma leads_grp i r x y :
  leads r x y ->
  leads (Grp i r) x
    (MS (ms_pos y) (ms_rest y)
        ((i, firstn (ms_pos y - ms_pos x) (ms_rest x)) :: ms_caps y)).
Proof. intros [l H]. unfold leads. rewrite m_grp, H. cbn [map]. eauto. Qed.

Lemma leads_opt_skip r x : m r x = [] -> leads (Opt r) x x.
Proof. intros H. unfold leads. rewrite m_opt, H. now exists []. Qed.

Lemma leads_exec r s y :
  anchored r -> leads r (MS 0 s []) y ->
  exec r s = Some (RM 0 (ms_pos y) (ms_caps y)).
Proof.
  intros Ha [l H]. rewrite exec_anchored by assumption. now rewrite H.
Qed.

Lemma den_chr c pos w rest : den (chr c) pos w rest <-> w = [c].
Proof.
  simpl. split.
  - intros (a & -> & Ha). unfold chr_eqb in Ha.
    apply Ascii.eqb_eq in Ha. now subst.
  - intros ->. exists c. split; [reflexivity|]. unfold chr_eqb.
    apply Ascii.eqb_refl.
Qed.

(** Taking a sequence of patterns apart, and putting one together. *)
Ltac den_inv :=
  repeat match goal with
    | H : den (Seq _ _) _ _ _ |- _ => destruct H as (? & ? & -> & ? & ?)
    | H : den (text _) _ _ _ |- _ => apply den_text in H; subst
    | H : den (chr _) _ _ _ |- _ => apply den_chr in H; subst
    | H : den (Plus (Cls _)) _ _ _ |- _ => apply den_plus_cls in H; destruct H
    | H : den Eps _ _ _ |- _ => simpl in H; subst
    end.

Ltac den_build :=
  repeat match goal with
    | |- den (Seq _ _) _ _ _ =>
        eexists _, _; split; [reflexivity|]; split
    | |- den (text _) _ _ _ => now apply den_text
    | |- den (chr _) _ _ _ => now apply den_chr
    | |- den (Plus (Cls _)) _ _ _ => apply den_plus_cls; split; assumption
    | |- den Eps _ _ _ => reflexivity
    end.

(** *** [includes] and [startsWith] *)

Lemma startsWith_iff p s : startsWith p s = true <-> exists b, s = p ++ b.
Proof.
  revert s. induction p as [|a p IH]; intros s; simpl.
  - split; eauto.
  - destruct s as [|c s]; simpl.
    + split; [discriminate | intros (b & Hb); discriminate].
    + rewrite andb_true_iff, IH. unfold chr_eqb. rewrite Ascii.eqb_eq. split.
      * intros (-> & b & ->). eauto.
      * intros (b & [= -> ->]). eauto.
Qed.

Lemma includes_iff p s :
  includes p s = true <-> exists a b, s = a ++ p ++ b.
Proof.
  induction s as [|c s IH].
  - simpl. rewrite orb_false_r, startsWith_iff. split.
    + intros (b & ->). now exists [], b.
    + intros (a & b & H). destruct a; [eauto | discriminate].
  - cbn [includes]. rewrite orb_true_iff, startsWith_iff, IH. split.
    + intros [(b & ->) | (a & b & ->)].
      * now exists [], b.
      * now exists (c :: a), b.
    + intros (a & b & H). destruct a as [|a0 a].
      * left. eauto.
      * right. injection H as -> ->. eauto.
Qed.

End RegexFacts.

(** ** Linear: issue pages and the identity read from the path *)

Module LinearFacts.
Import Js Regex RegexFacts Location Linear.

Lemma not_slash_slash : not_slash "/" = false.
Proof. reflexivity. Qed.

Lemma upper_dash : upper "-" = false.
Proof. reflexivity. Qed.

Lemma urlPattern_anchored : anchored urlPattern.
Proof. apply anchored_seqs_Bol. Qed.

Lemma pathPattern_anchored : anchored pathPattern.
Proof. apply anchored_seqs_Bol. Qed.

Lemma projectKeyPattern_anchored : anchored projectKeyPattern.
Proof. apply anchored_seqs_Bol. Qed.

(** The first match of [pathPattern] on [/ws/issue/key]. *)
Lemma pathPattern_leads ws key :
  ws <> [] -> forallb not_slash ws = true ->
  key <> [] -> forallb not_slash key = true ->
  leads pathPattern (MS 0 ("/"%char :: ws ++ lit "/issue/" ++ key) [])
    (MS (1 + length ws + 7 + length key) [] [(2, key); (1, ws)]).
Proof.
  intros Hws Hws' Hkey Hkey'. unfold pathPattern.
  cbn [seqs]. eapply leads_seq; [apply leads_bol|].
  eapply leads_seq; [apply leads_chr|].
  eapply leads_seq.
  { apply leads_grp. apply leads_plus; [assumption..|]. reflexivity. }
  cbn [ms_pos ms_rest ms_caps].
  eapply leads_seq; [apply leads_text|].
  eapply leads_seq.
  { apply leads_grp. rewrite <- (app_nil_r key) at 1.
    apply leads_plus; [assumption..|]. exact I. }
  cbn [ms_pos ms_rest ms_caps].
  eapply leads_seq; [apply leads_opt_skip; reflexivity|].
  replace (1 + length ws + length (lit "/issue/") + length key
           - (1 + length ws + length (lit "/issue/"))) with (length key) by lia.
  replace (1 + length ws - 1) with (length ws) by lia.
  rewrite firstn_all, firstn_app, firstn_all, Nat.sub_diag.
  cbn [firstn]. rewrite app_nil_r.
  change (length (lit "/issue/")) with 7. apply leads_eps.
Qed.

Lemma urlPattern_leads ws key :
  ws <> [] -> forallb not_slash ws = true ->
  key <> [] -> forallb not_slash key = true ->
  leads urlPattern (MS 0 ("/"%char :: ws ++ lit "/issue/" ++ key) [])
    (MS (1 + length ws + 7 + length key) [] []).
Proof.
  intros Hws Hws' Hkey Hkey'. unfold urlPattern.
  cbn [seqs]. eapply leads_seq; [apply leads_bol|].
  eapply leads_seq; [apply leads_chr|].
  eapply leads_seq; [apply leads_plus; [assumption..|]; reflexivity|].
  eapply leads_seq; [apply leads_text|].
  eapply leads_seq.
  { rewrite <- (app_nil_r key) at 1. apply leads_plus; [assumption..|]. exact I. }
  change (length (lit "/issue/")) with 7. apply leads_eps.
Qed.

(** The first match of [projectKeyPattern] on [u-rest]. *)
Lemma projectKeyPattern_leads u rest :
  u <> [] -> forallb upper u = true ->
  leads projectKeyPattern (MS 0 (u ++ "-"%char :: rest) [])
    (MS (length u + 1) rest [(1, u)]).
Proof.
  intros Hu Hu'. unfold projectKeyPattern.
  cbn [seqs]. eapply leads_seq; [apply leads_bol|].
  eapply leads_seq.
  { apply leads_grp. apply leads_plus; [assumption..|]. reflexivity. }
  cbn [ms_pos ms_rest ms_caps].
  eapply leads_seq; [apply leads_chr|].
  rewrite Nat.add_0_l, Nat.sub_0_r, firstn_app, firstn_all, Nat.sub_diag.
  cbn [firstn]. rewrite app_nil_r.
  replace (S (length u)) with (length u + 1) by lia. apply leads_eps.
Qed.

(** What the two patterns of Linear match: the same prefixes of the
    path. *)
Lemma urlPattern_den w rest :
  den (seqs [chr "/"; Plus (Cls not_slash); text (lit "/issue/");
             Plus (Cls not_slash)]) 0 w rest <->
  exists ws key, ws <> [] /\ forallb not_slash ws = true /\
                 key <> [] /\ forallb not_slash key = true /\
                 w = "/"%char :: ws ++ lit "/issue/" ++ key.
Proof.
  cbn [seqs]. split.
  - intros (w1 & w2 & -> & (a & -> & Ha) & w3 & w4 & -> & H3 & w5 & w6 & ->
            & H5 & w7 & w8 & -> & H7 & ->).
    apply den_plus_cls in H3 as [? ?]. apply den_text in H5 as ->.
    apply den_plus_cls in H7 as [? ?].
    unfold chr_eqb in Ha. apply Ascii.eqb_eq in Ha as <-.
    exists w3, w7. rewrite app_nil_r. repeat split; auto.
  - intros (ws & key & Hws & Hws' & Hkey & Hkey' & ->).
    exists ["/"%char], (ws ++ lit "/issue/" ++ key). split; [reflexivity|].
    split; [exists "/"%char; split; reflexivity|].
    exists ws, (lit "/issue/" ++ key). split; [reflexivity|].
    split; [apply den_plus_cls; auto|].
    exists (lit "/issue/"), key. split; [reflexivity|].
    split; [now apply den_text|].
    exists key, []. split; [now rewrite app_nil_r|].
    split; [apply den_plus_cls; auto | reflexivity].
Qed.

Lemma isLinearIssuePage_iff l :
  isLinearIssuePage l = true <-> issue_path (pathname l).
Proof.
  unfold isLinearIssuePage, urlPattern. rewrite test_anchored. split.
  - intros (w & rest & Hp & Hd). apply urlPattern_den in Hd
      as (ws & key & ? & ? & ? & ? & ->).
    exists ws, key, rest. repeat split; auto. rewrite Hp. cbn [app].
    now rewrite <- !app_assoc.
  - intros (ws & key & tail & ? & ? & ? & ? & Hp).
    exists ("/"%char :: ws ++ lit "/issue/" ++ key), tail. split.
    + rewrite Hp. cbn [app]. now rewrite <- !app_assoc.
    + apply urlPattern_den. exists ws, key. repeat split; auto.
Qed.

(** On an issue page [pathPattern] matches as well: its optional
    group may match nothing. *)
Lemma pathPattern_matches l :
  isLinearIssuePage l = true -> exec pathPattern (pathname l) <> None.
Proof.
  intros H. apply isLinearIssuePage_iff in H
    as (ws & key & tail & Hws & Hws' & Hkey & Hkey' & Hp).
  unfold pathPattern. rewrite exec_anchored by apply anchored_seqs_Bol.
  destruct (m_complete
              (seqs [Bol; chr "/"; Grp 1 (Plus (Cls not_slash));
                     text (lit "/issue/"); Grp 2 (Plus (Cls not_slash));
                     Opt (Seq (chr "/") (Grp 3 (Plus (Cls dot))))])
              (MS 0 (pathname l) [])
              ("/"%char :: ws ++ lit "/issue/" ++ key) tail) as (c & Hc).
  { rewrite Hp. cbn [ms_rest app]. now rewrite <- !app_assoc. }
  { cbn [seqs ms_pos].
    exists [], ("/"%char :: ws ++ lit "/issue/" ++ key).
    split; [reflexivity|]. split; [split; reflexivity|].
    exists ["/"%char], (ws ++ lit "/issue/" ++ key). split; [reflexivity|].
    split; [exists "/"%char; split; reflexivity|].
    exists ws, (lit "/issue/" ++ key). split; [reflexivity|].
    split; [apply den_plus_cls; auto|].
    exists (lit "/issue/"), key. split; [reflexivity|].
    split; [now apply den_text|].
    exists key, []. split; [now rewrite app_nil_r|].
    split; [apply den_plus_cls; auto|].
    exists [], []. split; [reflexivity|]. split; [now right | reflexivity]. }
  destruct (m _ _); [destruct Hc | discriminate].
Qed.

Lemma getLinearIssueInfo_some l :
  isLinearIssuePage l = true -> getLinearIssueInfo l <> None.
Proof.
  intros H. unfold getLinearIssueInfo. rewrite H. cbn [negb].
  pose proof (pathPattern_matches l H) as Hm.
  destruct (exec pathPattern (pathname l)); [discriminate | congruence].
Qed.

Lemma getLinearIssueInfo_none l :
  getLinearIssueInfo l = None <-> isLinearIssuePage l = false.
Proof.
  split.
  - intros H. destruct (isLinearIssuePage l) eqn:E; [|reflexivity].
    now apply getLinearIssueInfo_some in E.
  - intros H. unfold getLinearIssueInfo. now rewrite H.
Qed.

(** The project key of an identity is read from its issue id alone. *)
Lemma projectKey_of_issueId l info :
  getLinearIssueInfo l = Some info ->
  projectKey info =
  match exec projectKeyPattern (issueId info) with
  | Some projectKeyMatch => default [] (group 1 projectKeyMatch)
  | None => []
  end.
Proof.
  unfold getLinearIssueInfo. destruct (negb _); [discriminate|].
  destruct (exec pathPattern _); [|discriminate].
  intros [= <-]. reflexivity.
Qed.

Lemma projectKey_leading_run l info u rest :
  getLinearIssueInfo l = Some info ->
  u <> [] -> forallb upper u = true ->
  issueId info = u ++ "-"%char :: rest ->
  projectKey info = u.
Proof.
  intros Hinfo Hu Hu' Hid. rewrite (projectKey_of_issueId _ _ Hinfo), Hid.
  rewrite (leads_exec _ _ _ projectKeyPattern_anchored
             (projectKeyPattern_leads u rest Hu Hu')).
  reflexivity.
Qed.

(** An issue id that does not start with capital letters and a dash
    gives no project key. *)
Lemma projectKey_empty l info :
  getLinearIssueInfo l = Some info ->
  (forall u rest, u <> [] -> forallb upper u = true ->
                  issueId info <> u ++ "-"%char :: rest) ->
  projectKey info = [].
Proof.
  intros Hinfo Hno. rewrite (projectKey_of_issueId _ _ Hinfo).
  destruct (exec projectKeyPattern (issueId info)) eqn:E; [|reflexivity].
  exfalso. assert (Ht : test projectKeyPattern (issueId info) = true)
    by (unfold test; now rewrite E).
  unfold projectKeyPattern in Ht. apply test_anchored in Ht
    as (w & rest & Hw & Hd).
  cbn [seqs] in Hd.
  destruct Hd as (w1 & w2 & -> & H1 & w3 & w4 & -> & (a & -> & Ha) & ->).
  change (den (Plus (Cls upper)) 0 w1 (([a] ++ []) ++ rest)) in H1.
  apply den_plus_cls in H1 as [? ?].
  unfold chr_eqb in Ha. apply Ascii.eqb_eq in Ha as <-.
  apply (Hno w1 rest); auto. rewrite Hw. now rewrite <- app_assoc.
Qed.

(** A path [/ws/issue/key] without a slug. *)
Lemma no_slug l ws key :
  ws <> [] -> forallb not_slash ws = true ->
  key <> [] -> forallb not_slash key = true ->
  pathname l = "/"%char :: ws ++ lit "/issue/" ++ key ->
  exists info, getLinearIssueInfo l = Some info /\
               issueId info = key /\ issueTitle info = [].
Proof.
  intros Hws Hws' Hkey Hkey' Hp. unfold getLinearIssueInfo.
  assert (Hpage : isLinearIssuePage l = true).
  { unfold isLinearIssuePage, test. rewrite Hp.
    now rewrite (leads_exec _ _ _ urlPattern_anchored
                   (urlPattern_leads ws key Hws Hws' Hkey Hkey')). }
  rewrite Hpage. cbn [negb]. rewrite Hp.
  rewrite (leads_exec _ _ _ pathPattern_anchored
             (pathPattern_leads ws key Hws Hws' Hkey Hkey')).
  eexists. split; [reflexivity|]. cbn. split; reflexivity.
Qed.

End LinearFacts.

(** ** Jira and Plane: the shapes of the issue pages *)

Module JiraFacts.
Import Js Regex RegexFacts Location Jira.

Lemma join_params_in k v params :
  In (k, v) params -> exists a b, join_params params = a ++ (k ++ ["="%char]) ++ b.
Proof.
  induction params as [|[k' v'] params IH]; [intros []|].
  intros [[= -> ->] | Hin].
  - destruct params as [|q params].
    + exists [], v. cbn [join_params app]. now rewrite <- app_assoc.
    + exists [], (v ++ "&"%char :: join_params (q :: params)).
      cbn [join_params app]. destruct q. now rewrite <- app_assoc.
  - destruct (IH Hin) as (a & b & Hab). destruct params as [|q params];
      [destruct Hin|].
    exists (k' ++ "="%char :: v' ++ "&"%char :: a), b.
    change (join_params ((k', v') :: q :: params))
      with (k' ++ "="%char :: v' ++ "&"%char :: join_params (q :: params)).
    rewrite Hab. rewrite <- !app_assoc. cbn [app]. rewrite <- !app_assoc.
    reflexivity.
Qed.

Lemma selectedIssue_included params v :
  In (lit "selectedIssue", v) params ->
  includes (lit "selectedIssue=") (query_string params) = true.
Proof.
  intros Hin. apply includes_iff.
  destruct (join_params_in _ _ _ Hin) as (a & b & Hab).
  exists ("?"%char :: a), b. unfold query_string. rewrite Hab. reflexivity.
Qed.

Lemma board_test p : test boardUrlPattern p = true <-> board_path p.
Proof.
  unfold boardUrlPattern. rewrite test_anchored. split.
  - intros (w & rest & Hp & Hd). cbn [seqs] in Hd. den_inv.
    match goal with
    | |- board_path ((_ ++ ?a ++ _ ++ ?b ++ []) ++ ?r) => exists a, b, r
    end. repeat split; try assumption.
    rewrite app_nil_r, <- !app_assoc. reflexivity.
  - intros (proj & n & tail & ? & ? & ? & ? & Hp).
    exists (lit "/jira/software/projects/" ++ proj ++ lit "/boards/" ++ n ++ []), tail.
    split; [rewrite Hp, app_nil_r, <- !app_assoc; reflexivity|].
    cbn [seqs]. den_build.
Qed.

Lemma jira_browse_test p : test browseUrlPattern p = true <-> browse_path p.
Proof.
  unfold browseUrlPattern. rewrite test_anchored. split.
  - intros (w & rest & Hp & Hd). cbn [seqs] in Hd. den_inv.
    match goal with
    | |- browse_path ((_ ++ ?a ++ _ ++ ?b ++ []) ++ ?r) => exists a, b, r
    end. repeat split; try assumption.
    rewrite app_nil_r, <- !app_assoc. reflexivity.
  - intros (letters & digits & tail & ? & ? & ? & ? & Hp).
    exists (lit "/browse/" ++ letters ++ ["-"%char] ++ digits ++ []), tail.
    split; [rewrite Hp, app_nil_r, <- !app_assoc; reflexivity|].
    cbn [seqs]. den_build.
Qed.

Lemma isJiraIssuePage_iff l :
  isJiraIssuePage l = true <->
  (board_path (pathname l) /\ includes (lit "selectedIssue=") (search l) = true)
  \/ browse_path (pathname l).
Proof.
  unfold isJiraIssuePage.
  rewrite orb_true_iff, andb_true_iff, board_test, jira_browse_test. reflexivity.
Qed.

End JiraFacts.

Module PlaneFacts.
Import Js Regex RegexFacts Location Plane.

Lemma issues_test p : test projectIssuesPattern p = true <-> issues_path p.
Proof.
  unfold projectIssuesPattern. rewrite test_anchored. split.
  - intros (w & rest & Hp & Hd). cbn [seqs] in Hd. den_inv.
    match goal with
    | |- issues_path ((_ ++ ?a ++ _ ++ ?b ++ _ ++ []) ++ ?r) => exists a, b, r
    end. repeat split; try assumption.
    rewrite app_nil_r, <- !app_assoc. reflexivity.
  - intros (ws & id & tail & ? & ? & ? & ? & Hp).
    exists (["/"%char] ++ ws ++ lit "/projects/" ++ id ++ lit "/issues/" ++ []), tail.
    split; [rewrite Hp, app_nil_r, <- !app_assoc; reflexivity|].
    cbn [seqs]. den_build.
Qed.

Lemma plane_browse_test p : test browsePattern p = true <-> browse_path p.
Proof.
  unfold browsePattern. rewrite test_anchored. split.
  - intros (w & rest & Hp & Hd). cbn [seqs] in Hd. den_inv.
    match goal with
    | |- browse_path ((_ ++ ?a ++ _ ++ ?b ++ _ ++ ?c ++ []) ++ ?r) =>
        exists a, b, c, r
    end. repeat split; try assumption.
    rewrite app_nil_r, <- !app_assoc. reflexivity.
  - intros (ws & letters & digits & tail & ? & ? & ? & ? & ? & ? & Hp).
    exists (["/"%char] ++ ws ++ lit "/browse/" ++ letters ++ ["-"%char]
              ++ digits ++ []), tail.
    split; [rewrite Hp, app_nil_r, <- !app_assoc; reflexivity|].
    cbn [seqs]. den_build.
Qed.

Lemma isPlaneIssuePage_iff l :
  isPlaneIssuePage l = true <->
  issues_path (pathname l) \/ browse_path (pathname l).
Proof.
  unfold isPlaneIssuePage.
  rewrite orb_true_iff, issues_test, plane_browse_test. reflexivity.
Qed.

End PlaneFacts.

(** ** PKCE: the code challenge *)

Module PkceFacts.
Import Js Regex RegexFacts Base64 Pkce.

Lemma list_ind3 {A} (P : list A -> Prop) :
  P [] -> (forall a, P [a]) -> (forall a b, P [a; b]) ->
  (forall a b c l, P l -> P (a :: b :: c :: l)) ->
  forall l, P l.
Proof.
  intros H0 H1 H2 H3. fix IH 1.
  intros [|a [|b [|c l]]];
    [apply H0 | apply H1 | apply H2 | apply H3; apply IH].
Qed.

Lemma replace_all_url s :
  replace_all "/" "_" (replace_all "+" "-" s) = map url_char s.
Proof. unfold replace_all. rewrite map_map. reflexivity. Qed.

Lemma url_char_nth n :
  url_char (nth n alphabet "A"%char) = nth n url_alphabet "A"%char.
Proof.
  do 64 (destruct n as [|n]; [reflexivity|]). destruct n; reflexivity.
Qed.

Lemma url_nth_not_equals n : nth n url_alphabet "A"%char <> "="%char.
Proof.
  do 64 (destruct n as [|n]; [discriminate|]). destruct n; discriminate.
Qed.

Lemma url_char_enc i : url_char (enc alphabet i) = enc url_alphabet i.
Proof. apply url_char_nth. Qed.

Lemma code_fromCharCode b : (b < 256)%N -> code (fromCharCode b) = b.
Proof. apply N_ascii_embedding. Qed.

(** After the two replacements, [btoa] has written the URL-safe
    encoding followed by its padding. *)
Lemma btoa_replaced bs :
  Forall (fun b => (b < 256)%N) bs ->
  exists pads,
    forallb (chr_eqb "=") pads = true /\
    map url_char (btoa (map fromCharCode bs)) = base64url_nopad bs ++ pads.
Proof.
  induction bs as [|a|a b|a b c bs IH] using list_ind3; intros Hb.
  - now exists [].
  - inversion_clear Hb. exists (lit "=="). split; [reflexivity|].
    cbn [map btoa]. rewrite !code_fromCharCode by assumption.
    cbn [map]. rewrite !url_char_enc. reflexivity.
  - inversion_clear Hb as [|? ? ? Hb']. inversion_clear Hb'.
    exists (lit "="). split; [reflexivity|].
    cbn [map btoa]. rewrite !code_fromCharCode by assumption.
    cbn [map]. rewrite !url_char_enc. reflexivity.
  - inversion_clear Hb as [|? ? ? Hb1]. inversion_clear Hb1 as [|? ? ? Hb2].
    inversion_clear Hb2 as [|? ? ? Hb3].
    destruct (IH Hb3) as (pads & Hpads & Heq). exists pads. split; [assumption|].
    cbn [map btoa]. rewrite !code_fromCharCode by assumption.
    rewrite map_app, Heq. cbn [map]. rewrite !url_char_enc.
    cbn [base64url_nopad]. rewrite <- app_assoc. reflexivity.
Qed.

Lemma base64url_nopad_no_equals bs :
  Forall (fun a => a <> "="%char) (base64url_nopad bs).
Proof.
  induction bs as [|a|a b|a b c bs IH] using list_ind3; cbn [base64url_nopad app];
    repeat (constructor; [apply url_nth_not_equals|]);
    try assumption; constructor.
Qed.

(** [/=+$/] does not match where another character follows. *)
Lemma trailing_equals_fails pos a rest c :
  a <> "="%char -> m trailing_equals (MS pos (a :: rest) c) = [].
Proof.
  intros Ha. unfold trailing_equals, chr. cbn [seqs]. rewrite m_seq, m_plus.
  cbn [ms_rest]. rewrite iterate_cls_stop; [reflexivity|].
  unfold chr_eqb. apply Ascii.eqb_neq. congruence.
Qed.

Lemma search_skips body : Forall (fun a => a <> "="%char) body ->
  forall pos rest,
    search trailing_equals pos (body ++ rest)
    = search trailing_equals (pos + length body) rest.
Proof.
  induction 1 as [|a body Ha _ IH]; intros pos rest.
  - cbn [app length]. now rewrite Nat.add_0_r.
  - cbn [app search]. rewrite trailing_equals_fails by assumption.
    rewrite IH. f_equal. cbn [length]. lia.
Qed.

Lemma search_pads pads pos :
  forallb (chr_eqb "=") pads = true ->
  search trailing_equals pos pads
  = match pads with
    | [] => None
    | _ :: _ => Some (RM pos (pos + length pads) [])
    end.
Proof.
  intros Hp. destruct pads as [|a pads]; [reflexivity|].
  assert (L : leads trailing_equals (MS pos (a :: pads) [])
                (MS (pos + length (a :: pads)) [] [])).
  { unfold trailing_equals, chr. cbn [seqs].
    eapply leads_seq.
    - rewrite <- (app_nil_r (a :: pads)) at 1.
      apply leads_plus; [discriminate | assumption | exact I].
    - eapply leads_seq; [now exists [] | apply leads_eps]. }
  destruct L as [l Hl]. cbn [search]. rewrite Hl. reflexivity.
Qed.

(** Removing the first match of [/=+$/] removes the padding. *)
Lemma strip_padding body pads :
  Forall (fun a => a <> "="%char) body ->
  forallb (chr_eqb "=") pads = true ->
  replace_first trailing_equals [] (body ++ pads) = body.
Proof.
  intros Hbody Hpads. unfold replace_first, exec.
  rewrite search_skips, search_pads by assumption.
  destruct pads as [|a pads].
  - apply app_nil_r.
  - cbn [rm_index rm_end app Nat.add].
    rewrite firstn_app, firstn_all, Nat.sub_diag. cbn [firstn].
    rewrite skipn_all2 by (rewrite length_app; lia).
    now rewrite !app_nil_r.
Qed.

(** [base64urlencode] is URL-safe base64 without padding. *)
Lemma base64urlencode_spec bs :
  Forall (fun b => (b < 256)%N) bs ->
  base64urlencode bs = base64url_nopad bs.
Proof.
  intros Hb. unfold base64urlencode. rewrite replace_all_url.
  destruct (btoa_replaced bs Hb) as (pads & Hpads & ->).
  apply strip_padding; [apply base64url_nopad_no_equals | assumption].
Qed.

Lemma be_bytes_small n x : Forall (fun b => (b < 256)%N) (Sha256.be_bytes n x).
Proof.
  induction n as [|n IH]; cbn [Sha256.be_bytes]; constructor; [|assumption].
  change 255%N with (N.ones 8). rewrite N.land_ones.
  apply N.mod_lt. discriminate.
Qed.

Lemma digest_bytes msg : Forall (fun b => (b < 256)%N) (Sha256.digest msg).
Proof.
  unfold Sha256.digest.
  induction (fold_left _ _ _) as [|w ws IH]; cbn [flat_map]; [constructor|].
  apply Forall_app. split; [apply be_bytes_small | exact IH].
Qed.

End PkceFacts.

(** ** The token store: one refresh at a time *)

Module OAuthFacts.
Import OAuth.
#[local] Open Scope string_scope.

Lemma lookup_new (l : list promise) x : (l ++ [x])%list !! length l = Some x.
Proof. now apply list_lookup_middle. Qed.

Lemma lookup_update (l : list promise) p v w :
  l !! p = Some w -> <[p := v]> l !! p = Some v.
Proof.
  intros H. apply list_lookup_insert_eq. now apply lookup_lt_Some in H.
Qed.

(** A call while a refresh is in flight changes nothing and hands out
    the promise of that refresh. *)
Lemma refresh_in_flight st p :
  refreshPromise st = Some p -> refreshAccessToken st = (st, p).
Proof. intros H. unfold refreshAccessToken. now rewrite H. Qed.

Lemma calls_in_flight n st p :
  refreshPromise st = Some p -> calls n st = (st, repeat p n).
Proof.
  intros H. induction n as [|n IH]; [reflexivity|].
  cbn [calls repeat]. now rewrite (refresh_in_flight _ _ H), IH.
Qed.

(** One step of a suspended body keeps the messages sent. *)
Lemma resume_sent p i st st' : resume p i st = Some st' -> sent st' = sent st.
Proof.
  unfold resume. destruct (promises st !! p) as [[[]|]|]; destruct i as [|[]];
    intros [= <-]; reflexivity.
Qed.

(** A pending promise settles within two steps, without a message. *)
Lemma await_settles r p st k :
  promises st !! p = Some (Pending k) ->
  exists st',
    await 2 r p st = (st', Some (final_outcome r k)) /\
    sent st' = sent st /\
    observe st' p = Some (final_outcome r k) /\
    (in_flight k = true -> refreshPromise st' = None) /\
    (final_outcome r k = Fulfilled ->
     accessToken st' = match k, r with
                       | KStored data, _ | KResponse, BgSuccess data =>
                           access_token data
                       | _, _ => accessToken st
                       end).
Proof.
  intros Hp. unfold await. rewrite Hp.
  destruct k as [| |data|error]; [|destruct r as [data|error|error]| |];
    unfold resume; rewrite Hp; cbn -[lookup insert];
    unfold observe; cbn -[lookup insert];
    rewrite ?(lookup_update _ _ _ _ Hp); cbn -[lookup insert];
    rewrite ?(lookup_update _ _ _ _ (lookup_update _ _ _ _ Hp));
    eexists; repeat split; try reflexivity; try discriminate;
    cbn -[lookup insert];
    rewrite ?(lookup_update _ _ _ _ Hp);
    rewrite ?(lookup_update _ _ _ _ (lookup_update _ _ _ _ Hp));
    reflexivity.
Qed.

(** A first call with a refresh token sends one message and leaves
    the refresh in flight. *)
Lemma refresh_starts st :
  refreshPromise st = None -> refreshToken st <> "" ->
  let p := length (promises st) in
  let msg := RefreshToken (endpoint st) (clientId st) (refreshToken st) in
  exists st1,
    refreshAccessToken st = (st1, p) /\
    sent st1 = (sent st ++ [msg])%list /\
    refreshPromise st1 = Some p /\
    promises st1 !! p = Some (Pending KResponse) /\
    accessToken st1 = accessToken st /\ refreshToken st1 = refreshToken st /\
    storage st1 = storage st.
Proof.
  intros Hnone Htok. unfold refreshAccessToken. rewrite Hnone.
  apply String.eqb_neq in Htok. rewrite Htok.
  eexists. split; [reflexivity|]. cbn -[lookup].
  repeat split; try reflexivity. apply lookup_new.
Qed.

(** A call without a refresh token, and without a refresh in flight. *)
Lemma refresh_logged_out st :
  refreshPromise st = None -> refreshToken st = "" ->
  let p := length (promises st) in
  exists st1,
    refreshAccessToken st = (st1, p) /\
    accessToken st1 = "" /\ refreshToken st1 = "" /\
    storage st1 = delete "refresh_token" (delete "access_token" (storage st)) /\
    sent st1 = sent st /\
    refreshPromise st1 = None /\
    promises st1 !! p = Some (Pending KLoggedOut).
Proof.
  intros Hnone Htok. unfold refreshAccessToken. rewrite Hnone, Htok.
  eexists. split; [reflexivity|]. cbn -[lookup delete].
  repeat split; try reflexivity; try assumption. apply lookup_new.
Qed.

(** [wf] holds initially and is kept by calls and by steps. *)
Lemma wf_refreshAccessToken st :
  wf st -> wf (fst (refreshAccessToken st)).
Proof.
  intros Hwf. unfold refreshAccessToken, wf in *.
  destruct (refreshPromise st) as [p|] eqn:E; cbn [fst]; [now rewrite E|].
  destruct (String.eqb (refreshToken st) ""); cbn -[lookup delete insert].
  - now rewrite E.
  - exists KResponse. split; [apply lookup_new | reflexivity].
Qed.

(** *** The guard names the refresh in flight, in every reachable state *)

Lemma single_flight_initial st : initial st -> single_flight st.
Proof.
  intros [Hnone Hnil] p. unfold refreshing. rewrite Hnone, Hnil. split.
  - intros (k & Hk & _). discriminate.
  - discriminate.
Qed.

Lemma refreshing_new st st' k q :
  promises st' = (promises st ++ [Pending k])%list ->
  refreshing st' q <->
  refreshing st q \/ (q = length (promises st) /\ in_flight k = true).
Proof.
  intros Hps. unfold refreshing. rewrite Hps. split.
  - intros (k' & Hk' & Hf). apply lookup_app_Some in Hk' as [Hold | [Hle Hnew]].
    + left. eauto.
    + right. destruct (q - length (promises st)) as [|n] eqn:E;
        [|destruct n; discriminate].
      injection Hnew as <-. split; [lia | assumption].
  - intros [(k' & Hk' & Hf) | [-> Hf]].
    + exists k'. split; [|assumption]. apply lookup_app_Some. now left.
    + exists k. split; [apply lookup_new | assumption].
Qed.

Lemma refreshing_update st st' p v w q :
  promises st' = <[p := v]> (promises st) ->
  promises st !! p = Some w ->
  refreshing st' q <->
  (q = p /\ exists k, v = Pending k /\ in_flight k = true)
  \/ (q <> p /\ refreshing st q).
Proof.
  intros Hps Hp. unfold refreshing. rewrite Hps.
  destruct (decide (q = p)) as [->|Hne].
  - rewrite (lookup_update _ _ _ _ Hp). split.
    + intros (k & [= ->] & Hf). left. eauto.
    + intros [[_ (k & -> & Hf)] | [Hne _]]; [eauto | congruence].
  - rewrite list_lookup_insert_ne by congruence. split.
    + intros H. right. auto.
    + intros [[-> _] | [_ H]]; [congruence | assumption].
Qed.

Lemma single_flight_call st :
  single_flight st -> single_flight (fst (refreshAccessToken st)).
Proof.
  intros Hinv. unfold refreshAccessToken.
  destruct (refreshPromise st) as [p|] eqn:E; [exact Hinv|].
  destruct (String.eqb (refreshToken st) ""); cbn [new_promise fst]; intros q.
  - rewrite (refreshing_new st _ KLoggedOut q) by reflexivity.
    cbn -[lookup delete]. rewrite (Hinv q), E. split.
    + intros [H | [_ H]]; discriminate.
    + discriminate.
  - rewrite (refreshing_new st _ KResponse q) by reflexivity.
    cbn -[lookup delete]. rewrite (Hinv q), E. split.
    + intros [H | [-> _]]; [discriminate | reflexivity].
    + intros [= <-]. right. auto.
Qed.

Lemma single_flight_resume p i st st' :
  single_flight st -> resume p i st = Some st' -> single_flight st'.
Proof.
  intros Hinv. unfold resume.
  destruct (promises st !! p) as [[k|o]|] eqn:Hp; [|discriminate..].
  assert (Hown : in_flight k = true -> refreshPromise st = Some p).
  { intros Hf. apply Hinv. exists k. auto. }
  assert (Hother : forall q, q <> p -> refreshing st q -> in_flight k = true -> False).
  { intros q Hne Hq Hf. apply Hinv in Hq. rewrite (Hown Hf) in Hq. congruence. }
  destruct k as [| |data|error]; destruct i as [|[data'|error'|error']];
    intros [= <-]; intros q;
    (erewrite refreshing_update; [|reflexivity|exact Hp]);
    cbn -[lookup insert delete].
  - (* the logged-out call settles *)
    rewrite <- (Hinv q). split.
    + intros [[_ (k & [=] & _)] | [_ H]]. assumption.
    + intros H. right. split; [|assumption]. intros ->.
      destruct H as (k & Hk & Hf). rewrite Hp in Hk. injection Hk as <-.
      discriminate.
  - (* the background answered: the tokens are being stored *)
    rewrite (Hown eq_refl). split.
    + intros [[-> _] | [Hne H]]; [reflexivity|].
      exfalso. now apply (Hother q).
    + intros [= <-]. left. eauto.
  - rewrite (Hown eq_refl). split.
    + intros [[-> _] | [Hne H]]; [reflexivity|].
      exfalso. now apply (Hother q).
    + intros [= <-]. left. eauto.
  - rewrite (Hown eq_refl). split.
    + intros [[-> _] | [Hne H]]; [reflexivity|].
      exfalso. now apply (Hother q).
    + intros [= <-]. left. eauto.
  - (* the tokens are stored: the refresh is fulfilled *)
    split.
    + intros [[_ (k & [=] & _)] | [Hne H]]. exfalso. now apply (Hother q).
    + discriminate.
  - (* the tokens are cleared: the refresh is rejected *)
    split.
    + intros [[_ (k & [=] & _)] | [Hne H]]. exfalso. now apply (Hother q).
    + discriminate.
Qed.

Lemma single_flight_step e st : single_flight st -> single_flight (step e st).
Proof.
  intros Hinv. destruct e as [|p i]; cbn [step].
  - now apply single_flight_call.
  - destruct (resume p i st) as [st'|] eqn:E; cbn [default]; [|assumption].
    now apply (single_flight_resume p i st).
Qed.

Lemma single_flight_run es : forall st,
  single_flight st -> single_flight (run es st).
Proof.
  unfold run. induction es as [|e es IH]; intros st Hinv; cbn [fold_left];
    [assumption|]. apply IH. now apply single_flight_step.
Qed.

End OAuthFacts.

(** ** The client: one refresh and one retry for a 401 *)

Module ApiFacts.
Import OAuth OAuthFacts Api.

(** The promise a call hands out is pending in a well-formed store. *)
Lemma refresh_pending st :
  wf st ->
  exists k, promises (fst (refreshAccessToken st)) !! snd (refreshAccessToken st)
            = Some (Pending k).
Proof.
  intros Hwf. unfold refreshAccessToken, wf in *.
  destruct (refreshPromise st) as [p|] eqn:E; cbn [fst snd].
  - destruct Hwf as (k & Hk & _). eauto.
  - destruct (String.eqb (refreshToken st) ""); cbn -[lookup delete insert];
      eexists; apply lookup_new.
Qed.

(** The refresh awaited by the interceptor settles. *)
Lemma refresh_settles bg st :
  wf st ->
  exists o, snd (await 2 bg (snd (refreshAccessToken st))
                   (fst (refreshAccessToken st))) = Some o.
Proof.
  intros Hwf. destruct (refresh_pending st Hwf) as (k & Hk).
  destruct (await_settles bg _ _ _ Hk) as (st' & -> & _). eauto.
Qed.

(** A request that was already retried is not retried again. *)
(** A refresh that is fulfilled has put into [accessToken] the access
    token that the background returned: to this call, to the refresh in
    flight that the call joined, or, when that refresh had its answer
    already, the token of that answer. *)
Lemma refresh_fulfilled bg st :
  wf st ->
  snd (await 2 bg (snd (refreshAccessToken st)) (fst (refreshAccessToken st)))
  = Some Fulfilled ->
  exists data,
    (bg = BgSuccess data
     \/ exists p, refreshPromise st = Some p
                  /\ promises st !! p = Some (Pending (KStored data)))
    /\ accessToken
         (fst (await 2 bg (snd (refreshAccessToken st))
                 (fst (refreshAccessToken st))))
       = access_token data.
Proof.
  intros Hwf. unfold wf in Hwf.
  destruct (refreshPromise st) as [p|] eqn:Hp.
  - destruct Hwf as (k & Hk & Hin).
    rewrite (refresh_in_flight _ _ Hp). cbn [fst snd].
    destruct (await_settles bg p st k Hk) as (st' & -> & _ & _ & _ & Hacc).
    cbn [fst snd]. intros [= Hout]. specialize (Hacc Hout).
    destruct k as [| |data|error]; cbn in Hout; try discriminate.
    + destruct bg as [data| |]; cbn in Hout; try discriminate.
      exists data. split; [now left | assumption].
    + exists data. split; [right; eauto | assumption].
  - destruct (String.eqb_spec (refreshToken st) "") as [E|E].
    + destruct (refresh_logged_out st Hp E) as (st1 & -> & _ & _ & _ & _ & _ & Hk).
      cbn [fst snd].
      destruct (await_settles bg _ st1 _ Hk) as (st' & -> & _).
      cbn [fst snd final_outcome]. discriminate.
    + destruct (refresh_starts st Hp E) as (st1 & -> & _ & _ & Hk & _).
      cbn [fst snd].
      destruct (await_settles bg _ st1 _ Hk) as (st' & -> & _ & _ & _ & Hacc).
      cbn [fst snd]. intros [= Hout]. specialize (Hacc Hout).
      destruct bg as [data| |]; cbn in Hout; try discriminate.
      exists data. split; [now left | assumption].
Qed.

Lemma onRejected_retried bg self status cfg w :
  _retry cfg = true ->
  onRejected bg self status cfg w = (w, RejectedWith (AxiosError status cfg)).
Proof.
  intros H. unfold onRejected. rewrite H.
  now rewrite andb_false_r.
Qed.

Lemma axios_retried server bg fuel cfg w :
  _retry cfg = true ->
  axios server bg (S fuel) cfg w
  = (World (auth w) (requests w ++ [cfg]) (refreshes w),
     plain_result (server (length (requests w)) cfg) cfg).
Proof.
  intros H. cbn [axios]. unfold plain_result.
  destruct (server _ cfg) as [code|]; [destruct (validateStatus code)|];
    rewrite ?onRejected_retried by assumption; reflexivity.
Qed.

(** A request without the retry mark, two levels deep. *)
Lemma axios_unmarked server bg fuel cfg w :
  _retry cfg = false ->
  axios server bg (S (S fuel)) cfg w =
  let w1 := World (auth w) (requests w ++ [cfg]) (refreshes w) in
  match server (length (requests w)) cfg with
  | Status code =>
      if validateStatus code then (w1, Resolved code)
      else if Nat.eqb code 401 then
        let '(a1, p) := refreshAccessToken (auth w) in
        let '(a2, o) := await 2 bg p a1 in
        let w2 := World a2 (requests w1) (S (refreshes w)) in
        match o with
        | Some Fulfilled =>
            let retry := Config (url cfg) (bearer (accessToken a2)) true in
            (World a2 (requests w1 ++ [retry]) (S (refreshes w)),
             plain_result (server (length (requests w1)) retry) retry)
        | Some (Rejected refreshError) =>
            (w2, RejectedWith (RefreshError refreshError))
        | None => (w2, Unsettled)
        end
      else (w1, RejectedWith (AxiosError (Some code) cfg))
  | NoResponse => (w1, RejectedWith (AxiosError None cfg))
  end.
Proof.
  intros Hretry. cbn [axios]. cbv zeta.
  destruct (server (length (requests w)) cfg) as [code|].
  - destruct (validateStatus code); [reflexivity|].
    unfold onRejected at 1. rewrite Hretry. cbn [is401 negb].
    rewrite andb_true_r. destruct (Nat.eqb code 401); [|reflexivity].
    cbn [auth requests refreshes url _retry].
    destruct (refreshAccessToken (auth w)) as [a1 p].
    destruct (await 2 bg p a1) as [a2 [[|refreshError]|]]; try reflexivity.
    unfold plain_result. cbn [requests].
    destruct (server _ _) as [c|]; [destruct (validateStatus c)|];
      rewrite ?onRejected_retried by reflexivity; reflexivity.
  - unfold onRejected. reflexivity.
Qed.

End ApiFacts.

(** C6. For the URL https://linear.app/acme/issue/ST-583/fix-bug the
    identity read by [getLinearIssueInfo] has issue id "ST-583", issue
    title "fix-bug" and project key "ST"; in general the project key is
    the run of capital letters that the issue id starts with, when a dash
    follows it. *)
Theorem C6_linear_identity_scenario :
  Linear.getLinearIssueInfo
    (Location.of_url (Js.lit "https://linear.app/acme/issue/ST-583/fix-bug"))
  = Some {| Linear.issueId := Js.lit "ST-583";
            Linear.issueTitle := Js.lit "fix-bug";
            Linear.projectKey := Js.lit "ST";
            Linear.fullUrl := Js.lit "https://linear.app/acme/issue/ST-583/fix-bug" |}
  /\
  (forall l info u rest,
     Linear.getLinearIssueInfo l = Some info ->
     u <> [] -> forallb Regex.upper u = true ->
     Linear.issueId info = u ++ "-"%char :: rest ->
     Linear.projectKey info = u).
Proof.
  split.
  - vm_compute. reflexivity.
  - exact LinearFacts.projectKey_leading_run.
Qed.

Lemma C6_linear_identity_scenario_witness :
  Linear.projectKey
    {| Linear.issueId := Js.lit "ST-583";
       Linear.issueTitle := Js.lit "fix-bug";
       Linear.projectKey := Js.lit "ST";
       Linear.fullUrl := Js.lit "https://linear.app/acme/issue/ST-583/fix-bug" |}
  = Js.lit "ST".
Proof.
  apply (proj2 C6_linear_identity_scenario
           (Location.of_url (Js.lit "https://linear.app/acme/issue/ST-583/fix-bug"))
           _ (Js.lit "ST") (Js.lit "583")).
  - apply (proj1 C6_linear_identity_scenario).
  - discriminate.
  - reflexivity.
  - reflexivity.
Defined.

(** C10. Whenever the Linear issue-page check holds, [getLinearIssueInfo]
    returns an identity: it returns none exactly on the pages that are
    not issue pages.  For a path /{workspace}/issue/{key} without a slug
    the issue title is the empty string, and when the issue id does not
    start with capital letters followed by a dash the project key is the
    empty string. *)
Theorem C10_linear_identity_present :
  (forall l, Linear.isLinearIssuePage l = true ->
             Linear.getLinearIssueInfo l <> None)
  /\
  (forall l, Linear.getLinearIssueInfo l = None <->
             Linear.isLinearIssuePage l = false)
  /\
  (forall l ws key,
     ws <> [] -> forallb Regex.not_slash ws = true ->
     key <> [] -> forallb Regex.not_slash key = true ->
     Location.pathname l = "/"%char :: ws ++ Js.lit "/issue/" ++ key ->
     exists info, Linear.getLinearIssueInfo l = Some info /\
                  Linear.issueId info = key /\ Linear.issueTitle info = [])
  /\
  (forall l info,
     Linear.getLinearIssueInfo l = Some info ->
     (forall u rest, u <> [] -> forallb Regex.upper u = true ->
                     Linear.issueId info <> u ++ "-"%char :: rest) ->
     Linear.projectKey info = []).
Proof.
  split; [exact LinearFacts.getLinearIssueInfo_some|].
  split; [exact LinearFacts.getLinearIssueInfo_none|].
  split; [exact LinearFacts.no_slug | exact LinearFacts.projectKey_empty].
Qed.

Lemma C10_linear_identity_present_witness :
  Linear.getLinearIssueInfo
    (Location.of_url (Js.lit "https://linear.app/acme/issue/583")) <> None
  /\
  (exists info,
     Linear.getLinearIssueInfo
       (Location.of_url (Js.lit "https://linear.app/acme/issue/583")) = Some info
     /\ Linear.issueId info = Js.lit "583" /\ Linear.issueTitle info = [])
  /\
  Linear.projectKey
    {| Linear.issueId := Js.lit "583"; Linear.issueTitle := [];
       Linear.projectKey := [];
       Linear.fullUrl := Js.lit "https://linear.app/acme/issue/583" |} = [].
Proof.
  destruct C10_linear_identity_present as (H1 & H2 & H3 & H4).
  split; [|split].
  - apply H1. reflexivity.
  - apply (H3 _ (Js.lit "acme") (Js.lit "583")).
    + discriminate.
    + reflexivity.
    + discriminate.
    + reflexivity.
    + reflexivity.
  - apply (H4 (Location.of_url (Js.lit "https://linear.app/acme/issue/583"))).
    + reflexivity.
    + intros u rest Hu Hup Heq. destruct u as [|a u]; [congruence|].
      injection Heq as <- _. discriminate.
Defined.

(** ** The claims on the token store, the client and the OAuth flow *)

(** C1. In every state that a process reaches by calls of
    [refreshAccessToken] and completions of what they wait for, and in
    which a refresh is in flight, [refreshPromise] holds the promise of
    that refresh: a call changes nothing, so sends nothing, and hands out
    that promise, and so do any number of calls.  Starting from a store
    with a refresh token and no refresh in flight, one call followed by
    [n] calls sends exactly one message, and when the refresh settles
    every caller observes the same outcome, fulfilled or rejected as the
    background answered. *)
Theorem C1_single_flight_refresh :
  (forall st0 es p,
     OAuth.initial st0 ->
     OAuth.refreshing (OAuth.run es st0) p ->
     OAuth.refreshAccessToken (OAuth.run es st0) = (OAuth.run es st0, p))
  /\
  (forall st p,
     OAuth.refreshPromise st = Some p ->
     OAuth.refreshAccessToken st = (st, p))
  /\
  (forall st p n,
     OAuth.refreshPromise st = Some p ->
     OAuth.calls n st = (st, repeat p n))
  /\
  (forall st n r,
     OAuth.refreshPromise st = None -> OAuth.refreshToken st <> ""%string ->
     let '(st1, p) := OAuth.refreshAccessToken st in
     let '(st2, ps) := OAuth.calls n st1 in
     let '(st3, o) := OAuth.await 2 r p st2 in
     OAuth.sent st1 =
       OAuth.sent st ++ [OAuth.RefreshToken (OAuth.endpoint st) (OAuth.clientId st)
                           (OAuth.refreshToken st)]
     /\ OAuth.sent st3 = OAuth.sent st1
     /\ o = Some (OAuth.outcome_of r)
     /\ Forall (fun q => OAuth.observe st3 q = Some (OAuth.outcome_of r))
               (p :: ps)).
Proof.
  split.
  { intros st0 es p Hinit Hp. apply OAuthFacts.refresh_in_flight.
    now apply (OAuthFacts.single_flight_run es st0
                 (OAuthFacts.single_flight_initial st0 Hinit)). }
  split; [exact OAuthFacts.refresh_in_flight|].
  split; [intros st p n; apply OAuthFacts.calls_in_flight|].
  intros st n r Hnone Htok.
  destruct (OAuthFacts.refresh_starts st Hnone Htok)
    as (st1 & -> & Hsent & Hp & Hk & _).
  rewrite (OAuthFacts.calls_in_flight n st1 _ Hp).
  destruct (OAuthFacts.await_settles r _ _ _ Hk) as (st3 & -> & Hs3 & Hobs & _).
  cbn [OAuth.final_outcome] in Hobs.
  repeat split; try assumption.
  constructor; [assumption|].
  induction n as [|n IH]; cbn [repeat]; constructor; assumption.
Qed.

Lemma C1_single_flight_refresh_witness :
  OAuth.refreshAccessToken (OAuth.run [OAuth.Call; OAuth.Call] idle_store)
  = (OAuth.run [OAuth.Call; OAuth.Call] idle_store, 0)
  /\
  OAuth.refreshAccessToken in_flight_store = (in_flight_store, 0)
  /\
  OAuth.calls 3 in_flight_store = (in_flight_store, repeat 0 3)
  /\
  (let '(st1, p) := OAuth.refreshAccessToken idle_store in
   let '(st2, ps) := OAuth.calls 3 st1 in
   let '(st3, o) := OAuth.await 2 (OAuth.BgFailure "invalid_grant") p st2 in
   OAuth.sent st1 =
     OAuth.sent idle_store
       ++ [OAuth.RefreshToken (OAuth.endpoint idle_store)
             (OAuth.clientId idle_store) (OAuth.refreshToken idle_store)]
   /\ OAuth.sent st3 = OAuth.sent st1
   /\ o = Some (OAuth.outcome_of (OAuth.BgFailure "invalid_grant"))
   /\ Forall (fun q => OAuth.observe st3 q
                       = Some (OAuth.outcome_of (OAuth.BgFailure "invalid_grant")))
             (p :: ps)).
Proof.
  destruct C1_single_flight_refresh as (H0 & H1 & H2 & H3).
  split; [|split; [|split]].
  - apply H0.
    + split; reflexivity.
    + exists OAuth.KResponse. split; reflexivity.
  - apply H1. reflexivity.
  - apply H2. reflexivity.
  - apply (H3 idle_store 3 (OAuth.BgFailure "invalid_grant")).
    + reflexivity.
    + discriminate.
Defined.

(** C2. Without a refresh in flight and with an empty refresh token, a
    call of [refreshAccessToken] empties both cells, removes both keys
    from [browser.storage.local] and sends no message; its promise is
    rejected with the error "No refresh token available - user logged
    out" once the removal completes, still without any message. *)
Theorem C2_refresh_without_token :
  forall st,
    OAuth.refreshPromise st = None -> OAuth.refreshToken st = ""%string ->
    let '(st1, p) := OAuth.refreshAccessToken st in
    OAuth.accessToken st1 = ""%string /\ OAuth.refreshToken st1 = ""%string
    /\ OAuth.storage st1 !! "access_token"%string = None
    /\ OAuth.storage st1 !! "refresh_token"%string = None
    /\ OAuth.sent st1 = OAuth.sent st
    /\ OAuth.refreshPromise st1 = None
    /\ forall r,
         let '(st2, o) := OAuth.await 2 r p st1 in
         o = Some (OAuth.Rejected OAuth.NO_REFRESH_TOKEN)
         /\ OAuth.observe st2 p = Some (OAuth.Rejected OAuth.NO_REFRESH_TOKEN)
         /\ OAuth.sent st2 = OAuth.sent st.
Proof.
  intros st Hnone Htok.
  destruct (OAuthFacts.refresh_logged_out st Hnone Htok)
    as (st1 & -> & Ha & Hr & Hs & Hsent & Hp & Hk).
  repeat split; try assumption.
  - rewrite Hs. rewrite lookup_delete_ne by discriminate.
    apply lookup_delete_eq.
  - rewrite Hs. apply lookup_delete_eq.
  - intros r. destruct (OAuthFacts.await_settles r _ _ _ Hk)
      as (st2 & -> & Hs2 & Hobs & _).
    cbn [OAuth.final_outcome] in Hobs.
    repeat split; try assumption. congruence.
Qed.

Lemma C2_refresh_without_token_witness :
  let '(st1, p) := OAuth.refreshAccessToken logged_out_store in
  OAuth.accessToken st1 = ""%string /\ OAuth.refreshToken st1 = ""%string
  /\ OAuth.storage st1 !! "access_token"%string = None
  /\ OAuth.storage st1 !! "refresh_token"%string = None
  /\ OAuth.sent st1 = OAuth.sent logged_out_store
  /\ OAuth.refreshPromise st1 = None
  /\ forall r,
       let '(st2, o) := OAuth.await 2 r p st1 in
       o = Some (OAuth.Rejected OAuth.NO_REFRESH_TOKEN)
       /\ OAuth.observe st2 p = Some (OAuth.Rejected OAuth.NO_REFRESH_TOKEN)
       /\ OAuth.sent st2 = OAuth.sent logged_out_store.
Proof.
  apply (C2_refresh_without_token logged_out_store); reflexivity.
Defined.


(** C3. A request that has not been retried always settles, and is
    sent at most twice with at most one refresh.  When the server answers
    401, the interceptor calls [refreshAccessToken] once.  If the refresh
    is fulfilled, the request is sent a second time, marked, and its
    [Authorization] header is ["Bearer "] followed by the access token
    that the background returned to the refresh, which is also the token
    in [accessToken]; the outcome of that second request is the outcome
    of the call, so a 401 on the retry is a rejection with that 401 and
    no further refresh.  If the refresh is rejected, nothing is sent
    again and the call is rejected with the error of the refresh.  An
    answer other than 401 is passed to the caller without a refresh. *)
Theorem C3_retry_once_on_401 :
  forall server bg fuel cfg w,
    2 <= fuel -> Api._retry cfg = false -> OAuth.wf (Api.auth w) ->
    let n0 := length (Api.requests w) in
    let '(a1, p) := OAuth.refreshAccessToken (Api.auth w) in
    let '(a2, o) := OAuth.await 2 bg p a1 in
    let retry :=
      Api.Config (Api.url cfg) (Api.bearer (OAuth.accessToken a2)) true in
    let '(w', res) := Api.axios server bg fuel cfg w in
    res <> Api.Unsettled
    /\ length (Api.requests w') <= n0 + 2
    /\ Api.refreshes w' <= Api.refreshes w + 1
    /\ (server n0 cfg = Api.Status 401 ->
        Api.refreshes w' = Api.refreshes w + 1 /\ Api.auth w' = a2 /\
        match o with
        | Some OAuth.Fulfilled =>
            Api.requests w' = Api.requests w ++ [cfg; retry]
            /\ res = Api.plain_result (server (S n0) retry) retry
            /\ (server (S n0) retry = Api.Status 401 ->
                res = Api.RejectedWith (Api.AxiosError (Some 401) retry))
            /\ exists data,
                 (bg = OAuth.BgSuccess data
                  \/ exists q,
                       OAuth.refreshPromise (Api.auth w) = Some q
                       /\ OAuth.promises (Api.auth w) !! q
                          = Some (OAuth.Pending (OAuth.KStored data)))
                 /\ OAuth.accessToken (Api.auth w') = OAuth.access_token data
                 /\ Api.requests w'
                    = Api.requests w
                        ++ [cfg;
                            Api.Config (Api.url cfg)
                              ("Bearer " ++ OAuth.access_token data)%string
                              true]
        | Some (OAuth.Rejected refreshError) =>
            Api.requests w' = Api.requests w ++ [cfg]
            /\ res = Api.RejectedWith (Api.RefreshError refreshError)
        | None => False
        end)
    /\ (server n0 cfg <> Api.Status 401 ->
        Api.refreshes w' = Api.refreshes w /\ Api.auth w' = Api.auth w
        /\ Api.requests w' = Api.requests w ++ [cfg]
        /\ res = Api.plain_result (server n0 cfg) cfg).
Proof.
  intros server bg fuel cfg w Hfuel Hretry Hwf n0.
  destruct (ApiFacts.refresh_settles bg _ Hwf) as (o' & Ho).
  pose proof (ApiFacts.refresh_fulfilled bg _ Hwf) as Hdata.
  destruct fuel as [|[|fuel]]; [lia | lia |].
  rewrite ApiFacts.axios_unmarked by assumption. cbv zeta. fold n0.
  destruct (OAuth.refreshAccessToken (Api.auth w)) as [a1 p].
  cbn [fst snd] in Ho, Hdata.
  destruct (OAuth.await 2 bg p a1) as [a2 o]. cbn [fst snd] in Ho, Hdata.
  subst o.
  assert (Hlen : length (Api.requests w ++ [cfg]) = S n0)
    by (rewrite length_app; cbn [length]; lia).
  destruct (server n0 cfg) as [code|] eqn:Hrep.
  - destruct (Api.validateStatus code) eqn:Hv.
    + cbn [Api.requests Api.refreshes Api.auth]. rewrite Hlen.
      split; [discriminate|]. split; [lia|]. split; [lia|]. split.
      * intros [= ->]. discriminate Hv.
      * intros _. unfold Api.plain_result. rewrite Hv. auto.
    + destruct (Nat.eqb code 401) eqn:H401.
      * apply Nat.eqb_eq in H401. subst code.
        destruct o' as [|refreshError];
          cbn [Api.requests Api.refreshes Api.auth];
          rewrite ?Hlen, ?length_app, ?Hlen; cbn [length].
        -- set (retry := Api.Config (Api.url cfg)
                           (Api.bearer (OAuth.accessToken a2)) true).
           split.
           { unfold Api.plain_result.
             destruct (server (S n0) retry) as [c|];
               [destruct (Api.validateStatus c)|]; discriminate. }
           split; [lia|]. split; [lia|]. split; [|congruence].
           intros _. split; [lia|]. split; [reflexivity|].
           split; [now rewrite <- app_assoc|]. split; [reflexivity|].
           split; [intros ->; reflexivity|].
           destruct (Hdata eq_refl) as (data & Hsrc & Hacc).
           exists data. split; [exact Hsrc|]. split; [exact Hacc|].
           rewrite <- app_assoc. cbn [app]. unfold retry, Api.bearer.
           now rewrite Hacc.
        -- split; [discriminate|]. split; [lia|]. split; [lia|].
           split; [|congruence].
           intros _. split; [lia|]. auto.
      * apply Nat.eqb_neq in H401.
        cbn [Api.requests Api.refreshes Api.auth]. rewrite Hlen.
        split; [discriminate|]. split; [lia|]. split; [lia|]. split.
        -- intros [= ->]. congruence.
        -- intros _. unfold Api.plain_result. rewrite Hv. auto.
  - cbn [Api.requests Api.refreshes Api.auth]. rewrite Hlen.
    split; [discriminate|]. split; [lia|]. split; [lia|]. split.
    + discriminate.
    + intros _. auto.
Qed.

Lemma C3_retry_once_on_401_witness :
  let bg := OAuth.BgSuccess (OAuth.Tokens "new-access" "new-refresh") in
  let '(w', res) := Api.axios example_server bg 2 example_request example_world in
  res <> Api.Unsettled
  /\ res = Api.Resolved 200
  /\ Api.refreshes w' = 1
  /\ OAuth.accessToken (Api.auth w') = "new-access"%string
  /\ Api.requests w'
     = [Api.Config "/api/v1/users/me/time-entries/active" "Bearer old-access"
          false;
        Api.Config "/api/v1/users/me/time-entries/active" "Bearer new-access"
          true].
Proof.
  generalize (C3_retry_once_on_401 example_server
                (OAuth.BgSuccess (OAuth.Tokens "new-access" "new-refresh"))
                2 example_request example_world (le_n 2) eq_refl I).
  cbv zeta.
  destruct (OAuth.refreshAccessToken (Api.auth example_world)) as [a1 p] eqn:E1.
  destruct (OAuth.await 2 _ p a1) as [a2 o] eqn:E2.
  destruct (Api.axios _ _ 2 example_request example_world) as [w' res] eqn:E3.
  intros (H & _). split; [exact H|].
  vm_compute in E3. injection E3 as <- <-.
  repeat split.
Defined.

Module BackgroundFacts.
Import Js Location Background.

Lemma str_eqb_eq s t : str_eqb s t = true <-> s = t.
Proof.
  revert t. induction s as [|a s IH]; intros [|b t]; simpl;
    try (split; [discriminate | intros [=]]); [tauto|].
  rewrite andb_true_iff, IH. unfold chr_eqb. rewrite Ascii.eqb_eq.
  split; [intros [-> ->]; reflexivity | intros [= -> ->]; auto].
Qed.

Lemma differs_iff o s : differs o s = true <-> o <> Some s.
Proof.
  destruct o as [t|]; simpl.
  - rewrite negb_true_iff, <- not_true_iff_false, str_eqb_eq.
    split; [intros H [= ->]; now apply H | intros H ->; now apply H].
  - split; [discriminate | reflexivity].
Qed.

Lemma present_false o : present o = false <-> o = None \/ o = Some [].
Proof.
  destruct o as [[|a t]|]; simpl.
  - split; auto.
  - split; [discriminate | intros [H|H]; discriminate].
  - split; auto.
Qed.

(** The parameters are read decoded: an escaped character of a name or
    a value is that character, and [+] is a space. *)
Lemma searchParams_decoded :
  searchParams
    (of_url (lit "https://ext.chromiumapp.org/?c%6Fde=a%2Fb+c&state=expected%2Dstate&x=%zz"))
  = [(lit "code", lit "a/b c"); (lit "state", lit "expected-state");
     (lit "x", lit "%zz")].
Proof. reflexivity. Qed.

(** A callback whose state is written with an escape is accepted, and
    the code is sent decoded. *)
Lemma onAuthFlow_decoded :
  onAuthFlow (lit "https://app.solidtime.io") (lit "client")
    (lit "https://ext.chromiumapp.org/") example_newURL
    (fun _ => FetchOk (OAuth.Tokens "a" "r")) None
    (Some (lit "https://ext.chromiumapp.org/?code=a%2Fb&state=expected%2Dstate"))
    (State (lit "expected-state") (lit "verifier") (lit "challenge") ∅ [])
  = (State (lit "expected-state") (lit "verifier") (lit "challenge")
       (<["refresh_token" := "r"%string]> (<["access_token" := "a"%string]> ∅))
       [TokenRequest (lit "authorization_code") (lit "client")
          (lit "https://ext.chromiumapp.org/") (lit "verifier") (lit "a/b")],
     Success (OAuth.Tokens "a" "r")).
Proof. reflexivity. Qed.

(** A response that is not a URL is answered with the message of the
    [TypeError]. *)
Lemma onAuthFlow_not_a_url st :
  onAuthFlow (lit "https://app.solidtime.io") (lit "client")
    (lit "https://ext.chromiumapp.org/") example_newURL
    (fun _ => FetchOk (OAuth.Tokens "a" "r")) None
    (Some (lit "not a url")) st
  = (st, Failure "Invalid URL").
Proof. reflexivity. Qed.

End BackgroundFacts.

(** C4. When the [state] parameter of the OAuth callback URL, as the
    browser's URL parser reads it, is not the stored [oauthState], or its
    [code] parameter is missing or empty, the flow answers with a
    failure, sends no request to the token endpoint and leaves
    [browser.storage.local], and the whole state of the background, as it
    was.  This holds for every callback URL and every parser: a string
    that is not a URL has no parameters, [new URL] throws and the flow
    fails in the same way.  When the URL parses, and has no [error]
    parameter, the failure is "Invalid state or missing code". *)
Theorem C4_callback_mismatch_persists_nothing :
  forall endpoint clientId redirectUrl newURL fetch lastError responseUrl st,
    (forall params,
       newURL (default [] responseUrl) = Background.Parsed params ->
       Background.get (Js.lit "state") params <> Some (Background.oauthState st)
       \/ Background.get (Js.lit "code") params = None
       \/ Background.get (Js.lit "code") params = Some []) ->
    let '(st', resp) :=
      Background.onAuthFlow endpoint clientId redirectUrl newURL fetch
                            lastError responseUrl st in
    (exists error, resp = Background.Failure error)
    /\ Background.storage st' = Background.storage st
    /\ Background.tokenRequests st' = Background.tokenRequests st
    /\ st' = st
    /\ (forall params,
          lastError = None -> Background.present responseUrl = true ->
          newURL (default [] responseUrl) = Background.Parsed params ->
          Background.present (Background.get (Js.lit "error") params) = false ->
          resp = Background.Failure "Invalid state or missing code")
    /\ (forall message,
          lastError = None -> Background.present responseUrl = true ->
          newURL (default [] responseUrl) = Background.InvalidUrl message ->
          resp = Background.Failure message).
Proof.
  intros endpoint clientId redirectUrl newURL fetch lastError responseUrl st H.
  unfold Background.onAuthFlow.
  destruct lastError as [message|];
    [repeat split; eauto; intros; discriminate|].
  destruct (Background.present responseUrl);
    [|repeat split; eauto; intros; discriminate]. cbn [negb].
  destruct (newURL (default [] responseUrl)) as [params|message];
    [|repeat split; eauto; [intros; discriminate | congruence]].
  specialize (H params eq_refl).
  assert (Hbad : Background.differs (Background.get (Js.lit "state") params)
                   (Background.oauthState st)
                 || negb (Background.present
                            (Background.get (Js.lit "code") params)) = true).
  { apply orb_true_iff. destruct H as [H | H].
    - left. now apply BackgroundFacts.differs_iff.
    - right. apply negb_true_iff. now apply BackgroundFacts.present_false. }
  destruct (Background.present (Background.get (Js.lit "error") params))
    eqn:Eerr.
  - repeat split; eauto; [|intros; discriminate].
    intros ps _ _ [= <-]. congruence.
  - rewrite Hbad. repeat split; eauto; intros; discriminate.
Qed.

Lemma C4_callback_mismatch_persists_nothing_witness :
  let responseUrl :=
    Some (Js.lit "https://ext.chromiumapp.org/?st%61te=forged&code=abc&state=expected-state") in
  let '(st', resp) :=
    Background.onAuthFlow (Js.lit "https://app.solidtime.io") (Js.lit "client")
      (Js.lit "https://ext.chromiumapp.org/") example_newURL
      (fun _ => Background.FetchOk (OAuth.Tokens "a" "r")) None
      responseUrl example_background in
  example_newURL (default [] responseUrl)
  = Background.Parsed [(Js.lit "state", Js.lit "forged");
                       (Js.lit "code", Js.lit "abc");
                       (Js.lit "state", Js.lit "expected-state")]
  /\ resp = Background.Failure "Invalid state or missing code"
  /\ Background.storage st' = Background.storage example_background
  /\ Background.tokenRequests st' = Background.tokenRequests example_background
  /\ st' = example_background.
Proof.
  pose proof (C4_callback_mismatch_persists_nothing
           (Js.lit "https://app.solidtime.io") (Js.lit "client")
           (Js.lit "https://ext.chromiumapp.org/") example_newURL
           (fun _ => Background.FetchOk (OAuth.Tokens "a" "r")) None
           (Some (Js.lit "https://ext.chromiumapp.org/?st%61te=forged&code=abc&state=expected-state"))
           example_background) as H.
  cbv zeta.
  destruct (Background.onAuthFlow _ _ _ _ _ _ _ _) as [st' resp].
  destruct H as (_ & Hs & Ht & Hst & Hmsg & _).
  - intros params Hp. vm_compute in Hp. injection Hp as <-.
    left. vm_compute. discriminate.
  - split; [reflexivity|]. split; [|auto].
    apply (Hmsg _ eq_refl eq_refl eq_refl). reflexivity.
Defined.

(** C5. The code challenge that the background computes from a verifier
    is the URL-safe base64 encoding without padding of the SHA-256 digest
    of the verifier.  It depends on the verifier alone, so two flows with
    the same verifier have the same challenge, and for the verifier of
    RFC 7636, appendix B, it is the challenge given there. *)
Theorem C5_pkce_challenge :
  (forall verifier,
     Pkce.challenge verifier
     = Base64.base64url_nopad (Sha256.digest (Pkce.TextEncoder_encode verifier)))
  /\
  (forall randomState randomState' randomVerifier st st',
     Background.oauthChallenge (Background.initPkce randomState randomVerifier st)
     = Background.oauthChallenge (Background.initPkce randomState' randomVerifier st')
     /\ Background.oauthChallenge (Background.initPkce randomState randomVerifier st)
        = Pkce.challenge randomVerifier)
  /\
  Pkce.challenge (Js.lit "dBjftJeZ4CVP-mB92K27uhbUJU1p1r_wW1gFWFOEjXk")
  = Js.lit "E9Melhoa2OwvFrEMTJguCHaoeK1t8URWbuGJSstw-cM".
Proof.
  split; [|split].
  - intros verifier. unfold Pkce.challenge, Pkce.sha256.
    apply PkceFacts.base64urlencode_spec, PkceFacts.digest_bytes.
  - intros. split; reflexivity.
  - vm_compute. reflexivity.
Qed.

(** ** The claim on the issue pages *)

(** C7. On each platform the issue-page check is a function of the path
    and of the query of the current URL alone.  It holds exactly for the
    shapes of issue pages: for Linear, paths that start with
    /{ws}/issue/{key}; for Jira, paths that start with
    /jira/software/projects/{proj}/boards/{n} together with a query that
    contains selectedIssue=, and paths that start with /browse/{KEY}, KEY
    of the form [A-Z]+-\d+; for Plane, paths that start with
    /{ws}/projects/{id}/issues/ or with /{ws}/browse/{KEY}.  A Jira board
    URL whose query has a selectedIssue parameter passes; the home page
    and the list and backlog views of the platforms do not. *)
Theorem C7_isIssuePage_shapes :
  (forall l1 l2,
     Location.pathname l1 = Location.pathname l2 ->
     Location.search l1 = Location.search l2 ->
     Linear.isLinearIssuePage l1 = Linear.isLinearIssuePage l2
     /\ Jira.isJiraIssuePage l1 = Jira.isJiraIssuePage l2
     /\ Plane.isPlaneIssuePage l1 = Plane.isPlaneIssuePage l2)
  /\
  (forall l, Linear.isLinearIssuePage l = true
             <-> Linear.issue_path (Location.pathname l))
  /\
  (forall l, Jira.isJiraIssuePage l = true
             <-> (Jira.board_path (Location.pathname l)
                  /\ Js.includes (Js.lit "selectedIssue=") (Location.search l) = true)
                 \/ Jira.browse_path (Location.pathname l))
  /\
  (forall l, Plane.isPlaneIssuePage l = true
             <-> Plane.issues_path (Location.pathname l)
                 \/ Plane.browse_path (Location.pathname l))
  /\
  (forall l params issue,
     Jira.board_path (Location.pathname l) ->
     Location.search l = Jira.query_string params ->
     In (Js.lit "selectedIssue", issue) params ->
     Jira.isJiraIssuePage l = true)
  /\
  (Linear.isLinearIssuePage (Location.of_url (Js.lit "https://linear.app/")) = false
   /\ Linear.isLinearIssuePage
        (Location.of_url (Js.lit "https://linear.app/acme/team/ST/backlog")) = false
   /\ Jira.isJiraIssuePage
        (Location.of_url (Js.lit "https://acme.atlassian.net/jira/your-work")) = false
   /\ Jira.isJiraIssuePage
        (Location.of_url
           (Js.lit "https://acme.atlassian.net/jira/software/projects/PROJ/boards/1/backlog"))
      = false
   /\ Plane.isPlaneIssuePage (Location.of_url (Js.lit "https://app.plane.so/acme/")) = false
   /\ Plane.isPlaneIssuePage
        (Location.of_url (Js.lit "https://app.plane.so/acme/projects/")) = false).
Proof.
  split.
  { intros l1 l2 Hp Hs.
    unfold Linear.isLinearIssuePage, Jira.isJiraIssuePage, Plane.isPlaneIssuePage.
    rewrite Hp, Hs. auto. }
  split; [exact LinearFacts.isLinearIssuePage_iff|].
  split; [exact JiraFacts.isJiraIssuePage_iff|].
  split; [exact PlaneFacts.isPlaneIssuePage_iff|].
  split.
  { intros l params issue Hboard Hq Hin. apply JiraFacts.isJiraIssuePage_iff.
    left. split; [assumption|]. rewrite Hq.
    now apply (JiraFacts.selectedIssue_included params issue). }
  repeat split; vm_compute; reflexivity.
Qed.

Lemma C7_isIssuePage_shapes_witness :
  Jira.isJiraIssuePage
    (Location.of_url
       (Js.lit "https://acme.atlassian.net/jira/software/projects/PROJ/boards/1?selectedIssue=PROJ-42"))
  = true.
Proof.
  destruct C7_isIssuePage_shapes as (_ & _ & _ & _ & H & _).
  apply (H _ [(Js.lit "selectedIssue", Js.lit "PROJ-42")] (Js.lit "PROJ-42")).
  - exists (Js.lit "PROJ"), (Js.lit "1"), [].
    split; [discriminate|]. split; [reflexivity|].
    split; [discriminate|]. split; reflexivity.
  - reflexivity.
  - left. reflexivity.
Defined.

(** ** The claim on the injected section *)

Module ContentFacts.
Import Content.

(** The check of [injectTimeTrackingSection]: with a section in the
    document, a call that is not told to replace it changes nothing in
    the document. *)
Lemma inject_keeps_existing i t :
  getElementById SECTION_ID (document t) = true ->
  document (injectTimeTrackingSection i false t) = document t.
Proof.
  intros H. unfold injectTimeTrackingSection. now rewrite H.
Qed.

(** And [handlePageLoad] starts nothing on an issue page that has the
    section. *)
Lemma handlePageLoad_keeps_existing t :
  Linear.isLinearIssuePage (location t) = true ->
  getElementById SECTION_ID (document t) = true ->
  handlePageLoad t = t.
Proof.
  intros Hpage H. unfold handlePageLoad. now rewrite Hpage, H.
Qed.

End ContentFacts.

(** C8. The claim is that at most one element with the identifier of
    the section is in the document, whatever the events.  It fails on the
    code: the tab holds two such elements after [handlePageLoad] ran twice
    before either call of [getCurrentTimeEntry] was answered.  Each call
    of [injectTimeTrackingSection] looked for the section before it
    suspended, found none, and inserted one when it resumed. *)
Theorem C8_two_sections_after_overlapping_loads :
  let t :=
    Content.run
      [Content.PageLoad; Content.Continue 0;
       Content.PageLoad; Content.Continue 1;
       Content.Answer 0; Content.Answer 1] issue_tab in
  Content.sections issue_tab = 0
  /\ Content.tasks
       (Content.run [Content.PageLoad; Content.Continue 0;
                     Content.PageLoad; Content.Continue 1] issue_tab)
     = [Content.CurrentTimeEntry; Content.CurrentTimeEntry]
  /\ Content.document t
     = ["app"%string; "sidebar"%string; Content.SECTION_ID; Content.SECTION_ID]
  /\ Content.sections t = 2.
Proof. vm_compute. repeat split; reflexivity. Qed.

(** ** The claim on the popup timer *)

Module TimerFacts.
Import Timer.

Lemma format_mono t1 t2 : (t1 <= t2)%N -> stamp_le (format t1) (format t2).
Proof.
  intros H. unfold format, stamp_le. apply N.Div0.div_le_mono. assumption.
Qed.

(** [Timer.stopTimer] is [stopTimer()] followed by the microtasks of its
    task. *)
Lemma stopTimer_alone randomUUID endTime now st :
  let s := TimerTasks.microtasks randomUUID
             (TimerTasks.stopTimer endTime now (TimerTasks.idle st)) in
  let st' := stopTimer endTime now st in
  TimerTasks.currentTimeEntry s = currentTimeEntry st'
  /\ TimerTasks.currentMembershipId s = currentMembershipId st'
  /\ TimerTasks.memberships s = memberships st'
  /\ TimerTasks.currentTimeEntryQuery s = currentTimeEntryQuery st'
  /\ TimerTasks.onMutates s = [TimerTasks.Returned].
Proof. repeat split. Qed.

(** [Timer.startTimer] is [startTimer()] followed by the microtasks of
    its task. *)
Lemma startTimer_alone randomUUID now st :
  let s := TimerTasks.microtasks randomUUID
             (TimerTasks.startTimer now (TimerTasks.idle st)) in
  let st' := startTimer now (randomUUID 0) st in
  TimerTasks.currentTimeEntry s = currentTimeEntry st'
  /\ TimerTasks.currentMembershipId s = currentMembershipId st'
  /\ TimerTasks.memberships s = memberships st'
  /\ TimerTasks.currentTimeEntryQuery s = currentTimeEntryQuery st'
  /\ TimerTasks.onMutates s = [TimerTasks.Returned].
Proof. repeat split. Qed.

Lemma after_stop_stopTimer endTime now st :
  TimerTasks.after_stop (TimerTasks.stopTimer endTime now (TimerTasks.idle st)).
Proof.
  split; [|split].
  - eexists. split; [reflexivity | exact I].
  - discriminate.
  - reflexivity.
Qed.

Lemma after_stop_step randomUUID e s :
  TimerTasks.after_stop s ->
  TimerTasks.after_stop (TimerTasks.step randomUUID e s).
Proof.
  destruct s as [cur mid ms q ch tasks].
  intros ((t & Ht & Hstop) & Hq & Hcur). cbn in Ht, Hq, Hcur. subst tasks cur.
  destruct e as [i|].
  - unfold TimerTasks.step, TimerTasks.resume. cbn.
    destruct i as [|i]; cbn.
    + destruct t as [e|e|v m|]; cbn; try contradiction.
      * split; [eexists; split; [reflexivity | exact I]|]. now split.
      * split; [eexists; split; [reflexivity | exact I]|]. now split.
      * split; [eexists; split; [reflexivity | exact I]|]. now split.
    + split; [eexists; split; [reflexivity | exact Hstop]|]. now split.
  - unfold TimerTasks.step, TimerTasks.watchCurrentTimeEntryResponse. cbn.
    destruct ch.
    + rewrite (Hq eq_refl).
      split; [eexists; split; [reflexivity | exact Hstop]|].
      split; [discriminate | reflexivity].
    + split; [eexists; split; [reflexivity | exact Hstop]|]. now split.
Qed.

Lemma after_stop_run randomUUID es : forall s,
  TimerTasks.after_stop s -> TimerTasks.after_stop (TimerTasks.run randomUUID es s).
Proof.
  induction es as [|e es IH]; intros s H; [exact H|].
  apply IH. now apply after_stop_step.
Qed.

Lemma after_start_startTimer now temporary s :
  TimerTasks.after_stop s ->
  TimerTasks.after_start (format now) temporary (TimerTasks.startTimer now s).
Proof.
  destruct s as [cur mid ms q ch tasks].
  intros ((t & Ht & Hstop) & Hq & Hcur). cbn in Ht, Hq, Hcur. subst tasks cur.
  split; [|split; [|split]].
  - eexists _, _. split; [reflexivity|]. split; [exact Hstop | reflexivity].
  - cbn. intros Hch. now rewrite (Hq Hch).
  - reflexivity.
  - now left.
Qed.

Lemma after_start_step randomUUID startTime e s :
  TimerTasks.after_start startTime (randomUUID 1) s ->
  TimerTasks.after_start startTime (randomUUID 1)
    (TimerTasks.step randomUUID e s).
Proof.
  destruct s as [cur mid ms q ch tasks].
  intros ((t0 & t1 & Ht & H0 & H1) & Hq & Hstart & Hid).
  cbn in Ht, Hq, Hstart, Hid. subst tasks.
  destruct e as [i|].
  - unfold TimerTasks.step, TimerTasks.resume. cbn.
    destruct i as [|[|i]]; cbn.
    + destruct t0 as [e|e|v m|]; cbn; try contradiction.
      * split; [eexists _, _; split; [reflexivity | now split]|]. now split.
      * split; [eexists _, _; split; [reflexivity | now split]|]. now split.
      * split; [eexists _, _; split; [reflexivity | now split]|]. now split.
    + destruct t1 as [e|e|v m|]; cbn; try contradiction.
      * split; [eexists _, _; split; [reflexivity | now split]|].
        cbn in H1. now split.
      * split; [eexists _, _; split; [reflexivity | now split]|]. now split.
    + split; [eexists _, _; split; [reflexivity | now split]|]. now split.
  - unfold TimerTasks.step, TimerTasks.watchCurrentTimeEntryResponse. cbn.
    destruct ch.
    + specialize (Hq eq_refl).
      destruct q as [[e|e m]|]; cbn in Hq; try contradiction.
      * split; [eexists _, _; split; [reflexivity | now split]|].
        split; [discriminate|]. now split.
      * destruct Hq as [Hs Hi].
        split; [eexists _, _; split; [reflexivity | now split]|].
        split; [discriminate|]. cbn. split; [exact Hs | now right].
    + split; [eexists _, _; split; [reflexivity | now split]|]. now split.
Qed.

Lemma after_start_run randomUUID startTime es : forall s,
  TimerTasks.after_start startTime (randomUUID 1) s ->
  TimerTasks.after_start startTime (randomUUID 1)
    (TimerTasks.run randomUUID es s).
Proof.
  induction es as [|e es IH]; intros s H; [exact H|].
  apply IH. now apply after_start_step.
Qed.

(** The watcher changes nothing when it runs again. *)
Lemma watch_twice s :
  TimerTasks.watchCurrentTimeEntryResponse
    (TimerTasks.watchCurrentTimeEntryResponse s)
  = TimerTasks.watchCurrentTimeEntryResponse s.
Proof.
  destruct s as [cur mid ms q ch tasks].
  destruct ch; [destruct q as [[e|e m]|]|]; reflexivity.
Qed.

Lemma run_watches randomUUID n s :
  TimerTasks.run randomUUID (repeat TimerTasks.Watch n) s
  = match n with
    | O => s
    | S _ => TimerTasks.watchCurrentTimeEntryResponse s
    end.
Proof.
  revert s. induction n as [|n IH]; intros s; [reflexivity|].
  change (TimerTasks.run randomUUID (repeat TimerTasks.Watch (S n)) s)
    with (TimerTasks.run randomUUID (repeat TimerTasks.Watch n)
            (TimerTasks.watchCurrentTimeEntryResponse s)).
  rewrite IH. destruct n; [reflexivity | apply watch_twice].
Qed.

Lemma run_watches_then randomUUID n e es s :
  TimerTasks.run randomUUID (repeat TimerTasks.Watch n ++ e :: es) s
  = TimerTasks.run randomUUID es
      (TimerTasks.step randomUUID e
         match n with
         | O => s
         | S _ => TimerTasks.watchCurrentTimeEntryResponse s
         end).
Proof.
  unfold TimerTasks.run at 1. rewrite fold_left_app.
  fold (TimerTasks.run randomUUID (repeat TimerTasks.Watch n) s).
  now rewrite run_watches.
Qed.

End TimerFacts.

(** C9. [stopTimer()] and then [startTimer()], for a current entry with a
    non-empty id.  The stop mutation gets the stopped entry, with its id
    and the time of the stop as its end.  Whatever the order in which
    the [onMutate] of the two mutations go on and whenever the watcher
    of the query runs, before or after [startTimer()], the stored
    [currentTimeEntry] starts at the time of the start, which is not
    before the end of the stopped entry when the clock did not go back;
    its id is the empty string until the watcher copies the optimistic
    entry, and then the identifier that [crypto.randomUUID()] returned,
    so it differs from the id of the stopped entry whenever the
    generator did not return that id.  When [startTimer()] follows in
    the same task, the microtask queue lets the [onMutate] of the create
    mutation, with one [await], write its optimistic entry before the
    [onMutate] of the stop mutation, with two, writes the empty entry:
    the data of the query end as the empty entry, whenever the watcher
    runs, and the current entry keeps the empty id unless the watcher
    ran between the two writes.  When the [onMutate] of the stop mutation has
    returned before [startTimer()] is called, the data end as the
    optimistic entry and the watcher copies it: the current entry of
    the cache and the stored one then have the temporary id and the
    start of the start, under the same two provisos. *)
Theorem C9_stop_then_start :
  forall st stopTime startTime randomUUID es1 es2,
    Timer.id (Timer.currentTimeEntry st) <> ""%string ->
    let stopped :=
      Timer.with_end (Timer.currentTimeEntry st)
                     (Timer.At (stopTime / 1000)) in
    let s1 := TimerTasks.stopTimer None stopTime (TimerTasks.idle st) in
    let s2 := TimerTasks.startTimer startTime (TimerTasks.run randomUUID es1 s1) in
    let s3 := TimerTasks.run randomUUID es2 s2 in
    TimerTasks.onMutates s1 = [TimerTasks.StopAt62 stopped]
    /\ Timer.id stopped = Timer.id (Timer.currentTimeEntry st)
    /\ Timer.end_ stopped = Some (Timer.At (stopTime / 1000))
    /\ Timer.start (TimerTasks.currentTimeEntry s3)
       = Timer.At (startTime / 1000)
    /\ ((stopTime <= startTime)%N ->
        Timer.stamp_le (Timer.At (stopTime / 1000))
                       (Timer.start (TimerTasks.currentTimeEntry s3)))
    /\ (Timer.id (TimerTasks.currentTimeEntry s3) = ""%string
        \/ Timer.id (TimerTasks.currentTimeEntry s3) = randomUUID 1)
    /\ (randomUUID 1 <> Timer.id stopped ->
        Timer.id (TimerTasks.currentTimeEntry s3) <> Timer.id stopped)
    /\ (let s :=
          TimerTasks.watchCurrentTimeEntryResponse
            (TimerTasks.microtasks randomUUID
               (TimerTasks.startTimer startTime s1)) in
        TimerTasks.currentTimeEntryQuery s
        = Some (Timer.Entry Timer.emptyTimeEntry)
        /\ Timer.id (TimerTasks.currentTimeEntry s) = ""%string
        /\ Timer.start (TimerTasks.currentTimeEntry s)
           = Timer.At (startTime / 1000)
        /\ TimerTasks.onMutates s
           = [TimerTasks.Returned; TimerTasks.Returned])
    /\ (forall n0 n1 n2 n3,
          let s :=
            TimerTasks.run randomUUID
              (repeat TimerTasks.Watch n0 ++ TimerTasks.Resume 0
                 :: repeat TimerTasks.Watch n1 ++ TimerTasks.Resume 1
                 :: repeat TimerTasks.Watch n2 ++ TimerTasks.Resume 0
                 :: repeat TimerTasks.Watch n3)
              (TimerTasks.startTimer startTime s1) in
          TimerTasks.currentTimeEntryQuery s
          = Some (Timer.Entry Timer.emptyTimeEntry)
          /\ TimerTasks.onMutates s
             = [TimerTasks.Returned; TimerTasks.Returned]
          /\ Timer.id (TimerTasks.currentTimeEntry s)
             = match n2 with O => ""%string | S _ => randomUUID 1 end)
    /\ (let s :=
          TimerTasks.watchCurrentTimeEntryResponse
            (TimerTasks.microtasks randomUUID
               (TimerTasks.startTimer startTime
                  (TimerTasks.microtasks randomUUID s1))) in
        exists optimistic member_id,
          TimerTasks.currentTimeEntryQuery s
          = Some (Timer.Data optimistic member_id)
          /\ TimerTasks.currentTimeEntry s = optimistic
          /\ Timer.id optimistic = randomUUID 1
          /\ Timer.start optimistic = Timer.At (startTime / 1000)
          /\ (randomUUID 1 <> Timer.id stopped ->
              Timer.id optimistic <> Timer.id stopped)
          /\ ((stopTime <= startTime)%N ->
              Timer.stamp_le (Timer.At (stopTime / 1000))
                             (Timer.start optimistic))).
Proof.
  intros st stopTime startTime randomUUID es1 es2 Hid stopped s1 s2 s3.
  assert (Hinv : TimerTasks.after_start (Timer.format startTime) (randomUUID 1) s3).
  { apply TimerFacts.after_start_run, TimerFacts.after_start_startTimer,
      TimerFacts.after_stop_run, TimerFacts.after_stop_stopTimer. }
  destruct Hinv as (_ & _ & Hstart & Hids).
  split; [reflexivity|]. split; [reflexivity|]. split; [reflexivity|].
  split; [exact Hstart|].
  split.
  { intros Hclock. rewrite Hstart.
    now apply (TimerFacts.format_mono stopTime startTime). }
  split; [exact Hids|].
  split.
  { intros Hfresh. destruct Hids as [-> | ->]; [|exact Hfresh].
    intros E. apply Hid. symmetry. exact E. }
  split.
  { repeat split. }
  split.
  { intros n0 n1 n2 n3. cbv zeta.
    rewrite !TimerFacts.run_watches_then, TimerFacts.run_watches.
    destruct n0, n1, n2, n3; repeat split. }
  eexists _, _. split; [reflexivity|]. split; [reflexivity|].
  split; [reflexivity|]. split; [reflexivity|].
  split; [intros Hfresh; exact Hfresh|].
  intros Hclock. now apply (TimerFacts.format_mono stopTime startTime).
Qed.

Lemma C9_stop_then_start_witness :
  let randomUUID := fun _ : nat => "temporary-id"%string in
  let s1 := TimerTasks.stopTimer None 1700000600000 (TimerTasks.idle running_popup) in
  let s3 :=
    TimerTasks.run randomUUID [TimerTasks.Resume 1; TimerTasks.Watch]
      (TimerTasks.startTimer 1700000601000
         (TimerTasks.run randomUUID [TimerTasks.Resume 0] s1)) in
  Timer.id (TimerTasks.currentTimeEntry s3) = "temporary-id"%string
  /\ Timer.start (TimerTasks.currentTimeEntry s3) = Timer.At 1700000601
  /\ Timer.stamp_le (Timer.At 1700000600)
                    (Timer.start (TimerTasks.currentTimeEntry s3))
  /\ Timer.id (TimerTasks.currentTimeEntry s3) <> "7d9f0c1e-server-id"%string.
Proof.
  intros randomUUID s1 s3.
  destruct (C9_stop_then_start running_popup 1700000600000 1700000601000
              randomUUID [TimerTasks.Resume 0]
              [TimerTasks.Resume 1; TimerTasks.Watch])
    as (_ & _ & _ & Hstart & Hle & _ & Hne & _).
  - discriminate.
  - split; [reflexivity|]. split; [exact Hstart|].
    split; [apply Hle; discriminate|]. apply Hne. discriminate.
Defined.

(** C9, where the unconditional statement fails.  With [startTimer()]
    in the same task, the temporary id does not reach the current entry
    and the data of the query end as the empty entry, with no start;
    and when the clock is set back between the two calls, the new entry
    starts before the stopped one ends. *)
Lemma C9_stop_then_start_counterexample :
  let randomUUID := fun _ : nat => "temporary-id"%string in
  let s1 := TimerTasks.stopTimer None 1700000600000 (TimerTasks.idle running_popup) in
  (let s :=
     TimerTasks.watchCurrentTimeEntryResponse
       (TimerTasks.microtasks randomUUID
          (TimerTasks.startTimer 1700000601000 s1)) in
   Timer.id (TimerTasks.currentTimeEntry s) = ""%string
   /\ Timer.id (TimerTasks.currentTimeEntry s) <> randomUUID 1
   /\ TimerTasks.currentTimeEntryQuery s
      = Some (Timer.Entry Timer.emptyTimeEntry)
   /\ ~ Timer.stamp_le (Timer.At 1700000600)
                       (Timer.start Timer.emptyTimeEntry))
  /\
  (let s :=
     TimerTasks.watchCurrentTimeEntryResponse
       (TimerTasks.microtasks randomUUID
          (TimerTasks.startTimer 1700000540000
             (TimerTasks.microtasks randomUUID s1))) in
   Timer.id (TimerTasks.currentTimeEntry s) = "temporary-id"%string
   /\ Timer.start (TimerTasks.currentTimeEntry s) = Timer.At 1700000540
   /\ ~ Timer.stamp_le (Timer.At 1700000600)
                       (Timer.start (TimerTasks.currentTimeEntry s))).
Proof.
  cbv zeta. split.
  - split; [reflexivity|]. split; [discriminate|]. split; [reflexivity|].
    intros [].
  - split; [reflexivity|]. split; [reflexivity|]. vm_compute. intros H.
    now apply H.
Qed.

(* ===================================================================== *)
(** * Part III: further theorems                                          *)
(* ===================================================================== *)

(** ** Captures *)

Module CaptureFacts.
Import Js Regex RegexFacts RegexMore.

Lemma leads_exec0 r s y :
  leads r (MS 0 s []) y -> exec r s = Some (RM 0 (ms_pos y) (ms_caps y)).
Proof.
  intros [l H]. unfold exec. destruct s; cbn [search]; now rewrite H.
Qed.

Lemma iterate_caps (once : mstate -> list mstate) :
  (forall x y, In y (once x) -> ms_caps y = ms_caps x) ->
  forall n x y, In y (iterate once n x) -> ms_caps y = ms_caps x.
Proof.
  intros Honce n. induction n as [|n IH]; intros x y Hin; simpl in Hin;
    apply in_flat_map in Hin as (z & Hz & Hy).
  - destruct Hy as [<- | []]. now apply Honce.
  - apply in_app_iff in Hy as [Hy | [<- | []]]; [|now apply Honce].
    destruct (Nat.ltb (ms_pos x) (ms_pos z)); [|destruct Hy].
    rewrite (IH _ _ Hy). now apply Honce.
Qed.

(** A pattern without groups leaves the captures as they are. *)
Lemma m_caps_groupless r : groupless r = true ->
  forall x y, In y (m r x) -> ms_caps y = ms_caps x.
Proof.
  induction r as [| | |p|r1 IH1 r2 IH2|r1 IH1|r1 IH1|i r1 IH1];
    intros Hg x y Hin; simpl in Hin, Hg.
  - destruct Hin as [<- | []]. reflexivity.
  - destruct (Nat.eqb (ms_pos x) 0); [|destruct Hin].
    destruct Hin as [<- | []]. reflexivity.
  - destruct (ms_rest x); [|destruct Hin]. destruct Hin as [<- | []]. reflexivity.
  - destruct (ms_rest x) as [|a s']; [destruct Hin|].
    destruct (p a); [|destruct Hin]. destruct Hin as [<- | []]. reflexivity.
  - apply andb_true_iff in Hg as [Hg1 Hg2].
    apply in_flat_map in Hin as (z & Hz & Hy).
    rewrite (IH2 Hg2 _ _ Hy). now apply IH1.
  - now apply (iterate_caps (m r1) (IH1 Hg) _ _ _ Hin).
  - apply in_app_iff in Hin as [Hin | [<- | []]]; [now apply IH1 | reflexivity].
  - discriminate.
Qed.

Lemma groupless_text t : groupless (text t) = true.
Proof. induction t; simpl; auto. Qed.

(** What a group records. *)
Lemma m_grp_in i r x y :
  In y (m (Grp i r) x) ->
  exists y0, In y0 (m r x) /\ ms_pos y = ms_pos y0 /\ ms_rest y = ms_rest y0 /\
             ms_caps y = (i, firstn (ms_pos y0 - ms_pos x) (ms_rest x)) :: ms_caps y0.
Proof.
  rewrite m_grp. intros Hin. apply in_map_iff in Hin as (y0 & <- & Hy0).
  exists y0. auto.
Qed.

Lemma firstn_prefix {A} (w rest : list A) n :
  n = length w -> firstn n (w ++ rest) = w.
Proof.
  intros ->. rewrite firstn_app, firstn_all, Nat.sub_diag. cbn [firstn].
  apply app_nil_r.
Qed.

(** [s.split(c)[0]] is what precedes the first [c]. *)
Lemma split_hd c w rest :
  forallb (fun a => negb (chr_eqb a c)) w = true ->
  hd [] (Background.split c (w ++ c :: rest)) = w.
Proof.
  induction w as [|a w IH]; intros Hw.
  - cbn. unfold chr_eqb. now rewrite Ascii.eqb_refl.
  - cbn in Hw. apply andb_true_iff in Hw as [Ha Hw].
    apply negb_true_iff in Ha. cbn [app Background.split]. rewrite Ha.
    specialize (IH Hw).
    destruct (Background.split c (w ++ c :: rest)); cbn in *; now subst.
Qed.

Lemma upper_not_dash w :
  forallb upper w = true -> forallb (fun a => negb (chr_eqb a "-")) w = true.
Proof.
  intros H. apply forallb_forall. intros a Ha.
  rewrite forallb_forall in H. specialize (H a Ha).
  apply negb_true_iff. unfold chr_eqb. apply Ascii.eqb_neq. intros ->.
  discriminate.
Qed.

(** The first match of [[A-Z]+-\d+] takes the letters, the dash and all
    the digits that follow. *)
Lemma key_leads letters digits tail pos c :
  letters <> [] -> forallb upper letters = true ->
  digits <> [] -> forallb digit digits = true ->
  match tail with a :: _ => digit a = false | [] => True end ->
  leads (seqs [Plus (Cls upper); chr "-"; Plus (Cls digit)])
    (MS pos (letters ++ "-"%char :: digits ++ tail) c)
    (MS (pos + length letters + 1 + length digits) tail c).
Proof.
  intros Hl Hl' Hd Hd' Ht. cbn [seqs].
  eapply leads_seq; [apply leads_plus; [assumption..|reflexivity]|].
  eapply leads_seq; [apply leads_chr|].
  eapply leads_seq; [apply leads_plus; assumption|].
  replace (S (pos + length letters) + length digits)
    with (pos + length letters + 1 + length digits) by lia.
  apply leads_eps.
Qed.

(** *** Runs of characters *)

Lemma run_split p s : s = run p s ++ after_run p s.
Proof.
  unfold run, after_run. induction s as [|a s IH]; [reflexivity|].
  cbn. destruct (p a); cbn; [now f_equal | reflexivity].
Qed.

Lemma run_all p s : forallb p (run p s) = true.
Proof.
  unfold run. induction s as [|a s IH]; [reflexivity|].
  cbn. destruct (p a) eqn:E; cbn; [now rewrite E | reflexivity].
Qed.

Lemma after_run_stops p s :
  match after_run p s with a :: _ => p a = false | [] => True end.
Proof.
  unfold after_run. induction s as [|a s IH]; [exact I|].
  cbn. destruct (p a) eqn:E; cbn; assumption.
Qed.

Lemma run_nonempty p s : starts_with_a p s = true -> run p s <> [].
Proof.
  destruct s as [|a s]; [discriminate|]. cbn. intros ->. discriminate.
Qed.

(** A run that is followed by a character outside of it. *)
Lemma run_app p w rest :
  forallb p w = true ->
  match rest with a :: _ => p a = false | [] => True end ->
  run p (w ++ rest) = w /\ after_run p (w ++ rest) = rest.
Proof.
  unfold run, after_run. intros Hw Hrest. induction w as [|a w IH].
  - destruct rest as [|a rest]; [now split|]. cbn. now rewrite Hrest.
  - cbn in Hw. apply andb_true_iff in Hw as [Ha Hw]. cbn. rewrite Ha. cbn.
    destruct (IH Hw) as [-> ->]. now split.
Qed.

Lemma leads_run p s pos c :
  starts_with_a p s = true ->
  leads (Plus (Cls p)) (MS pos s c)
    (MS (pos + length (run p s)) (after_run p s) c).
Proof.
  intros Hs. rewrite (run_split p s) at 1.
  apply leads_plus; [now apply run_nonempty | apply run_all | apply after_run_stops].
Qed.

Lemma leads_grp_plus i p w rest pos c :
  w <> [] -> forallb p w = true ->
  match rest with a :: _ => p a = false | [] => True end ->
  leads (Grp i (Plus (Cls p))) (MS pos (w ++ rest) c)
    (MS (pos + length w) rest ((i, w) :: c)).
Proof.
  intros Hne Hall Hrest.
  pose proof (leads_grp i _ _ _ (leads_plus p w rest pos c Hne Hall Hrest)) as H.
  cbn [ms_pos ms_rest ms_caps] in H.
  rewrite firstn_prefix in H by lia. exact H.
Qed.

Lemma leads_grp_run i p s pos c :
  starts_with_a p s = true ->
  leads (Grp i (Plus (Cls p))) (MS pos s c)
    (MS (pos + length (run p s)) (after_run p s) ((i, run p s) :: c)).
Proof.
  intros Hs. rewrite (run_split p s) at 1.
  apply leads_grp_plus;
    [now apply run_nonempty | apply run_all | apply after_run_stops].
Qed.

Lemma leads_grp_key i letters digits tail pos c :
  letters <> [] -> forallb upper letters = true ->
  digits <> [] -> forallb digit digits = true ->
  match tail with a :: _ => digit a = false | [] => True end ->
  leads (Grp i (seqs [Plus (Cls upper); chr "-"; Plus (Cls digit)]))
    (MS pos (letters ++ "-"%char :: digits ++ tail) c)
    (MS (pos + length letters + 1 + length digits) tail
        ((i, letters ++ "-"%char :: digits) :: c)).
Proof.
  intros Hl Hl' Hd Hd' Ht.
  pose proof (leads_grp i _ _ _
                (key_leads letters digits tail pos c Hl Hl' Hd Hd' Ht)) as H.
  cbn [ms_pos ms_rest ms_caps] in H.
  replace (letters ++ "-"%char :: digits ++ tail)
    with ((letters ++ "-"%char :: digits) ++ tail) in H at 2
    by (now rewrite <- app_assoc).
  rewrite firstn_prefix in H; [exact H|].
  rewrite length_app. cbn [length]. lia.
Qed.

(** A pattern that fails nowhere to the right fails as a whole. *)
Lemma exec_none_test r s : exec r s = None <-> test r s = false.
Proof. unfold test. destruct (exec r s); split; congruence. Qed.

End CaptureFacts.

(** ** Linear: the identity of every issue page, and the description *)

Module LinearMoreFacts.
Import Js Regex RegexFacts RegexMore CaptureFacts Location Linear LinearFacts
       LinearMore.

Lemma leads_opt_take r x y : leads r x y -> leads (Opt r) x y.
Proof. intros [l H]. unfold leads. rewrite m_opt, H. cbn [app]. eauto. Qed.

Lemma flat_map_twice {A B C} (f : A -> list B) (g : B -> list C) l :
  flat_map g (flat_map f l) = flat_map (fun a => flat_map g (f a)) l.
Proof.
  induction l as [|a l IH]; [reflexivity|].
  cbn [flat_map]. now rewrite flat_map_app, IH.
Qed.

Lemma m_seqs_app rs1 rs2 : forall x,
  m (seqs (rs1 ++ rs2)) x = flat_map (m (seqs rs2)) (m (seqs rs1) x).
Proof.
  induction rs1 as [|r rs1 IH]; intros x.
  - cbn. now rewrite app_nil_r.
  - cbn [app seqs]. rewrite !m_seq, flat_map_twice.
    apply flat_map_ext. intros y. apply IH.
Qed.

Lemma leads_seqs_app rs1 rs2 x y z :
  leads (seqs rs1) x y -> leads (seqs rs2) y z ->
  leads (seqs (rs1 ++ rs2)) x z.
Proof.
  intros [l1 H1] [l2 H2]. unfold leads.
  rewrite m_seqs_app, H1. cbn [flat_map]. rewrite H2. cbn [app]. eauto.
Qed.

Lemma not_slash_false a : not_slash a = false -> a = "/"%char.
Proof.
  unfold not_slash, chr_eqb. intros H. apply negb_false_iff in H.
  now apply Ascii.eqb_eq in H.
Qed.

Lemma run_none p s : starts_with_a p s = false -> run p s = [].
Proof.
  destruct s as [|a s]; [reflexivity|]. cbn. now intros ->.
Qed.

Lemma starts_with_a_stop p s :
  starts_with_a p s = false ->
  match s with a :: _ => p a = false | [] => True end.
Proof. destruct s; cbn; auto. Qed.

Lemma m_chr_hit a pos rest c :
  m (chr a) (MS pos (a :: rest) c) = [MS (S pos) rest c].
Proof. simpl. unfold chr_eqb. now rewrite Ascii.eqb_refl. Qed.

Lemma m_chr_miss a b pos rest c :
  chr_eqb a b = false -> m (chr a) (MS pos (b :: rest) c) = [].
Proof. simpl. now intros ->. Qed.

Lemma m_plus_cls_stop p pos rest c :
  match rest with a :: _ => p a = false | [] => True end ->
  m (Plus (Cls p)) (MS pos rest c) = [].
Proof. intros H. rewrite m_plus. now apply iterate_cls_stop. Qed.

(** The optional slug, from the state in which the issue id has been
    read. *)
Lemma slug_leads pos after c :
  lookup_group 3 c = None ->
  exists y,
    leads (seqs [Opt (Seq (chr "/") (Grp 3 (Plus (Cls dot))))])
      (MS pos after c) y /\
    (forall i, i <> 3 -> lookup_group i (ms_caps y) = lookup_group i c) /\
    or_empty (lookup_group 3 (ms_caps y))
    = match after with
      | a :: s => if chr_eqb "/" a then run dot s else []
      | [] => []
      end.
Proof.
  intros Hc. cbn [seqs].
  assert (Hskip : m (Seq (chr "/") (Grp 3 (Plus (Cls dot)))) (MS pos after c) = [] ->
                  exists y,
                    leads (Seq (Opt (Seq (chr "/") (Grp 3 (Plus (Cls dot))))) Eps)
                      (MS pos after c) y /\
                    (forall i, i <> 3 ->
                               lookup_group i (ms_caps y) = lookup_group i c) /\
                    or_empty (lookup_group 3 (ms_caps y)) = []).
  { intros H. exists (MS pos after c). split; [|split].
    - eapply leads_seq; [now apply leads_opt_skip | apply leads_eps].
    - reflexivity.
    - cbn. now rewrite Hc. }
  destruct after as [|a s]; [apply Hskip; reflexivity|].
  destruct (chr_eqb "/" a) eqn:Ea.
  - unfold chr_eqb in Ea. apply Ascii.eqb_eq in Ea. subst a.
    destruct (starts_with_a dot s) eqn:Edot.
    + eexists. split; [|split].
      * eapply leads_seq; [|apply leads_eps]. apply leads_opt_take.
        eapply leads_seq; [apply leads_chr | now apply leads_grp_run].
      * intros i Hi. cbn. destruct (Nat.eqb_spec i 3); [contradiction|reflexivity].
      * cbn. pose proof (run_nonempty dot s Edot).
        destruct (run dot s); [congruence | reflexivity].
    + rewrite (run_none _ _ Edot). apply Hskip.
      rewrite m_seq, m_chr_hit. cbn [flat_map].
      rewrite m_grp, m_plus_cls_stop by now apply starts_with_a_stop.
      reflexivity.
  - apply Hskip. now rewrite m_seq, m_chr_miss.
Qed.

Lemma slug_of_after rest :
  slug_of rest = match after_run not_slash rest with
                 | a :: s => if chr_eqb "/" a then run dot s else []
                 | [] => []
                 end.
Proof.
  unfold slug_of. pose proof (after_run_stops not_slash rest) as H.
  destruct (after_run not_slash rest) as [|a s]; [reflexivity|].
  apply not_slash_false in H. now subst a.
Qed.

(** The first match of [pathPattern] on [/ws/issue/] followed by
    anything that does not start with a slash. *)
Lemma pathPattern_leads_run ws rest :
  ws <> [] -> forallb not_slash ws = true ->
  starts_with_a not_slash rest = true ->
  exists y,
    leads pathPattern (MS 0 ("/"%char :: ws ++ lit "/issue/" ++ rest) []) y /\
    lookup_group 2 (ms_caps y) = Some (run not_slash rest) /\
    or_empty (lookup_group 3 (ms_caps y)) = slug_of rest.
Proof.
  intros Hws Hws' Hrest.
  destruct (slug_leads (1 + length ws + length (lit "/issue/")
                        + length (run not_slash rest))
              (after_run not_slash rest)
              [(2, run not_slash rest); (1, ws)] eq_refl)
    as (y & Hy & Hkeep & Hslug).
  exists y. split; [|split].
  - change pathPattern
      with (seqs ([Bol; chr "/"; Grp 1 (Plus (Cls not_slash));
                   text (lit "/issue/"); Grp 2 (Plus (Cls not_slash))]
                  ++ [Opt (Seq (chr "/") (Grp 3 (Plus (Cls dot))))])).
    eapply leads_seqs_app; [|exact Hy].
    cbn [seqs]. eapply leads_seq; [apply leads_bol|].
    eapply leads_seq; [apply leads_chr|].
    eapply leads_seq; [apply leads_grp_plus; [assumption..|reflexivity]|].
    eapply leads_seq; [apply leads_text|].
    eapply leads_seq; [apply leads_grp_run; assumption|].
    apply leads_eps.
  - rewrite Hkeep by lia. reflexivity.
  - rewrite Hslug. symmetry. apply slug_of_after.
Qed.

(** linear.ts 33-59 on every issue page: the issue id is what follows
    [/issue/] up to the next slash, the title what follows that slash
    up to a line terminator. *)
Lemma getLinearIssueInfo_run l ws rest :
  ws <> [] -> forallb not_slash ws = true ->
  starts_with_a not_slash rest = true ->
  pathname l = "/"%char :: ws ++ lit "/issue/" ++ rest ->
  exists info, getLinearIssueInfo l = Some info /\
               issueId info = run not_slash rest /\
               issueTitle info = slug_of rest /\
               fullUrl info = href l.
Proof.
  intros Hws Hws' Hrest Hp.
  assert (Hpage : isLinearIssuePage l = true).
  { apply isLinearIssuePage_iff.
    exists ws, (run not_slash rest), (after_run not_slash rest).
    repeat split; auto using run_nonempty, run_all.
    now rewrite <- run_split. }
  destruct (pathPattern_leads_run ws rest Hws Hws' Hrest)
    as (y & Hy & Hid & Hslug).
  unfold getLinearIssueInfo. rewrite Hpage. cbn [negb]. rewrite Hp.
  rewrite (leads_exec _ _ _ pathPattern_anchored Hy).
  eexists. split; [reflexivity|]. cbn [issueId issueTitle fullUrl].
  unfold group. cbn [rm_groups]. rewrite Hid. cbn [default].
  repeat split; auto.
Qed.

Lemma issue_path_run p :
  issue_path p ->
  exists ws rest, ws <> [] /\ forallb not_slash ws = true /\
                  starts_with_a not_slash rest = true /\
                  p = "/"%char :: ws ++ lit "/issue/" ++ rest.
Proof.
  intros (ws & key & tail & Hws & Hws' & Hkey & Hkey' & ->).
  exists ws, (key ++ tail). repeat split; auto.
  destruct key as [|a key]; [congruence|]. cbn in Hkey' |- *.
  now apply andb_true_iff in Hkey' as [-> _].
Qed.

Lemma getIssueTitleFromDOM_truthy textContent title :
  getIssueTitleFromDOM textContent = Some title -> title <> [].
Proof.
  unfold getIssueTitleFromDOM, or_null. destruct textContent; [|discriminate].
  destruct (trim s) eqn:E; cbn; intros [= <-]. discriminate.
Qed.

End LinearMoreFacts.

(** X1. On a Linear page [/{workspace}/issue/{key}/{slug}] the identity
    has the key as issue id and the whole rest of the path as title,
    further slashes included; the description of the time entry is the
    key, a space and the title of the page, the slug standing in when
    the page shows no title. *)
Theorem X1_linear_slug_is_title l ws key slug :
  ws <> [] -> forallb Regex.not_slash ws = true ->
  key <> [] -> forallb Regex.not_slash key = true ->
  slug <> [] -> forallb Regex.dot slug = true ->
  Location.pathname l
  = "/"%char :: ws ++ Js.lit "/issue/" ++ key ++ "/"%char :: slug ->
  exists info,
    Linear.getLinearIssueInfo l = Some info /\
    Linear.issueId info = key /\ Linear.issueTitle info = slug /\
    forall textContent,
      LinearMore.issueDescription textContent info
      = key ++ " "%char ::
          match LinearMore.getIssueTitleFromDOM textContent with
          | Some title => title
          | None => slug
          end.
Proof.
  intros Hws Hws' Hkey Hkey' Hslug Hslug' Hp.
  destruct (CaptureFacts.run_app Regex.not_slash key ("/"%char :: slug) Hkey' eq_refl)
    as [Hrun Hafter].
  destruct (CaptureFacts.run_app Regex.dot slug [] Hslug' I) as [Hrun' _].
  rewrite app_nil_r in Hrun'.
  destruct (LinearMoreFacts.getLinearIssueInfo_run l ws (key ++ "/"%char :: slug))
    as (info & Hinfo & Hid & Htitle & _); auto.
  { destruct key as [|a key]; [congruence|]. cbn in Hkey' |- *.
    now apply andb_true_iff in Hkey' as [-> _]. }
  unfold LinearMore.slug_of in Htitle. rewrite Hafter, Hrun' in Htitle.
  rewrite Hrun in Hid.
  exists info. repeat split; auto.
  intros textContent. unfold LinearMore.issueDescription, LinearMore.issueTitleOf.
  rewrite Hid, Htitle.
  destruct (LinearMore.getIssueTitleFromDOM textContent); [reflexivity|].
  destruct slug; [congruence | reflexivity].
Qed.

Lemma X1_linear_slug_is_title_witness :
  exists info,
    Linear.getLinearIssueInfo
      (Location.of_url (Js.lit "https://linear.app/acme/issue/ST-583/fix/bug"))
    = Some info /\
    Linear.issueId info = Js.lit "ST-583" /\
    Linear.issueTitle info = Js.lit "fix/bug" /\
    forall textContent,
      LinearMore.issueDescription textContent info
      = Js.lit "ST-583" ++ " "%char ::
          match LinearMore.getIssueTitleFromDOM textContent with
          | Some title => title
          | None => Js.lit "fix/bug"
          end.
Proof.
  apply (X1_linear_slug_is_title _ (Js.lit "acme") (Js.lit "ST-583")
           (Js.lit "fix/bug")).
  - discriminate.
  - reflexivity.
  - discriminate.
  - reflexivity.
  - discriminate.
  - reflexivity.
  - reflexivity.
Defined.

(** X2. Every identity that [getLinearIssueInfo] returns has an issue id
    that is not empty, and the title put into the description (the title
    of the page, else the slug, else the issue id) is never empty,
    whatever the page shows. *)
Theorem X2_linear_description_parts l info :
  Linear.getLinearIssueInfo l = Some info ->
  Linear.issueId info <> [] /\
  Linear.fullUrl info = Location.href l /\
  forall textContent, LinearMore.issueTitleOf textContent info <> [].
Proof.
  intros Hinfo.
  assert (Hpage : Linear.isLinearIssuePage l = true).
  { destruct (Linear.isLinearIssuePage l) eqn:E; [reflexivity|].
    apply LinearFacts.getLinearIssueInfo_none in E. congruence. }
  apply LinearFacts.isLinearIssuePage_iff in Hpage.
  apply LinearMoreFacts.issue_path_run in Hpage
    as (ws & rest & Hws & Hws' & Hrest & Hp).
  destruct (LinearMoreFacts.getLinearIssueInfo_run l ws rest Hws Hws' Hrest Hp)
    as (info' & Hinfo' & Hid & _ & Hurl).
  assert (info' = info) by congruence. subst info'.
  assert (Hne : Linear.issueId info <> []).
  { rewrite Hid. now apply CaptureFacts.run_nonempty. }
  repeat split; auto.
  intros textContent. unfold LinearMore.issueTitleOf.
  destruct (LinearMore.getIssueTitleFromDOM textContent) as [title|] eqn:E.
  - now apply LinearMoreFacts.getIssueTitleFromDOM_truthy in E.
  - destruct (Linear.issueTitle info); [assumption | discriminate].
Qed.

Lemma X2_linear_description_parts_witness :
  Linear.issueId
    {| Linear.issueId := Js.lit "583"; Linear.issueTitle := [];
       Linear.projectKey := [];
       Linear.fullUrl := Js.lit "https://linear.app/acme/issue/583" |} <> [] /\
  Linear.fullUrl
    {| Linear.issueId := Js.lit "583"; Linear.issueTitle := [];
       Linear.projectKey := [];
       Linear.fullUrl := Js.lit "https://linear.app/acme/issue/583" |}
  = Location.href (Location.of_url (Js.lit "https://linear.app/acme/issue/583")) /\
  forall textContent,
    LinearMore.issueTitleOf textContent
      {| Linear.issueId := Js.lit "583"; Linear.issueTitle := [];
         Linear.projectKey := [];
         Linear.fullUrl := Js.lit "https://linear.app/acme/issue/583" |} <> [].
Proof.
  apply (X2_linear_description_parts
           (Location.of_url (Js.lit "https://linear.app/acme/issue/583"))).
  reflexivity.
Defined.

(** ** Jira: the identity of the issue *)

Module JiraInfoFacts.
Import Js Regex RegexFacts RegexMore CaptureFacts Location Jira JiraFacts
       JiraInfo LinearMoreFacts.

(** Every way in which [hostnamePattern] matches captures the same
    text: all of the host name but the final [.atlassian.net]. *)
Lemma hostname_caps s y :
  In y (m hostnamePattern (MS 0 s [])) ->
  exists w, s = w ++ lit ".atlassian.net" /\ w <> [] /\
            forallb dot w = true /\ ms_caps y = [(1, w)].
Proof.
  unfold hostnamePattern. cbn [seqs]. rewrite m_seq. intros Hy.
  apply in_flat_map in Hy as (x1 & Hx1 & Hy).
  destruct Hx1 as [<- | []].
  rewrite m_seq in Hy. apply in_flat_map in Hy as (x2 & Hx2 & Hy).
  apply m_grp_in in Hx2 as (y0 & Hy0 & Hpos2 & Hrest2 & Hcaps2).
  pose proof (m_caps_groupless (Plus (Cls dot)) eq_refl _ _ Hy0) as Hc0.
  apply m_sound in Hy0 as (w & [Hr0 Hp0] & Hd0).
  apply den_plus_cls in Hd0 as [Hw Hw'].
  rewrite m_seq in Hy. apply in_flat_map in Hy as (x3 & Hx3 & Hy).
  pose proof (m_caps_groupless _ (groupless_text _) _ _ Hx3) as Hc3.
  apply m_sound in Hx3 as (t & [Hr3 _] & Hd3). apply den_text in Hd3. subst t.
  rewrite m_seq in Hy. apply in_flat_map in Hy as (x4 & Hx4 & Hy).
  pose proof (m_caps_groupless Eol eq_refl _ _ Hx4) as Hc4.
  apply m_sound in Hx4 as (e & [Hr4 _] & [-> He]).
  destruct Hy as [<- | []].
  cbn [ms_pos ms_rest ms_caps] in *.
  exists w. rewrite Hc4, Hc3, Hcaps2, Hc0, Hp0.
  assert (Hs : s = w ++ lit ".atlassian.net").
  { rewrite Hr0, <- Hrest2, Hr3, Hr4, He. cbn [app]. now rewrite app_nil_r. }
  repeat split; auto.
  rewrite Nat.add_0_l, Nat.sub_0_r, Hs. now rewrite firstn_prefix.
Qed.

Lemma hostname_den w :
  w <> [] -> forallb dot w = true ->
  den (seqs [Grp 1 (Plus (Cls dot)); text (lit ".atlassian.net"); Eol]) 0
    (w ++ lit ".atlassian.net") [].
Proof.
  intros Hw Hw'. cbn [seqs].
  exists w, (lit ".atlassian.net"). split; [reflexivity|]. split.
  - cbn [den]. apply den_plus_cls. now split.
  - exists (lit ".atlassian.net"), []. split; [reflexivity|]. split.
    + now apply den_text.
    + exists [], []. repeat split.
Qed.

(** [hostnameMatch ? hostnameMatch[1] : ""] *)
Lemma workspace_of ws :
  ws <> [] -> forallb dot ws = true ->
  group_or_empty 1 (exec hostnamePattern (ws ++ lit ".atlassian.net")) = ws.
Proof.
  intros Hws Hws'.
  assert (Ht : test hostnamePattern (ws ++ lit ".atlassian.net") = true).
  { unfold hostnamePattern. apply test_anchored.
    exists (ws ++ lit ".atlassian.net"), []. split; [now rewrite app_nil_r|].
    now apply hostname_den. }
  unfold test in Ht. unfold hostnamePattern in Ht |- *.
  rewrite exec_anchored in Ht |- * by apply anchored_seqs_Bol.
  fold hostnamePattern in Ht |- *.
  destruct (m hostnamePattern (MS 0 (ws ++ lit ".atlassian.net") []))
    as [|y l] eqn:E; [discriminate|].
  destruct (hostname_caps (ws ++ lit ".atlassian.net") y) as (w & Hs & _ & _ & Hc).
  { rewrite E. now left. }
  apply app_inv_tail in Hs. subst w.
  unfold group_or_empty, group. cbn [rm_groups]. now rewrite Hc.
Qed.

Lemma workspace_none s :
  (forall ws, ws <> [] -> forallb dot ws = true ->
              s <> ws ++ lit ".atlassian.net") ->
  group_or_empty 1 (exec hostnamePattern s) = [].
Proof.
  intros Hno. destruct (exec hostnamePattern s) as [mt|] eqn:E; [|reflexivity].
  exfalso. assert (Ht : test hostnamePattern s = true)
    by (unfold test; now rewrite E).
  unfold hostnamePattern in Ht. apply test_anchored in Ht
    as (w & rest & Hs & Hd).
  cbn [seqs] in Hd.
  destruct Hd as (w1 & w2 & -> & H1 & w3 & w4 & -> & H3 & w5 & w6 & -> & [-> He] & ->).
  cbn [den] in H1. apply den_plus_cls in H1 as [Hw Hw'].
  apply den_text in H3. subst w3. cbn [app] in He. subst rest.
  apply (Hno w1 Hw Hw'). rewrite Hs. cbn [app]. now rewrite !app_nil_r.
Qed.

(** The first match of [browseMatchPattern]. *)
Lemma browseMatch_leads letters digits tail :
  letters <> [] -> forallb upper letters = true ->
  digits <> [] -> forallb digit digits = true ->
  match tail with a :: _ => digit a = false | [] => True end ->
  leads browseMatchPattern
    (MS 0 (lit "/browse/" ++ letters ++ "-"%char :: digits ++ tail) [])
    (MS (8 + length letters + 1 + length digits) tail
        [(1, letters ++ "-"%char :: digits)]).
Proof.
  intros Hl Hl' Hd Hd' Ht. unfold browseMatchPattern. cbn [seqs].
  eapply leads_seq; [apply leads_bol|].
  eapply leads_seq; [apply leads_text|].
  eapply leads_seq; [now apply leads_grp_key|].
  apply leads_eps.
Qed.

(** A board path is not a browse path. *)
Lemma browseMatch_none rest :
  exec browseMatchPattern (lit "/jira/software/projects/" ++ rest) = None.
Proof.
  apply exec_none_test. apply not_true_is_false. intros Ht.
  unfold browseMatchPattern in Ht. apply test_anchored in Ht
    as (w & r & Hs & Hd).
  cbn [seqs] in Hd. destruct Hd as (w1 & w2 & -> & H1 & _).
  apply den_text in H1. subst w1. discriminate.
Qed.

(** The first match of [projectPathPattern] on a board path. *)
Lemma projectPath_leads proj rest :
  proj <> [] -> forallb not_slash proj = true ->
  leads projectPathPattern
    (MS 0 (lit "/jira/software/projects/" ++ proj ++ "/"%char :: rest) [])
    (MS (24 + length proj + 1) rest [(1, proj)]).
Proof.
  intros Hp Hp'. unfold projectPathPattern. cbn [seqs].
  eapply leads_seq; [apply leads_text|].
  eapply leads_seq; [apply leads_grp_plus; [assumption..|reflexivity]|].
  eapply leads_seq; [apply leads_chr|].
  replace (S (0 + length (lit "/jira/software/projects/") + length proj))
    with (24 + length proj + 1) by (cbn; lia).
  apply leads_eps.
Qed.

(** *** The query string *)

Lemma split_one c w :
  forallb (fun a => negb (chr_eqb a c)) w = true ->
  Background.split c w = [w].
Proof.
  induction w as [|a w IH]; [reflexivity|]. cbn.
  intros H. apply andb_true_iff in H as [Ha Hw]. apply negb_true_iff in Ha.
  now rewrite Ha, IH.
Qed.

Lemma split_app c w rest :
  forallb (fun a => negb (chr_eqb a c)) w = true ->
  Background.split c (w ++ c :: rest) = w :: Background.split c rest.
Proof.
  induction w as [|a w IH]; intros H.
  - cbn. unfold chr_eqb. now rewrite Ascii.eqb_refl.
  - cbn in H. apply andb_true_iff in H as [Ha Hw]. apply negb_true_iff in Ha.
    cbn [app Background.split]. now rewrite Ha, IH.
Qed.

Lemma piece_plain kv :
  plain_param kv ->
  forallb (fun a => negb (chr_eqb a "&")) (piece_of kv) = true.
Proof.
  intros (Hk & Hv & _). unfold piece_of. rewrite forallb_app. cbn [forallb].
  rewrite Hv. cbn. rewrite andb_true_r.
  apply forallb_forall. intros a Ha. rewrite forallb_forall in Hk.
  specialize (Hk a Ha). now apply andb_true_iff in Hk as [-> _].
Qed.

Lemma split_join params :
  params <> [] -> Forall plain_param params ->
  Background.split "&" (join_params params) = map piece_of params.
Proof.
  induction params as [|[k v] params IH]; [congruence|]. intros _ Hall.
  inversion Hall as [|? ? Hkv Hrest]; subst.
  destruct params as [|q params].
  - cbn [join_params map]. now apply (split_one "&" (piece_of (k, v))), piece_plain.
  - change (join_params ((k, v) :: q :: params))
      with (k ++ "="%char :: v ++ "&"%char :: join_params (q :: params)).
    replace (k ++ "="%char :: v ++ "&"%char :: join_params (q :: params))
      with (piece_of (k, v) ++ "&"%char :: join_params (q :: params))
      by (unfold piece_of; cbn [fst snd]; now rewrite <- app_assoc).
    rewrite split_app by now apply piece_plain.
    rewrite IH by (auto; discriminate). reflexivity.
Qed.

Lemma take_until_app stop w a rest :
  forallb (fun b => negb (stop b)) w = true -> stop a = true ->
  take_until stop (w ++ a :: rest) = w /\
  drop_until stop (w ++ a :: rest) = a :: rest.
Proof.
  intros Hw Ha. induction w as [|b w IH]; cbn.
  - now rewrite Ha.
  - cbn in Hw. apply andb_true_iff in Hw as [Hb Hw].
    apply negb_true_iff in Hb. rewrite Hb.
    destruct (IH Hw) as [-> ->]. now split.
Qed.

Lemma piece_parts kv :
  plain_param kv ->
  (take_until (chr_eqb "=") (piece_of kv),
   tl (drop_until (chr_eqb "=") (piece_of kv))) = kv.
Proof.
  intros (Hk & _). destruct kv as [k v]. unfold piece_of. cbn [fst snd] in *.
  destruct (take_until_app (chr_eqb "=") k "="%char v) as [-> ->];
    [|reflexivity|reflexivity].
  apply forallb_forall. intros a Ha. rewrite forallb_forall in Hk.
  specialize (Hk a Ha). apply andb_true_iff in Hk as [_ Hk].
  unfold chr_eqb in *. now rewrite Ascii.eqb_sym.
Qed.

(** Text without [%] and [+] is decoded to itself. *)
Lemma form_decode_literal s :
  forallb literal s = true -> Background.form_decode s = s.
Proof.
  unfold Background.form_decode.
  induction s as [|a s IH]; [reflexivity|]. cbn [forallb map]. intros H.
  apply andb_true_iff in H as [Ha Hs]. unfold literal in Ha.
  apply andb_true_iff in Ha as [Hp Hq].
  apply negb_true_iff in Hp. apply negb_true_iff in Hq.
  rewrite Hq. cbn [Background.percent_decode]. rewrite Hp.
  now rewrite (IH Hs).
Qed.

Lemma piece_decoded kv :
  plain_param kv ->
  (Background.form_decode (take_until (chr_eqb "=") (piece_of kv)),
   Background.form_decode (tl (drop_until (chr_eqb "=") (piece_of kv)))) = kv.
Proof.
  intros H. pose proof (piece_parts kv H) as Hp.
  destruct H as (_ & _ & Hl). destruct kv as [k v]. cbn [fst snd] in Hl.
  injection Hp as -> ->.
  rewrite forallb_app in Hl. apply andb_true_iff in Hl as [Hk Hv].
  now rewrite !form_decode_literal.
Qed.

(** [new URLSearchParams(search)] gives back the parameters from which
    the query string was made. *)
Lemma searchParams_query_string l params :
  Forall plain_param params -> search l = query_string params ->
  Background.searchParams l = params.
Proof.
  intros Hall Hs. unfold Background.searchParams. rewrite Hs.
  unfold query_string. destruct params as [|kv params]; [reflexivity|].
  rewrite split_join by (auto; discriminate).
  clear Hs. induction Hall as [|kv' ps Hkv Hps IH]; [reflexivity|].
  cbn [map].
  assert (Ht : truthy (piece_of kv') = true)
    by (unfold piece_of; now destruct (fst kv')).
  rewrite filter_cons_True by (now rewrite Ht).
  cbn [map]. rewrite piece_decoded by assumption.
  f_equal. apply IH.
Qed.

Lemma get_included name v params :
  Background.get name params = Some v -> In (name, v) params.
Proof.
  induction params as [|[k w] params IH]; [discriminate|]. cbn.
  destruct (str_eqb k name) eqn:E.
  - intros [= ->]. apply BackgroundFacts.str_eqb_eq in E. subst. now left.
  - intros H. right. now apply IH.
Qed.

(** jira.ts 68-84 on a board page. *)
Lemma getJiraIssueInfo_board l proj rest params :
  isJiraIssuePage l = true ->
  proj <> [] -> forallb not_slash proj = true ->
  pathname l = lit "/jira/software/projects/" ++ proj ++ "/"%char :: rest ->
  Forall plain_param params -> search l = query_string params ->
  exists info,
    getJiraIssueInfo l = Some info /\
    issueKey info = Linear.or_empty (Background.get (lit "selectedIssue") params) /\
    projectName info = proj /\ fullUrl info = href l.
Proof.
  intros Hpage Hproj Hproj' Hp Hall Hs.
  unfold getJiraIssueInfo. rewrite Hpage. cbn [negb]. rewrite Hp.
  rewrite browseMatch_none.
  rewrite (leads_exec0 _ _ _ (projectPath_leads proj rest Hproj Hproj')).
  rewrite (searchParams_query_string l params Hall Hs).
  eexists. split; [reflexivity|]. repeat split.
Qed.

End JiraInfoFacts.

(** X3. On a Jira page [/browse/{LETTERS}-{digits}] the issue key is the
    letters, the dash and all the digits that follow, whatever comes
    after them, and the project name is the letters. *)
Theorem X3_jira_browse_identity l letters digits tail :
  letters <> [] -> forallb Regex.upper letters = true ->
  digits <> [] -> forallb Regex.digit digits = true ->
  match tail with a :: _ => Regex.digit a = false | [] => True end ->
  Location.pathname l
  = Js.lit "/browse/" ++ letters ++ "-"%char :: digits ++ tail ->
  exists info,
    JiraInfo.getJiraIssueInfo l = Some info /\
    JiraInfo.issueKey info = letters ++ "-"%char :: digits /\
    JiraInfo.projectName info = letters /\
    JiraInfo.fullUrl info = Location.href l.
Proof.
  intros Hl Hl' Hd Hd' Ht Hp.
  assert (Hpage : Jira.isJiraIssuePage l = true).
  { apply JiraFacts.isJiraIssuePage_iff. right.
    exists letters, digits, tail. repeat split; auto. }
  unfold JiraInfo.getJiraIssueInfo. rewrite Hpage. cbn [negb]. rewrite Hp.
  rewrite (CaptureFacts.leads_exec0 _ _ _
             (JiraInfoFacts.browseMatch_leads letters digits tail Hl Hl' Hd Hd' Ht)).
  eexists. split; [reflexivity|].
  cbn [JiraInfo.issueKey JiraInfo.projectName JiraInfo.fullUrl].
  unfold Regex.group. cbn [Regex.rm_groups Regex.ms_caps Regex.lookup_group
                           Nat.eqb default].
  repeat split.
  apply CaptureFacts.split_hd. now apply CaptureFacts.upper_not_dash.
Qed.

Lemma X3_jira_browse_identity_witness :
  exists info,
    JiraInfo.getJiraIssueInfo
      (Location.of_url (Js.lit "https://acme.atlassian.net/browse/PROJ-123/edit"))
    = Some info /\
    JiraInfo.issueKey info = Js.lit "PROJ" ++ "-"%char :: Js.lit "123" /\
    JiraInfo.projectName info = Js.lit "PROJ" /\
    JiraInfo.fullUrl info
    = Location.href
        (Location.of_url (Js.lit "https://acme.atlassian.net/browse/PROJ-123/edit")).
Proof.
  apply (X3_jira_browse_identity _ (Js.lit "PROJ") (Js.lit "123") (Js.lit "/edit")).
  - discriminate.
  - reflexivity.
  - discriminate.
  - reflexivity.
  - reflexivity.
  - reflexivity.
Defined.

(** X4. On a Jira board page whose query string carries the parameters
    [params], the issue key is the value of the first parameter named
    [selectedIssue] and the project name is the path segment after
    [/jira/software/projects/]. *)
Theorem X4_jira_board_identity l proj n tail params key :
  proj <> [] -> forallb Regex.not_slash proj = true ->
  forallb Regex.dot proj = true ->
  n <> [] -> forallb Regex.digit n = true ->
  Location.pathname l
  = Js.lit "/jira/software/projects/" ++ proj ++ Js.lit "/boards/" ++ n ++ tail ->
  Forall JiraInfo.plain_param params ->
  Location.search l = Jira.query_string params ->
  Background.get (Js.lit "selectedIssue") params = Some key ->
  exists info,
    JiraInfo.getJiraIssueInfo l = Some info /\
    JiraInfo.issueKey info = key /\
    JiraInfo.projectName info = proj /\
    JiraInfo.fullUrl info = Location.href l.
Proof.
  intros Hproj Hproj' Hdot Hn Hn' Hp Hall Hs Hget.
  assert (Hpage : Jira.isJiraIssuePage l = true).
  { apply JiraFacts.isJiraIssuePage_iff. left. split.
    - exists proj, n, tail. repeat split; auto.
    - rewrite Hs. apply (JiraFacts.selectedIssue_included params key).
      now apply JiraInfoFacts.get_included. }
  destruct (JiraInfoFacts.getJiraIssueInfo_board l proj
              (Js.lit "boards/" ++ n ++ tail) params)
    as (info & Hinfo & Hkey & Hrest); auto.
  exists info. split; [assumption|]. split; [|assumption].
  rewrite Hkey, Hget. now destruct key.
Qed.

Lemma X4_jira_board_identity_witness :
  exists info,
    JiraInfo.getJiraIssueInfo
      (Location.of_url
         (Js.lit "https://acme.atlassian.net/jira/software/projects/PROJ/boards/1?view=list&selectedIssue=PROJ-7"))
    = Some info /\
    JiraInfo.issueKey info = Js.lit "PROJ-7" /\
    JiraInfo.projectName info = Js.lit "PROJ" /\
    JiraInfo.fullUrl info
    = Location.href
        (Location.of_url
           (Js.lit "https://acme.atlassian.net/jira/software/projects/PROJ/boards/1?view=list&selectedIssue=PROJ-7")).
Proof.
  apply (X4_jira_board_identity _ (Js.lit "PROJ") (Js.lit "1") []
           [(Js.lit "view", Js.lit "list");
            (Js.lit "selectedIssue", Js.lit "PROJ-7")]).
  - discriminate.
  - reflexivity.
  - reflexivity.
  - discriminate.
  - reflexivity.
  - reflexivity.
  - repeat constructor.
  - reflexivity.
  - reflexivity.
Defined.

(** X5. The board check looks for the text [selectedIssue=] anywhere in
    the query string: a board page whose query string has that text
    only inside another parameter is taken for an issue page, and its
    identity has the empty issue key. *)
Theorem X5_jira_board_without_parameter l proj n tail params :
  proj <> [] -> forallb Regex.not_slash proj = true ->
  forallb Regex.dot proj = true ->
  n <> [] -> forallb Regex.digit n = true ->
  Location.pathname l
  = Js.lit "/jira/software/projects/" ++ proj ++ Js.lit "/boards/" ++ n ++ tail ->
  Forall JiraInfo.plain_param params ->
  Location.search l = Jira.query_string params ->
  Js.includes (Js.lit "selectedIssue=") (Jira.query_string params) = true ->
  Background.get (Js.lit "selectedIssue") params = None ->
  Jira.isJiraIssuePage l = true /\
  exists info,
    JiraInfo.getJiraIssueInfo l = Some info /\
    JiraInfo.issueKey info = [] /\
    JiraInfo.projectName info = proj.
Proof.
  intros Hproj Hproj' Hdot Hn Hn' Hp Hall Hs Hinc Hget.
  assert (Hpage : Jira.isJiraIssuePage l = true).
  { apply JiraFacts.isJiraIssuePage_iff. left. split.
    - exists proj, n, tail. repeat split; auto.
    - now rewrite Hs. }
  split; [assumption|].
  destruct (JiraInfoFacts.getJiraIssueInfo_board l proj
              (Js.lit "boards/" ++ n ++ tail) params)
    as (info & Hinfo & Hkey & Hname & _); auto.
  exists info. split; [assumption|]. split; [|assumption].
  now rewrite Hkey, Hget.
Qed.

Lemma X5_jira_board_without_parameter_witness :
  Jira.isJiraIssuePage
    (Location.of_url
       (Js.lit "https://acme.atlassian.net/jira/software/projects/PROJ/boards/1?lastselectedIssue=PROJ-7"))
  = true /\
  exists info,
    JiraInfo.getJiraIssueInfo
      (Location.of_url
         (Js.lit "https://acme.atlassian.net/jira/software/projects/PROJ/boards/1?lastselectedIssue=PROJ-7"))
    = Some info /\
    JiraInfo.issueKey info = [] /\
    JiraInfo.projectName info = Js.lit "PROJ".
Proof.
  apply (X5_jira_board_without_parameter _ (Js.lit "PROJ") (Js.lit "1") []
           [(Js.lit "lastselectedIssue", Js.lit "PROJ-7")]).
  - discriminate.
  - reflexivity.
  - reflexivity.
  - discriminate.
  - reflexivity.
  - reflexivity.
  - repeat constructor.
  - reflexivity.
  - reflexivity.
  - reflexivity.
Defined.

(** X6. The workspace name of a Jira identity is the host name without
    its final [.atlassian.net]; on any other host it is the empty
    string. *)
Theorem X6_jira_workspace_name l info :
  JiraInfo.getJiraIssueInfo l = Some info ->
  (forall ws, ws <> [] -> forallb Regex.dot ws = true ->
              Location.hostname l = ws ++ Js.lit ".atlassian.net" ->
              JiraInfo.workspaceName info = ws)
  /\
  ((forall ws, ws <> [] -> forallb Regex.dot ws = true ->
               Location.hostname l <> ws ++ Js.lit ".atlassian.net") ->
   JiraInfo.workspaceName info = []).
Proof.
  intros Hinfo.
  assert (Hws : JiraInfo.workspaceName info
                = JiraInfo.group_or_empty 1
                    (Regex.exec JiraInfo.hostnamePattern (Location.hostname l))).
  { unfold JiraInfo.getJiraIssueInfo in Hinfo.
    destruct (negb _); [discriminate|].
    destruct (Regex.exec JiraInfo.browseMatchPattern _);
      injection Hinfo as <-; reflexivity. }
  rewrite Hws. split.
  - intros ws Hne Hdot ->. now apply JiraInfoFacts.workspace_of.
  - apply JiraInfoFacts.workspace_none.
Qed.

Lemma X6_jira_workspace_name_witness :
  (forall ws, ws <> [] -> forallb Regex.dot ws = true ->
              Location.hostname
                (Location.of_url (Js.lit "https://my.team.atlassian.net/browse/PROJ-123"))
              = ws ++ Js.lit ".atlassian.net" ->
              JiraInfo.workspaceName
                {| JiraInfo.issueKey := Js.lit "PROJ-123";
                   JiraInfo.workspaceName := Js.lit "my.team";
                   JiraInfo.projectName := Js.lit "PROJ";
                   JiraInfo.fullUrl :=
                     Js.lit "https://my.team.atlassian.net/browse/PROJ-123" |}
              = ws)
  /\
  ((forall ws, ws <> [] -> forallb Regex.dot ws = true ->
               Location.hostname
                 (Location.of_url (Js.lit "https://my.team.atlassian.net/browse/PROJ-123"))
               <> ws ++ Js.lit ".atlassian.net") ->
   JiraInfo.workspaceName
     {| JiraInfo.issueKey := Js.lit "PROJ-123";
        JiraInfo.workspaceName := Js.lit "my.team";
        JiraInfo.projectName := Js.lit "PROJ";
        JiraInfo.fullUrl :=
          Js.lit "https://my.team.atlassian.net/browse/PROJ-123" |}
   = []).
Proof.
  apply (X6_jira_workspace_name
           (Location.of_url (Js.lit "https://my.team.atlassian.net/browse/PROJ-123"))).
  vm_compute. reflexivity.
Defined.

(** ** Plane: the identity of the issue *)

Module PlaneInfoFacts.
Import Js Regex RegexFacts RegexMore CaptureFacts Location Plane PlaneFacts
       PlaneInfo.

Lemma segment_unique w1 w2 a b :
  forallb not_slash w1 = true -> forallb not_slash w2 = true ->
  w1 ++ "/"%char :: a = w2 ++ "/"%char :: b -> w1 = w2 /\ a = b.
Proof.
  intros H1 H2 E.
  destruct (run_app not_slash w1 ("/"%char :: a) H1 eq_refl) as [R1 A1].
  destruct (run_app not_slash w2 ("/"%char :: b) H2 eq_refl) as [R2 A2].
  rewrite E in R1, A1. split; congruence.
Qed.

(** The first match of [browseMatchPattern]. *)
Lemma plane_browseMatch_leads ws letters digits tail :
  ws <> [] -> forallb not_slash ws = true ->
  letters <> [] -> forallb upper letters = true ->
  digits <> [] -> forallb digit digits = true ->
  match tail with a :: _ => digit a = false | [] => True end ->
  leads browseMatchPattern
    (MS 0 ("/"%char :: ws ++ lit "/browse/" ++ letters ++ "-"%char :: digits ++ tail) [])
    (MS (1 + length ws + 8 + length letters + 1 + length digits) tail
        [(2, letters ++ "-"%char :: digits); (1, ws)]).
Proof.
  intros Hws Hws' Hl Hl' Hd Hd' Ht. unfold browseMatchPattern. cbn [seqs].
  eapply leads_seq; [apply leads_bol|].
  eapply leads_seq; [apply leads_chr|].
  eapply leads_seq; [apply leads_grp_plus; [assumption..|reflexivity]|].
  eapply leads_seq; [apply leads_text|].
  eapply leads_seq; [now apply leads_grp_key|].
  apply leads_eps.
Qed.

(** The first match of [projectMatchPattern]. *)
Lemma projectMatch_leads ws id tail :
  ws <> [] -> forallb not_slash ws = true ->
  id <> [] -> forallb not_slash id = true ->
  leads projectMatchPattern
    (MS 0 ("/"%char :: ws ++ lit "/projects/" ++ id ++ lit "/issues/" ++ tail) [])
    (MS (1 + length ws + 10 + length id + 8) tail [(2, id); (1, ws)]).
Proof.
  intros Hws Hws' Hid Hid'. unfold projectMatchPattern. cbn [seqs].
  eapply leads_seq; [apply leads_bol|].
  eapply leads_seq; [apply leads_chr|].
  eapply leads_seq; [apply leads_grp_plus; [assumption..|reflexivity]|].
  eapply leads_seq; [apply leads_text|].
  eapply leads_seq; [apply leads_grp_plus; [assumption..|reflexivity]|].
  eapply leads_seq; [apply leads_text|].
  apply leads_eps.
Qed.

(** A project path is not a browse path. *)
Lemma plane_browseMatch_none ws rest :
  forallb not_slash ws = true ->
  exec browseMatchPattern ("/"%char :: ws ++ lit "/projects/" ++ rest) = None.
Proof.
  intros Hws. apply exec_none_test. apply not_true_is_false. intros Ht.
  unfold browseMatchPattern in Ht. apply test_anchored in Ht
    as (w & r & Hs & Hd).
  cbn [seqs] in Hd.
  destruct Hd as (w1 & w2 & -> & H1 & w3 & w4 & -> & H3 & w5 & w6 & -> & H5 & _).
  apply den_chr in H1. subst w1. cbn [den] in H3.
  apply den_plus_cls in H3 as [_ H3]. apply den_text in H5. subst w5.
  cbn [app] in Hs. injection Hs as Hs. rewrite <- !app_assoc in Hs.
  apply segment_unique in Hs as [_ Hs]; [discriminate | assumption..].
Qed.

(** On a browse path the maximal run of digits is what the key ends
    with. *)
Lemma browse_path_maximal p :
  browse_path p ->
  exists ws letters digits tail,
    ws <> [] /\ forallb not_slash ws = true /\
    letters <> [] /\ forallb upper letters = true /\
    digits <> [] /\ forallb digit digits = true /\
    match tail with a :: _ => digit a = false | [] => True end /\
    p = "/"%char :: ws ++ lit "/browse/" ++ letters ++ "-"%char :: digits ++ tail.
Proof.
  intros (ws & letters & digits & tail & Hws & Hws' & Hl & Hl' & Hd & Hd' & ->).
  exists ws, letters, (digits ++ run digit tail), (after_run digit tail).
  repeat split; auto.
  - destruct digits; [congruence | discriminate].
  - rewrite forallb_app, Hd', run_all. reflexivity.
  - apply after_run_stops.
  - now rewrite <- app_assoc, <- run_split.
Qed.

Lemma getPlaneIssueInfo_some textContent l :
  isPlaneIssuePage l = true -> getPlaneIssueInfo textContent l <> None.
Proof.
  intros Hpage. unfold getPlaneIssueInfo. rewrite Hpage. cbn [negb].
  destruct (exec browseMatchPattern (pathname l)) eqn:E; [discriminate|].
  apply isPlaneIssuePage_iff in Hpage as [Hi | Hb].
  - destruct Hi as (ws & id & tail & Hws & Hws' & Hid & Hid' & Hp).
    rewrite Hp.
    rewrite (leads_exec0 _ _ _ (projectMatch_leads ws id tail Hws Hws' Hid Hid')).
    discriminate.
  - apply browse_path_maximal in Hb
      as (ws & letters & digits & tail & Hws & Hws' & Hl & Hl' & Hd & Hd' & Ht & Hp).
    rewrite Hp in E.
    rewrite (leads_exec0 _ _ _
               (plane_browseMatch_leads ws letters digits tail
                  Hws Hws' Hl Hl' Hd Hd' Ht)) in E.
    discriminate.
Qed.

(** What [/^[A-Z]+-\d+$/] accepts. *)
Lemma keyPattern_test s :
  test keyPattern s = true <->
  exists letters digits,
    letters <> [] /\ forallb upper letters = true /\
    digits <> [] /\ forallb digit digits = true /\
    s = letters ++ "-"%char :: digits.
Proof.
  unfold keyPattern. rewrite test_anchored. cbn [seqs]. split.
  - intros (w & rest & Hs & w1 & w2 & -> & H1 & w3 & w4 & -> & H3
            & w5 & w6 & -> & H5 & w7 & w8 & -> & [-> He] & ->).
    apply den_plus_cls in H1 as [Hl Hl']. apply den_chr in H3. subst w3.
    apply den_plus_cls in H5 as [Hd Hd']. cbn [app] in He. subst rest.
    exists w1, w5. repeat split; auto.
    rewrite Hs. cbn [app]. now rewrite !app_nil_r.
  - intros (letters & digits & Hl & Hl' & Hd & Hd' & ->).
    exists (letters ++ "-"%char :: digits), []. split; [now rewrite app_nil_r|].
    exists letters, ("-"%char :: digits). split; [reflexivity|]. split.
    { apply den_plus_cls. now split. }
    exists ["-"%char], digits. split; [reflexivity|]. split.
    { now apply den_chr. }
    exists digits, []. split; [now rewrite app_nil_r|]. split.
    { apply den_plus_cls. now split. }
    exists [], []. repeat split.
Qed.

End PlaneInfoFacts.

(** X7. On a Plane page [/{workspace}/browse/{LETTERS}-{digits}] the
    identity is read from the path alone, whatever the page shows: the
    key is the letters, the dash and all the digits that follow, and
    the project id is the empty string. *)
Theorem X7_plane_browse_identity textContent l ws letters digits tail :
  ws <> [] -> forallb Regex.not_slash ws = true ->
  letters <> [] -> forallb Regex.upper letters = true ->
  digits <> [] -> forallb Regex.digit digits = true ->
  match tail with a :: _ => Regex.digit a = false | [] => True end ->
  Location.pathname l
  = "/"%char :: ws ++ Js.lit "/browse/" ++ letters ++ "-"%char :: digits ++ tail ->
  PlaneInfo.getPlaneIssueInfo textContent l
  = Some {| PlaneInfo.issueKey := letters ++ "-"%char :: digits;
            PlaneInfo.workspaceName := ws;
            PlaneInfo.projectId := [];
            PlaneInfo.fullUrl := Location.href l |}.
Proof.
  intros Hws Hws' Hl Hl' Hd Hd' Ht Hp.
  assert (Hpage : Plane.isPlaneIssuePage l = true).
  { apply PlaneFacts.isPlaneIssuePage_iff. right.
    exists ws, letters, digits, tail. repeat split; auto. }
  unfold PlaneInfo.getPlaneIssueInfo. rewrite Hpage. cbn [negb]. rewrite Hp.
  rewrite (CaptureFacts.leads_exec0 _ _ _
             (PlaneInfoFacts.plane_browseMatch_leads ws letters digits tail
                Hws Hws' Hl Hl' Hd Hd' Ht)).
  reflexivity.
Qed.

Lemma X7_plane_browse_identity_witness :
  PlaneInfo.getPlaneIssueInfo (Some (Js.lit "OTHER-1"))
    (Location.of_url (Js.lit "https://app.plane.so/acme/browse/SOLID-7/"))
  = Some {| PlaneInfo.issueKey := Js.lit "SOLID" ++ "-"%char :: Js.lit "7";
            PlaneInfo.workspaceName := Js.lit "acme";
            PlaneInfo.projectId := [];
            PlaneInfo.fullUrl :=
              Location.href
                (Location.of_url (Js.lit "https://app.plane.so/acme/browse/SOLID-7/")) |}.
Proof.
  apply (X7_plane_browse_identity _ _ (Js.lit "acme") (Js.lit "SOLID")
           (Js.lit "7") (Js.lit "/")).
  - discriminate.
  - reflexivity.
  - discriminate.
  - reflexivity.
  - discriminate.
  - reflexivity.
  - reflexivity.
  - reflexivity.
Defined.

(** X8. On a Plane page [/{workspace}/projects/{id}/issues/...] the
    workspace and the project id are the two path segments, and the
    issue key is the one read from the page, the empty string when the
    page shows none. *)
Theorem X8_plane_project_identity textContent l ws id tail :
  ws <> [] -> forallb Regex.not_slash ws = true ->
  id <> [] -> forallb Regex.not_slash id = true ->
  Location.pathname l
  = "/"%char :: ws ++ Js.lit "/projects/" ++ id ++ Js.lit "/issues/" ++ tail ->
  PlaneInfo.getPlaneIssueInfo textContent l
  = Some {| PlaneInfo.issueKey :=
              match PlaneInfo.getIssueKeyFromDOM textContent with
              | Some key => key
              | None => []
              end;
            PlaneInfo.workspaceName := ws;
            PlaneInfo.projectId := id;
            PlaneInfo.fullUrl := Location.href l |}.
Proof.
  intros Hws Hws' Hid Hid' Hp.
  assert (Hpage : Plane.isPlaneIssuePage l = true).
  { apply PlaneFacts.isPlaneIssuePage_iff. left.
    exists ws, id, tail. repeat split; auto. }
  unfold PlaneInfo.getPlaneIssueInfo. rewrite Hpage. cbn [negb]. rewrite Hp.
  rewrite PlaneInfoFacts.plane_browseMatch_none by assumption.
  rewrite (CaptureFacts.leads_exec0 _ _ _
             (PlaneInfoFacts.projectMatch_leads ws id tail Hws Hws' Hid Hid')).
  cbn [Regex.ms_caps]. unfold Regex.group.
  cbn [Regex.rm_groups Regex.lookup_group Nat.eqb default].
  destruct (PlaneInfo.getIssueKeyFromDOM textContent) as [[|a key]|]; reflexivity.
Qed.

Lemma X8_plane_project_identity_witness :
  PlaneInfo.getPlaneIssueInfo (Some (Js.lit " SOLID-7 "))
    (Location.of_url (Js.lit "https://app.plane.so/acme/projects/p1/issues/42"))
  = Some {| PlaneInfo.issueKey :=
              match PlaneInfo.getIssueKeyFromDOM (Some (Js.lit " SOLID-7 ")) with
              | Some key => key
              | None => []
              end;
            PlaneInfo.workspaceName := Js.lit "acme";
            PlaneInfo.projectId := Js.lit "p1";
            PlaneInfo.fullUrl :=
              Location.href
                (Location.of_url
                   (Js.lit "https://app.plane.so/acme/projects/p1/issues/42")) |}.
Proof.
  apply (X8_plane_project_identity _ _ (Js.lit "acme") (Js.lit "p1") (Js.lit "42")).
  - discriminate.
  - reflexivity.
  - discriminate.
  - reflexivity.
  - reflexivity.
Defined.

(** X9. [getPlaneIssueInfo] returns an identity on every page that the
    issue-page check accepts and on no other: its last [return null] is
    never reached. *)
Theorem X9_plane_identity_present textContent l :
  PlaneInfo.getPlaneIssueInfo textContent l = None <->
  Plane.isPlaneIssuePage l = false.
Proof.
  split.
  - intros H. destruct (Plane.isPlaneIssuePage l) eqn:E; [|reflexivity].
    now apply (PlaneInfoFacts.getPlaneIssueInfo_some textContent) in E.
  - intros H. unfold PlaneInfo.getPlaneIssueInfo. now rewrite H.
Qed.

(** X10. The Plane page gives a key exactly when the element has a text
    that, without the white space around it, has the form
    [LETTERS-digits] in full; the key is that text without the white
    space. *)
Theorem X10_plane_key_from_page textContent key :
  PlaneInfo.getIssueKeyFromDOM textContent = Some key <->
  exists text letters digits,
    textContent = Some text /\ key = RegexMore.trim text /\
    letters <> [] /\ forallb Regex.upper letters = true /\
    digits <> [] /\ forallb Regex.digit digits = true /\
    key = letters ++ "-"%char :: digits.
Proof.
  unfold PlaneInfo.getIssueKeyFromDOM. split.
  - destruct textContent as [text|]; [|discriminate].
    destruct (Js.truthy text); [|discriminate].
    destruct (Regex.test PlaneInfo.keyPattern (RegexMore.trim text)) eqn:E;
      [|discriminate].
    intros [= <-].
    apply PlaneInfoFacts.keyPattern_test in E
      as (letters & digits & ? & ? & ? & ? & ?).
    exists text, letters, digits. repeat split; auto.
  - intros (text & letters & digits & -> & -> & Hl & Hl' & Hd & Hd' & Hk).
    assert (Ht : Js.truthy text = true).
    { destruct text; [|reflexivity]. destruct letters; [congruence|discriminate]. }
    rewrite Ht.
    assert (E : Regex.test PlaneInfo.keyPattern (RegexMore.trim text) = true).
    { apply PlaneInfoFacts.keyPattern_test. exists letters, digits.
      repeat split; auto. }
    now rewrite E.
Qed.

Lemma X10_plane_key_from_page_witness :
  exists text letters digits,
    Some (Js.lit " SOLID-7 ") = Some text /\ Js.lit "SOLID-7" = RegexMore.trim text /\
    letters <> [] /\ forallb Regex.upper letters = true /\
    digits <> [] /\ forallb Regex.digit digits = true /\
    Js.lit "SOLID-7" = letters ++ "-"%char :: digits.
Proof.
  apply (proj1 (X10_plane_key_from_page (Some (Js.lit " SOLID-7 "))
                  (Js.lit "SOLID-7"))).
  reflexivity.
Defined.

(** ** The token store: whole refreshes, the logout and the listener *)

Module OAuthMoreFacts.
Import OAuth OAuthFacts OAuthMore.
#[local] Open Scope string_scope.

Lemma refreshAccessToken_settings st :
  endpoint (fst (refreshAccessToken st)) = endpoint st /\
  clientId (fst (refreshAccessToken st)) = clientId st.
Proof.
  unfold refreshAccessToken. destruct (refreshPromise st); [now split|].
  destruct (String.eqb (refreshToken st) ""); now split.
Qed.

(** A whole refresh from a store that has a refresh token and no
    refresh in flight. *)
Lemma refresh_result r st :
  refreshPromise st = None -> refreshToken st <> "" ->
  exists st',
    refresh r st = (st', Some (outcome_of r)) /\
    sent st' = (sent st ++ [RefreshToken (endpoint st) (clientId st)
                              (refreshToken st)])%list /\
    refreshPromise st' = None /\
    endpoint st' = endpoint st /\ clientId st' = clientId st /\
    match r with
    | BgSuccess data =>
        accessToken st' = access_token data /\
        refreshToken st' = refresh_token data /\
        storage st' = <["refresh_token" := refresh_token data]>
                        (<["access_token" := access_token data]> (storage st))
    | _ =>
        accessToken st' = "" /\ refreshToken st' = "" /\
        storage st' = delete "refresh_token" (delete "access_token" (storage st))
    end.
Proof.
  intros Hnone Htok. unfold refresh.
  destruct (refreshAccessToken_settings st) as [He Hc].
  destruct (refresh_starts st Hnone Htok)
    as (st1 & Hcall & Hsent & Hp & Hk & Ha & Hr & Hs).
  rewrite Hcall in He, Hc |- *. cbn [fst] in He, Hc.
  unfold await. rewrite Hk.
  destruct r as [data|error|error]; unfold resume; rewrite Hk;
    cbn -[lookup insert delete];
    rewrite ?(lookup_update _ _ _ _ Hk); cbn -[lookup insert delete];
    rewrite ?(lookup_update _ _ _ _ (lookup_update _ _ _ _ Hk));
    eexists; (split; [reflexivity|]); cbn -[lookup insert delete];
    rewrite ?Hs; repeat split; auto.
Qed.

(** A whole refresh from a store without a refresh token. *)
Lemma refresh_logged_out_result r st :
  refreshPromise st = None -> refreshToken st = "" ->
  exists st',
    refresh r st = (st', Some (Rejected NO_REFRESH_TOKEN)) /\
    sent st' = sent st /\ refreshPromise st' = None /\
    accessToken st' = "" /\ refreshToken st' = "" /\
    storage st' = delete "refresh_token" (delete "access_token" (storage st)).
Proof.
  intros Hnone Htok. unfold refresh.
  destruct (refresh_logged_out st Hnone Htok)
    as (st1 & -> & Ha & Hr & Hs & Hsent & Hp & Hk).
  unfold await. rewrite Hk. unfold resume. rewrite Hk.
  cbn -[lookup insert delete]. rewrite (lookup_update _ _ _ _ Hk).
  eexists. split; [reflexivity|]. cbn -[lookup insert delete].
  repeat split; auto.
Qed.

Lemma or_blank_insert (s : gmap string string) key v :
  or_blank (<[key := v]> s !! key) = v.
Proof. now rewrite lookup_insert_eq. Qed.

Lemma mirrors_cleared st :
  accessToken st = "" -> refreshToken st = "" ->
  storage st !! "access_token" = None -> storage st !! "refresh_token" = None ->
  mirrors st.
Proof. intros Ha Hr Hsa Hsr. unfold mirrors. now rewrite Ha, Hr, Hsa, Hsr. Qed.

Lemma removed_access (s : gmap string string) :
  delete "refresh_token" (delete "access_token" s) !! "access_token" = None.
Proof. rewrite lookup_delete_ne by discriminate. apply lookup_delete_eq. Qed.

Lemma removed_refresh (s : gmap string string) :
  delete "refresh_token" (delete "access_token" s) !! "refresh_token" = None.
Proof. apply lookup_delete_eq. Qed.

Lemma stored_access (s : gmap string string) a r :
  <["refresh_token" := r]> (<["access_token" := a]> s) !! "access_token" = Some a.
Proof. rewrite lookup_insert_ne by discriminate. apply lookup_insert_eq. Qed.

Lemma stored_refresh (s : gmap string string) a r :
  <["refresh_token" := r]> (<["access_token" := a]> s) !! "refresh_token" = Some r.
Proof. apply lookup_insert_eq. Qed.

(** After a whole refresh the cells hold what the storage holds. *)
Lemma refresh_mirrors r st st' o :
  refreshPromise st = None -> refresh r st = (st', o) -> mirrors st'.
Proof.
  intros Hnone Hrun.
  destruct (String.eqb_spec (refreshToken st) "") as [Htok|Htok].
  - destruct (refresh_logged_out_result r st Hnone Htok)
      as (st2 & Hrun2 & _ & _ & Ha & Hr & Hs).
    rewrite Hrun in Hrun2. injection Hrun2 as <- _.
    apply mirrors_cleared; auto; rewrite Hs;
      [apply removed_access | apply removed_refresh].
  - destruct (refresh_result r st Hnone Htok)
      as (st2 & Hrun2 & _ & _ & _ & _ & Hcase).
    rewrite Hrun in Hrun2. injection Hrun2 as <- _.
    destruct r as [data|error|error]; destruct Hcase as (Ha & Hr & Hs).
    + unfold mirrors.
      now rewrite Ha, Hr, Hs, stored_access, stored_refresh.
    + apply mirrors_cleared; auto; rewrite Hs;
        [apply removed_access | apply removed_refresh].
    + apply mirrors_cleared; auto; rewrite Hs;
        [apply removed_access | apply removed_refresh].
Qed.

(** The listener makes the cells follow a write that the event
    describes. *)
Lemma onChanged_mirrors c new st :
  mirrors st -> reports c (storage st) new ->
  mirrors (onChanged c Local (set_storage new st)).
Proof.
  intros [Ha Hr] [Hca Hcr]. unfold onChanged, mirrors.
  destruct (ch_access_token c) as [va|], (ch_refresh_token c) as [vr|];
    cbn -[lookup]; subst; split; congruence.
Qed.

Lemma changes_of_reports old new : reports (changes_of old new) old new.
Proof.
  unfold reports, changes_of. cbn -[lookup]. split.
  - destruct (old !! "access_token") as [x|], (new !! "access_token") as [y|];
      try reflexivity.
    destruct (String.eqb_spec x y); congruence.
  - destruct (old !! "refresh_token") as [x|], (new !! "refresh_token") as [y|];
      try reflexivity.
    destruct (String.eqb_spec x y); congruence.
Qed.

End OAuthMoreFacts.

(** X11. Whenever the token store is at rest its two cells hold what
    [browser.storage.local] holds under [access_token] and
    [refresh_token], the empty string standing for a missing key: this
    is so after [loadTokens], after [logout], after a whole refresh
    however the background answered, and it is kept when the listener
    runs on a storage event of the local area that describes a write,
    made in this or in another context. *)
Theorem X11_cells_mirror_storage :
  (forall st, OAuthMore.mirrors (OAuthMore.loadTokens st))
  /\
  (forall st, OAuthMore.mirrors (OAuthMore.logout st))
  /\
  (forall r st st' o,
     OAuth.refreshPromise st = None -> OAuthMore.refresh r st = (st', o) ->
     OAuthMore.mirrors st')
  /\
  (forall c new st,
     OAuthMore.mirrors st -> OAuthMore.reports c (OAuth.storage st) new ->
     OAuthMore.mirrors
       (OAuthMore.onChanged c OAuthMore.Local (OAuth.set_storage new st)))
  /\
  (forall new st,
     OAuthMore.mirrors st -> OAuthMore.mirrors (OAuthMore.storage_written new st)).
Proof.
  split; [intros st; split; reflexivity|].
  split.
  { intros st. apply OAuthMoreFacts.mirrors_cleared; try reflexivity.
    - apply OAuthMoreFacts.removed_access.
    - apply OAuthMoreFacts.removed_refresh. }
  split; [exact OAuthMoreFacts.refresh_mirrors|].
  split; [exact OAuthMoreFacts.onChanged_mirrors|].
  intros new st Hm. apply OAuthMoreFacts.onChanged_mirrors; [assumption|].
  apply OAuthMoreFacts.changes_of_reports.
Qed.

Lemma X11_cells_mirror_storage_witness :
  OAuthMore.mirrors
    (fst (OAuthMore.refresh (OAuth.BgFailure "invalid_grant") idle_store))
  /\
  OAuthMore.mirrors
    (OAuthMore.storage_written
       (<["access_token" := "fresh"%string]> (OAuth.storage (OAuthMore.loadTokens idle_store)))
       (OAuthMore.loadTokens idle_store)).
Proof.
  destruct X11_cells_mirror_storage as (H1 & _ & H3 & _ & H5).
  split.
  - apply (H3 (OAuth.BgFailure "invalid_grant") idle_store _
              (snd (OAuthMore.refresh (OAuth.BgFailure "invalid_grant") idle_store))).
    + reflexivity.
    + reflexivity.
  - apply H5. apply H1.
Defined.

(** ** The background script: what a flow persists and requests *)

Module BackgroundMoreFacts.
Import Js Location Background BackgroundMore.

(** Every way in which the callback ends. *)
Lemma onAuthFlow_cases endpoint clientId redirectUrl newURL fetch lastError
    responseUrl st :
  let '(st', resp) :=
    onAuthFlow endpoint clientId redirectUrl newURL fetch lastError
               responseUrl st in
  (exists error, resp = Failure error /\ st' = st)
  \/
  (exists params error, resp = Failure error /\
     lastError = None /\ newURL (default [] responseUrl) = Parsed params /\
     (forall tokens,
        fetch (tokenRequest clientId redirectUrl st params) <> FetchOk tokens) /\
     st' = State (oauthState st) (oauthVerifier st) (oauthChallenge st)
                 (storage st)
                 (tokenRequests st
                    ++ [tokenRequest clientId redirectUrl st params]))
  \/
  (exists params tokens, resp = Success tokens /\
     lastError = None /\ present responseUrl = true /\
     newURL (default [] responseUrl) = Parsed params /\
     fetch (tokenRequest clientId redirectUrl st params) = FetchOk tokens /\
     get (lit "state") params = Some (oauthState st) /\
     present (get (lit "code") params) = true /\
     present (get (lit "error") params) = false /\
     st' = State (oauthState st) (oauthVerifier st) (oauthChallenge st)
                 (<["refresh_token" := OAuth.refresh_token tokens]>
                    (<["access_token" := OAuth.access_token tokens]> (storage st)))
                 (tokenRequests st
                    ++ [tokenRequest clientId redirectUrl st params])).
Proof.
  unfold onAuthFlow.
  destruct lastError as [message|]; [left; eauto|].
  destruct (present responseUrl) eqn:Eurl; [|left; eauto]. cbn [negb].
  destruct (newURL (default [] responseUrl)) as [params|message];
    [|left; eauto].
  destruct (present (get (lit "error") params)) eqn:Eerr; [left; eauto|].
  destruct (differs (get (lit "state") params) (oauthState st)) eqn:Ediff;
    [left; cbn [orb]; eauto|].
  destruct (present (get (lit "code") params)) eqn:Ecode;
    [|left; cbn [orb negb]; eauto].
  cbn [orb negb]. fold (tokenRequest clientId redirectUrl st params).
  destruct (fetch (tokenRequest clientId redirectUrl st params))
    as [tokens| |message] eqn:Efetch.
  - right. right. exists params, tokens. repeat split; auto.
    destruct (get (lit "state") params) as [s|] eqn:Es; [|discriminate].
    cbn in Ediff. apply negb_false_iff in Ediff.
    apply BackgroundFacts.str_eqb_eq in Ediff. now subst.
  - right. left. exists params. eexists. repeat split; auto.
    intros tokens. rewrite Efetch. discriminate.
  - right. left. exists params. eexists. repeat split; auto.
    intros tokens. rewrite Efetch. discriminate.
Qed.

Lemma present_some o : present o = true -> exists s, o = Some s /\ s <> [].
Proof.
  destruct o as [[|a s]|]; try discriminate. intros _. eexists.
  split; [reflexivity | discriminate].
Qed.

End BackgroundMoreFacts.

(** X12. When the callback of an OAuth flow of the background script
    ends in success, the callback URL, as the browser's parser reads it,
    carried the expected state and a code that is not empty; exactly one
    request went to the token endpoint, with that code, decoded, and the
    stored verifier, and the tokens it returned are in the storage; a
    popup that was open, its cells holding what the storage held, has
    both tokens in its cells as soon as its storage listener has run,
    and shows the user as logged in when the access token is not
    empty. *)
Theorem X12_login_reaches_the_popup
    endpoint clientId redirectUrl newURL fetch lastError responseUrl bst bst'
    tokens st :
  Background.onAuthFlow endpoint clientId redirectUrl newURL fetch lastError
                        responseUrl bst
  = (bst', Background.Success tokens) ->
  OAuth.storage st = Background.storage bst -> OAuthMore.mirrors st ->
  let st' := OAuthMore.storage_written (Background.storage bst') st in
  exists params code,
    newURL (default [] responseUrl) = Background.Parsed params
    /\ Background.get (Js.lit "state") params
       = Some (Background.oauthState bst)
    /\ Background.get (Js.lit "code") params = Some code
    /\ code <> []
    /\ Background.tokenRequests bst'
       = Background.tokenRequests bst
           ++ [Background.TokenRequest (Js.lit "authorization_code") clientId
                 redirectUrl (Background.oauthVerifier bst) code]
    /\ fetch (Background.TokenRequest (Js.lit "authorization_code") clientId
                redirectUrl (Background.oauthVerifier bst) code)
       = Background.FetchOk tokens
    /\ Background.storage bst' !! "access_token"%string
       = Some (OAuth.access_token tokens)
    /\ Background.storage bst' !! "refresh_token"%string
       = Some (OAuth.refresh_token tokens)
    /\ OAuth.accessToken st' = OAuth.access_token tokens
    /\ OAuth.refreshToken st' = OAuth.refresh_token tokens
    /\ OAuthMore.isLoggedIn st'
       = negb (String.eqb (OAuth.access_token tokens) "").
Proof.
  intros Hflow Hs Hm st'.
  pose proof (BackgroundMoreFacts.onAuthFlow_cases endpoint clientId redirectUrl
                newURL fetch lastError responseUrl bst) as Hcases.
  rewrite Hflow in Hcases.
  destruct Hcases as [(e & He & _) | [(ps & e & He & _) | Hok]];
    try discriminate.
  destruct Hok as (params & tokens' & Ht & _ & _ & Hparsed & Hfetch & Hstate
                   & Hcode & _ & Hst).
  injection Ht as <-.
  destruct (BackgroundMoreFacts.present_some _ Hcode) as (code & Hget & Hne).
  unfold BackgroundMore.tokenRequest in Hfetch, Hst. rewrite Hget in Hfetch, Hst.
  cbn [default] in Hfetch, Hst.
  assert (Hsa : Background.storage bst' !! "access_token"%string
                = Some (OAuth.access_token tokens))
    by (rewrite Hst; apply OAuthMoreFacts.stored_access).
  assert (Hsr : Background.storage bst' !! "refresh_token"%string
                = Some (OAuth.refresh_token tokens))
    by (rewrite Hst; apply OAuthMoreFacts.stored_refresh).
  assert (Hm' : OAuthMore.mirrors st').
  { apply OAuthMoreFacts.onChanged_mirrors; [assumption|].
    apply OAuthMoreFacts.changes_of_reports. }
  destruct Hm' as [Ha Hr].
  assert (Hst' : OAuth.storage st' = Background.storage bst').
  { unfold st', OAuthMore.storage_written, OAuthMore.onChanged.
    destruct (OAuthMore.ch_access_token _), (OAuthMore.ch_refresh_token _);
      reflexivity. }
  rewrite Hst', Hsa in Ha. rewrite Hst', Hsr in Hr.
  change (OAuth.accessToken st' = OAuth.access_token tokens) in Ha.
  change (OAuth.refreshToken st' = OAuth.refresh_token tokens) in Hr.
  exists params, code.
  repeat split; auto.
  - now rewrite Hst.
  - unfold OAuthMore.isLoggedIn. now rewrite Ha.
Qed.

Lemma X12_login_reaches_the_popup_witness :
  let fetch := fun _ => Background.FetchOk (OAuth.Tokens "a" "r") in
  let responseUrl :=
    Some (Js.lit "https://ext.chromiumapp.org/?code=a%2Fb&state=expected%2Dstate") in
  let bst' :=
    fst (Background.onAuthFlow (Js.lit "https://app.solidtime.io")
           (Js.lit "client") (Js.lit "https://ext.chromiumapp.org/")
           example_newURL fetch None responseUrl example_background) in
  let st' :=
    OAuthMore.storage_written (Background.storage bst')
      (OAuthMore.loadTokens idle_store) in
  exists params code,
    example_newURL (default [] responseUrl) = Background.Parsed params
    /\ Background.get (Js.lit "state") params
       = Some (Background.oauthState example_background)
    /\ Background.get (Js.lit "code") params = Some code
    /\ code <> []
    /\ Background.tokenRequests bst'
       = Background.tokenRequests example_background
           ++ [Background.TokenRequest (Js.lit "authorization_code")
                 (Js.lit "client") (Js.lit "https://ext.chromiumapp.org/")
                 (Background.oauthVerifier example_background) code]
    /\ fetch (Background.TokenRequest (Js.lit "authorization_code")
                (Js.lit "client") (Js.lit "https://ext.chromiumapp.org/")
                (Background.oauthVerifier example_background) code)
       = Background.FetchOk (OAuth.Tokens "a" "r")
    /\ Background.storage bst' !! "access_token"%string
       = Some (OAuth.access_token (OAuth.Tokens "a" "r"))
    /\ Background.storage bst' !! "refresh_token"%string
       = Some (OAuth.refresh_token (OAuth.Tokens "a" "r"))
    /\ OAuth.accessToken st' = OAuth.access_token (OAuth.Tokens "a" "r")
    /\ OAuth.refreshToken st' = OAuth.refresh_token (OAuth.Tokens "a" "r")
    /\ OAuthMore.isLoggedIn st'
       = negb (String.eqb (OAuth.access_token (OAuth.Tokens "a" "r")) "").
Proof.
  apply (X12_login_reaches_the_popup (Js.lit "https://app.solidtime.io")
           (Js.lit "client") (Js.lit "https://ext.chromiumapp.org/")
           example_newURL
           (fun _ => Background.FetchOk (OAuth.Tokens "a" "r")) None
           (Some (Js.lit "https://ext.chromiumapp.org/?code=a%2Fb&state=expected%2Dstate"))
           example_background).
  - reflexivity.
  - reflexivity.
  - split; reflexivity.
Defined.



(** ** The client after a refresh *)

Module ApiMoreFacts.
Import OAuth OAuthFacts OAuthMore OAuthMoreFacts Api ApiFacts.
#[local] Open Scope string_scope.

(** A first request that is answered 401, in terms of the whole
    refresh. *)
Lemma axios_401 server bg fuel cfg w :
  _retry cfg = false ->
  server (length (requests w)) cfg = Status 401 ->
  axios server bg (S (S fuel)) cfg w =
  let '(a2, o) := refresh bg (auth w) in
  let sent1 := (requests w ++ [cfg])%list in
  match o with
  | Some Fulfilled =>
      let retry := Config (url cfg) (bearer (accessToken a2)) true in
      (World a2 (sent1 ++ [retry]) (S (refreshes w)),
       plain_result (server (length sent1) retry) retry)
  | Some (Rejected refreshError) =>
      (World a2 sent1 (S (refreshes w)), RejectedWith (RefreshError refreshError))
  | None => (World a2 sent1 (S (refreshes w)), Unsettled)
  end.
Proof.
  intros Hretry Hrep. rewrite axios_unmarked by assumption. cbv zeta.
  rewrite Hrep. cbn [validateStatus Nat.leb Nat.ltb andb Nat.eqb].
  unfold refresh. destruct (refreshAccessToken (auth w)) as [a1 p].
  destruct (await 2 bg p a1) as [a2 [[|e]|]]; reflexivity.
Qed.

End ApiMoreFacts.

(** X14. When a request is answered 401 and the refresh fails, the user
    is logged out: both cells are empty and the storage has neither
    token.  A later request goes out with the empty token; when it is
    answered 401 as well it is rejected with "No refresh token available
    - user logged out" without any message to the background.  Over the
    two requests one message was sent and each request went out once. *)
Theorem X14_failed_refresh_logs_out server bg fuel u1 u2 w error :
  2 <= fuel ->
  OAuth.refreshPromise (Api.auth w) = None ->
  OAuth.refreshToken (Api.auth w) <> ""%string ->
  OAuth.outcome_of bg = OAuth.Rejected error ->
  let cfg1 := Api.Config u1 (Api.bearer (OAuth.accessToken (Api.auth w))) false in
  let cfg2 := Api.Config u2 (Api.bearer "") false in
  let n := length (Api.requests w) in
  server n cfg1 = Api.Status 401 -> server (S n) cfg2 = Api.Status 401 ->
  let '(w1, res1) := Api.request server bg fuel u1 w in
  let '(w2, res2) := Api.request server bg fuel u2 w1 in
  res1 = Api.RejectedWith (Api.RefreshError error)
  /\ OAuthMore.isLoggedIn (Api.auth w1) = false
  /\ OAuth.refreshToken (Api.auth w1) = ""%string
  /\ OAuth.storage (Api.auth w1) !! "access_token"%string = None
  /\ OAuth.storage (Api.auth w1) !! "refresh_token"%string = None
  /\ res2 = Api.RejectedWith (Api.RefreshError OAuth.NO_REFRESH_TOKEN)
  /\ Api.requests w2 = Api.requests w ++ [cfg1; cfg2]
  /\ OAuth.sent (Api.auth w2)
     = OAuth.sent (Api.auth w)
         ++ [OAuth.RefreshToken (OAuth.endpoint (Api.auth w))
               (OAuth.clientId (Api.auth w)) (OAuth.refreshToken (Api.auth w))].
Proof.
  intros Hfuel Hnone Htok Hout cfg1 cfg2 n Hrep1 Hrep2.
  destruct fuel as [|[|fuel]]; [lia | lia |].
  unfold Api.request. fold cfg1.
  rewrite ApiMoreFacts.axios_401 by (auto; reflexivity).
  destruct (OAuthMoreFacts.refresh_result bg _ Hnone Htok)
    as (a2 & -> & Hsent & Hnone2 & _ & _ & Hcase).
  rewrite Hout. cbv zeta. cbn [Api.auth].
  assert (Hcleared : OAuth.accessToken a2 = ""%string /\
                     OAuth.refreshToken a2 = ""%string /\
                     OAuth.storage a2
                     = delete "refresh_token"%string
                         (delete "access_token"%string (OAuth.storage (Api.auth w)))).
  { destruct bg; [discriminate Hout | exact Hcase | exact Hcase]. }
  destruct Hcleared as (Ha & Hr & Hs). rewrite Ha. fold cfg2.
  assert (Hlen : length (Api.requests w ++ [cfg1]) = S n)
    by (rewrite length_app; cbn [length]; fold n; lia).
  rewrite ApiMoreFacts.axios_401;
    [|reflexivity | cbn [Api.requests]; now rewrite Hlen].
  cbn [Api.auth Api.requests Api.refreshes].
  destruct (OAuthMoreFacts.refresh_logged_out_result bg a2 Hnone2 Hr)
    as (a3 & -> & Hsent3 & _).
  cbv zeta. cbn [Api.auth Api.requests].
  split; [reflexivity|]. split.
  { unfold OAuthMore.isLoggedIn. now rewrite Ha. }
  split; [assumption|].
  split; [rewrite Hs; apply OAuthMoreFacts.removed_access|].
  split; [rewrite Hs; apply OAuthMoreFacts.removed_refresh|].
  split; [reflexivity|]. split.
  - now rewrite <- app_assoc.
  - now rewrite Hsent3, Hsent.
Qed.

Lemma X14_failed_refresh_logs_out_witness :
  let server := fun (_ : nat) (_ : Api.config) => Api.Status 401 in
  let bg := OAuth.BgFailure "invalid_grant" in
  let w := example_world in
  let cfg1 :=
    Api.Config "/a" (Api.bearer (OAuth.accessToken (Api.auth w))) false in
  let cfg2 := Api.Config "/b" (Api.bearer "") false in
  let '(w1, res1) := Api.request server bg 2 "/a" w in
  let '(w2, res2) := Api.request server bg 2 "/b" w1 in
  res1 = Api.RejectedWith (Api.RefreshError "invalid_grant")
  /\ OAuthMore.isLoggedIn (Api.auth w1) = false
  /\ OAuth.refreshToken (Api.auth w1) = ""%string
  /\ OAuth.storage (Api.auth w1) !! "access_token"%string = None
  /\ OAuth.storage (Api.auth w1) !! "refresh_token"%string = None
  /\ res2 = Api.RejectedWith (Api.RefreshError OAuth.NO_REFRESH_TOKEN)
  /\ Api.requests w2 = Api.requests w ++ [cfg1; cfg2]
  /\ OAuth.sent (Api.auth w2)
     = OAuth.sent (Api.auth w)
         ++ [OAuth.RefreshToken (OAuth.endpoint (Api.auth w))
               (OAuth.clientId (Api.auth w)) (OAuth.refreshToken (Api.auth w))].
Proof.
  apply (X14_failed_refresh_logs_out
           (fun (_ : nat) (_ : Api.config) => Api.Status 401)
           (OAuth.BgFailure "invalid_grant") 2 "/a" "/b" example_world
           "invalid_grant").
  - lia.
  - reflexivity.
  - discriminate.
  - reflexivity.
  - reflexivity.
  - reflexivity.
Defined.

(** X15. A successful refresh replaces the refresh token: the next
    refresh sends the token that the background returned, not the one
    sent before.  When the answer carried an empty refresh token the
    next refresh sends nothing, is rejected with "No refresh token
    available - user logged out" and clears the access token that the
    answer brought. *)
Theorem X15_refresh_token_rotates st data r :
  OAuth.refreshPromise st = None -> OAuth.refreshToken st <> ""%string ->
  let '(st1, o1) := OAuthMore.refresh (OAuth.BgSuccess data) st in
  let '(st2, o2) := OAuthMore.refresh r st1 in
  let first :=
    OAuth.RefreshToken (OAuth.endpoint st) (OAuth.clientId st)
                       (OAuth.refreshToken st) in
  o1 = Some OAuth.Fulfilled
  /\ OAuth.accessToken st1 = OAuth.access_token data
  /\ (OAuth.refresh_token data <> ""%string ->
      OAuth.sent st2
      = OAuth.sent st
          ++ [first;
              OAuth.RefreshToken (OAuth.endpoint st) (OAuth.clientId st)
                                 (OAuth.refresh_token data)]
      /\ o2 = Some (OAuth.outcome_of r))
  /\ (OAuth.refresh_token data = ""%string ->
      OAuth.sent st2 = OAuth.sent st ++ [first]
      /\ o2 = Some (OAuth.Rejected OAuth.NO_REFRESH_TOKEN)
      /\ OAuth.accessToken st2 = ""%string).
Proof.
  intros Hnone Htok.
  destruct (OAuthMoreFacts.refresh_result (OAuth.BgSuccess data) st Hnone Htok)
    as (st1 & -> & Hsent & Hnone1 & He & Hc & Ha & Hr & _).
  destruct (String.eqb_spec (OAuth.refresh_token data) "") as [Hempty|Hfull].
  - destruct (OAuthMoreFacts.refresh_logged_out_result r st1 Hnone1)
      as (st2 & -> & Hsent2 & _ & Ha2 & _); [congruence|].
    cbv zeta. split; [reflexivity|]. split; [assumption|]. split.
    + intros H. contradiction.
    + intros _. rewrite Hsent2, Hsent. auto.
  - destruct (OAuthMoreFacts.refresh_result r st1 Hnone1)
      as (st2 & -> & Hsent2 & _); [congruence|].
    cbv zeta. split; [reflexivity|]. split; [assumption|]. split.
    + intros _. rewrite Hsent2, Hsent, He, Hc, Hr, <- app_assoc. auto.
    + intros H. contradiction.
Qed.

Lemma X15_refresh_token_rotates_witness :
  let '(st1, o1) :=
    OAuthMore.refresh (OAuth.BgSuccess (OAuth.Tokens "new-access" "new-refresh"))
      idle_store in
  let '(st2, o2) := OAuthMore.refresh (OAuth.BgFailure "invalid_grant") st1 in
  let first :=
    OAuth.RefreshToken (OAuth.endpoint idle_store) (OAuth.clientId idle_store)
                       (OAuth.refreshToken idle_store) in
  o1 = Some OAuth.Fulfilled
  /\ OAuth.accessToken st1
     = OAuth.access_token (OAuth.Tokens "new-access" "new-refresh")
  /\ (OAuth.refresh_token (OAuth.Tokens "new-access" "new-refresh") <> ""%string ->
      OAuth.sent st2
      = OAuth.sent idle_store
          ++ [first;
              OAuth.RefreshToken (OAuth.endpoint idle_store)
                (OAuth.clientId idle_store)
                (OAuth.refresh_token (OAuth.Tokens "new-access" "new-refresh"))]
      /\ o2 = Some (OAuth.outcome_of (OAuth.BgFailure "invalid_grant")))
  /\ (OAuth.refresh_token (OAuth.Tokens "new-access" "new-refresh") = ""%string ->
      OAuth.sent st2 = OAuth.sent idle_store ++ [first]
      /\ o2 = Some (OAuth.Rejected OAuth.NO_REFRESH_TOKEN)
      /\ OAuth.accessToken st2 = ""%string).
Proof.
  apply (X15_refresh_token_rotates idle_store
           (OAuth.Tokens "new-access" "new-refresh")
           (OAuth.BgFailure "invalid_grant")).
  - reflexivity.
  - discriminate.
Defined.

(** X16. [logout] does not cancel a refresh that is in flight: it
    clears the cells and the storage, but when the background then
    answers with new tokens they are stored and put into the cells, and
    the user is logged in again. *)
Theorem X16_logout_during_refresh st data :
  OAuth.refreshPromise st = None -> OAuth.refreshToken st <> ""%string ->
  OAuth.access_token data <> ""%string ->
  let '(st1, p) := OAuth.refreshAccessToken st in
  let st2 := OAuthMore.logout st1 in
  let '(st3, o) := OAuth.await 2 (OAuth.BgSuccess data) p st2 in
  OAuthMore.isLoggedIn st2 = false
  /\ OAuth.storage st2 !! "access_token"%string = None
  /\ OAuth.refreshPromise st2 = Some p
  /\ o = Some OAuth.Fulfilled
  /\ OAuthMore.isLoggedIn st3 = true
  /\ OAuth.accessToken st3 = OAuth.access_token data
  /\ OAuth.refreshToken st3 = OAuth.refresh_token data
  /\ OAuth.storage st3 !! "access_token"%string = Some (OAuth.access_token data)
  /\ OAuth.storage st3 !! "refresh_token"%string
     = Some (OAuth.refresh_token data).
Proof.
  intros Hnone Htok Hdata.
  destruct (OAuthFacts.refresh_starts st Hnone Htok)
    as (st1 & -> & _ & Hp & Hk & _).
  cbv zeta.
  assert (Hk2 : OAuth.promises (OAuthMore.logout st1) !! length (OAuth.promises st)
                = Some (OAuth.Pending OAuth.KResponse)) by exact Hk.
  unfold OAuth.await. rewrite Hk2. unfold OAuth.resume. rewrite Hk2.
  cbn -[lookup insert delete].
  rewrite (OAuthFacts.lookup_update _ _ _ _ Hk2). cbn -[lookup insert delete].
  rewrite (OAuthFacts.lookup_update _ _ _ _ (OAuthFacts.lookup_update _ _ _ _ Hk2)).
  cbn -[lookup insert delete].
  split; [reflexivity|].
  split; [apply OAuthMoreFacts.removed_access|].
  split; [assumption|]. split; [reflexivity|]. split.
  { unfold OAuthMore.isLoggedIn. cbn -[lookup insert delete].
    apply String.eqb_neq in Hdata. now rewrite Hdata. }
  split; [reflexivity|]. split; [reflexivity|].
  split; [apply OAuthMoreFacts.stored_access | apply OAuthMoreFacts.stored_refresh].
Qed.

Lemma X16_logout_during_refresh_witness :
  let '(st1, p) := OAuth.refreshAccessToken idle_store in
  let st2 := OAuthMore.logout st1 in
  let '(st3, o) :=
    OAuth.await 2 (OAuth.BgSuccess (OAuth.Tokens "new-access" "new-refresh"))
      p st2 in
  OAuthMore.isLoggedIn st2 = false
  /\ OAuth.storage st2 !! "access_token"%string = None
  /\ OAuth.refreshPromise st2 = Some p
  /\ o = Some OAuth.Fulfilled
  /\ OAuthMore.isLoggedIn st3 = true
  /\ OAuth.accessToken st3
     = OAuth.access_token (OAuth.Tokens "new-access" "new-refresh")
  /\ OAuth.refreshToken st3
     = OAuth.refresh_token (OAuth.Tokens "new-access" "new-refresh")
  /\ OAuth.storage st3 !! "access_token"%string
     = Some (OAuth.access_token (OAuth.Tokens "new-access" "new-refresh"))
  /\ OAuth.storage st3 !! "refresh_token"%string
     = Some (OAuth.refresh_token (OAuth.Tokens "new-access" "new-refresh")).
Proof.
  apply (X16_logout_during_refresh idle_store
           (OAuth.Tokens "new-access" "new-refresh")).
  - reflexivity.
  - discriminate.
  - discriminate.
Defined.

(** X17. A refresh whose message the REFRESH_TOKEN handler of the
    background script answers: the handler makes one POST, to the
    endpoint of the store followed by [/oauth/token], with grant type
    [refresh_token], the client id and the refresh token of the store.
    When the response is ok its tokens end in the cells and in the
    storage; when it is not, the refresh is rejected with "Failed to
    refresh token" and the user is logged out; when the request throws,
    the refresh is rejected with the message of the error, or with
    "Failed to refresh token" when that message is empty. *)
Theorem X17_refresh_through_the_background fetch st :
  OAuth.refreshPromise st = None -> OAuth.refreshToken st <> ""%string ->
  let msg :=
    OAuth.RefreshToken (OAuth.endpoint st) (OAuth.clientId st)
                       (OAuth.refreshToken st) in
  let req :=
    BackgroundMore.RefreshRequest (OAuth.endpoint st ++ "/oauth/token")
      "refresh_token" (OAuth.clientId st) (OAuth.refreshToken st) in
  let '(st', o) :=
    OAuthMore.refresh
      (BackgroundMore.delivered (BackgroundMore.onRefreshToken fetch msg)) st in
  OAuth.sent st' = OAuth.sent st ++ [msg]
  /\ BackgroundMore.refreshRequest msg = req
  /\ match fetch req with
     | Background.FetchOk data =>
         o = Some OAuth.Fulfilled
         /\ OAuth.accessToken st' = OAuth.access_token data
         /\ OAuth.refreshToken st' = OAuth.refresh_token data
         /\ OAuth.storage st' !! "access_token"%string
            = Some (OAuth.access_token data)
         /\ OAuth.storage st' !! "refresh_token"%string
            = Some (OAuth.refresh_token data)
     | Background.FetchNotOk =>
         o = Some (OAuth.Rejected "Failed to refresh token")
         /\ OAuthMore.isLoggedIn st' = false
         /\ OAuth.refreshToken st' = ""%string
         /\ OAuth.storage st' !! "access_token"%string = None
         /\ OAuth.storage st' !! "refresh_token"%string = None
     | Background.FetchThrows message =>
         o = Some (OAuth.Rejected
                     (if String.eqb message "" then "Failed to refresh token"
                      else message))
         /\ OAuthMore.isLoggedIn st' = false
         /\ OAuth.refreshToken st' = ""%string
         /\ OAuth.storage st' !! "access_token"%string = None
         /\ OAuth.storage st' !! "refresh_token"%string = None
     end.
Proof.
  intros Hnone Htok msg req.
  destruct (OAuthMoreFacts.refresh_result
              (BackgroundMore.delivered (BackgroundMore.onRefreshToken fetch msg))
              st Hnone Htok)
    as (st' & -> & Hsent & _ & _ & _ & Hcase).
  split; [assumption|]. split; [reflexivity|].
  unfold BackgroundMore.onRefreshToken in *.
  change (BackgroundMore.refreshRequest msg) with req in *.
  destruct (fetch req) as [data| |message];
    cbn [BackgroundMore.delivered OAuth.outcome_of] in *;
    destruct Hcase as (Ha & Hr & Hs); rewrite Hs.
  - repeat split; auto using OAuthMoreFacts.stored_access,
      OAuthMoreFacts.stored_refresh.
  - unfold OAuthMore.isLoggedIn. rewrite Ha.
    repeat split; auto using OAuthMoreFacts.removed_access,
      OAuthMoreFacts.removed_refresh.
  - unfold OAuthMore.isLoggedIn. rewrite Ha.
    repeat split; auto using OAuthMoreFacts.removed_access,
      OAuthMoreFacts.removed_refresh.
Qed.

Lemma X17_refresh_through_the_background_witness :
  let fetch := fun _ : BackgroundMore.refresh_request => Background.FetchNotOk in
  let msg :=
    OAuth.RefreshToken (OAuth.endpoint idle_store) (OAuth.clientId idle_store)
                       (OAuth.refreshToken idle_store) in
  let req :=
    BackgroundMore.RefreshRequest (OAuth.endpoint idle_store ++ "/oauth/token")
      "refresh_token" (OAuth.clientId idle_store) (OAuth.refreshToken idle_store) in
  let '(st', o) :=
    OAuthMore.refresh
      (BackgroundMore.delivered (BackgroundMore.onRefreshToken fetch msg))
      idle_store in
  OAuth.sent st' = OAuth.sent idle_store ++ [msg]
  /\ BackgroundMore.refreshRequest msg = req
  /\ (o = Some (OAuth.Rejected "Failed to refresh token")
      /\ OAuthMore.isLoggedIn st' = false
      /\ OAuth.refreshToken st' = ""%string
      /\ OAuth.storage st' !! "access_token"%string = None
      /\ OAuth.storage st' !! "refresh_token"%string = None).
Proof.
  apply (X17_refresh_through_the_background
           (fun _ : BackgroundMore.refresh_request => Background.FetchNotOk)
           idle_store).
  - reflexivity.
  - discriminate.
Defined.

(** ** The popup timer: the mutation functions and the memberships *)

Module TimerMoreFacts.
Import Timer TimerMore.
#[local] Open Scope string_scope.

(** The membership that [find] returns is in the list and satisfies
    the test. *)
Lemma find_by_organization o ms m :
  find (fun m => String.eqb (organization m) o) ms = Some m ->
  In m ms /\ organization m = o.
Proof.
  intros H. apply find_some in H as [Hin Ho].
  apply String.eqb_eq in Ho. now split.
Qed.

(** With ids that identify the memberships, looking a membership up by
    its id gives that membership. *)
Lemma find_by_id ms m :
  List.NoDup (map membership_id ms) -> In m ms ->
  find (fun m' => String.eqb (membership_id m') (membership_id m)) ms = Some m.
Proof.
  induction ms as [|m0 ms IH]; intros Hnd Hin; [destruct Hin|].
  inversion Hnd as [|? ? Hnotin Hnd']; subst. cbn [find].
  destruct Hin as [-> | Hin].
  - now rewrite String.eqb_refl.
  - destruct (String.eqb_spec (membership_id m0) (membership_id m)) as [E|E].
    + exfalso. apply Hnotin. rewrite E. now apply in_map.
    + now apply IH.
Qed.

(** A membership of the organization exists when the current
    organization is that one. *)
Lemma current_membership st org :
  currentOrganizationId st = Some org ->
  exists m, In m (memberships st) /\ organization m = org.
Proof.
  unfold currentOrganizationId. destruct (currentMembershipId st) as [mid|];
    [|discriminate].
  destruct (find _ (memberships st)) as [m|] eqn:E; [|discriminate].
  intros [= <-]. apply find_some in E as [Hin _]. eauto.
Qed.

Lemma find_organization_some o ms m :
  In m ms -> organization m = o ->
  exists m', find (fun m => String.eqb (organization m) o) ms = Some m'.
Proof.
  intros Hin Ho.
  destruct (find (fun m => String.eqb (organization m) o) ms) as [m'|] eqn:E;
    [eauto|].
  exfalso. pose proof (find_none _ _ E m Hin) as H. cbn in H.
  rewrite Ho, String.eqb_refl in H. discriminate.
Qed.

(** [stopTimer] on an entry of the organization [org] makes that the
    current organization. *)
Lemma stopTimer_organization endTime now st org :
  List.NoDup (map membership_id (memberships st)) ->
  organization_id (currentTimeEntry st) = Some org ->
  (exists m, In m (memberships st) /\ organization m = org) ->
  currentOrganizationId (stopTimer endTime now st) = Some org.
Proof.
  intros Hnd Horg (m & Hin & Hm).
  unfold stopTimer, timeEntryStop_mutate, currentOrganizationId.
  cbn [currentMembershipId memberships]. rewrite Horg.
  destruct (find_organization_some org (memberships st) m Hin Hm) as (m' & E).
  rewrite E. cbn [option_map].
  apply find_by_organization in E as [Hin' Ho'].
  rewrite (find_by_id _ _ Hnd Hin'). cbn [option_map]. now rewrite Ho'.
Qed.

Lemma find_organization_none o ms :
  (forall m, In m ms -> organization m <> o) ->
  find (fun m => String.eqb (organization m) o) ms = None.
Proof.
  intros H. induction ms as [|m ms IH]; [reflexivity|]. cbn [find].
  destruct (String.eqb_spec (organization m) o) as [E|E].
  - exfalso. apply (H m); [now left | assumption].
  - apply IH. intros m' Hin. apply H. now right.
Qed.

Lemma existsb_find_id mid ms :
  existsb (fun m => String.eqb (membership_id m) mid) ms = true ->
  exists m, find (fun m => String.eqb (membership_id m) mid) ms = Some m.
Proof.
  induction ms as [|m ms IH]; [discriminate|]. cbn [existsb find].
  destruct (String.eqb (membership_id m) mid); [eauto|]. exact IH.
Qed.

Lemma same_memberships_iff xs ys : same_memberships xs ys = true <-> xs = ys.
Proof.
  revert ys. induction xs as [|x xs IH]; intros [|y ys]; cbn;
    try (split; [discriminate | intros [=]]); [tauto|].
  unfold same_membership. rewrite !andb_true_iff, IH, !String.eqb_eq.
  destruct x, y; cbn. split.
  - intros [[-> ->] ->]. reflexivity.
  - intros [= -> -> ->]. auto.
Qed.

End TimerMoreFacts.

(** X18. A timer that is started and then stopped in the popup: the
    create mutation sends the new entry to the current organization with
    the current membership; the stop mutation, which runs after it,
    updates the entry in the same organization under the id that the
    server gave to the created entry, although the popup only knows the
    temporary id, and with the start of the start and the end of the
    stop.  When the creation failed, the update is sent under the
    temporary id. *)
Theorem X18_start_then_stop_reaches_the_server
    created store st org mid startTime stopTime randomUUID :
  List.NoDup (map Timer.membership_id (Timer.memberships st)) ->
  Timer.currentMembershipId st = Some mid ->
  Timer.currentOrganizationId st = Some org ->
  randomUUID <> ""%string -> store !! randomUUID = None ->
  let st1 := Timer.startTimer startTime randomUUID st in
  let st2 := Timer.watchCurrentTimeEntryResponse st1 in
  let st3 := Timer.stopTimer None stopTime st2 in
  exists body optimistic stopped,
    Timer.mutations st3
    = Timer.mutations st
        ++ [Timer.Create body (Some mid) optimistic; Timer.Stop stopped]
    /\ Timer.id optimistic = randomUUID /\ Timer.id stopped = randomUUID
    /\ Timer.start body = Timer.format startTime
    /\ let request := TimerMore.CreateTimeEntry org body (Some mid) in
       let '(store1, a1) :=
         TimerMore.execute created st1
           (Timer.Create body (Some mid) optimistic) store in
       let '(store2, a2) :=
         TimerMore.execute created st3 (Timer.Stop stopped) store1 in
       a1 = TimerMore.Sends request
       /\ exists sent,
            a2 = TimerMore.Sends
                   (TimerMore.UpdateTimeEntry org (Timer.id sent) sent)
            /\ Timer.id sent = match created request with
                               | Some real => real
                               | None => randomUUID
                               end
            /\ Timer.start sent = Timer.format startTime
            /\ Timer.end_ sent = Some (Timer.format stopTime).
Proof.
  intros Hnd Hmid Horg Hid Hfresh st1 st2 st3.
  assert (Horg1 : Timer.currentOrganizationId st1 = Some org) by exact Horg.
  assert (Hentry : Timer.organization_id (Timer.currentTimeEntry st2) = Some org)
    by exact Horg.
  assert (Horg3 : Timer.currentOrganizationId st3 = Some org).
  { apply TimerMoreFacts.stopTimer_organization; try assumption.
    apply (TimerMoreFacts.current_membership st org Horg). }
  eexists _, _, _. split.
  { unfold st3, st2, st1. cbn. rewrite <- app_assoc. cbn [app].
    rewrite Hmid. reflexivity. }
  split; [reflexivity|]. split; [reflexivity|]. split; [reflexivity|].
  cbv zeta. unfold TimerMore.execute, TimerMore.create_mutationFn.
  rewrite Horg1.
  unfold TimerMore.stop_mutationFn. rewrite Horg3.
  cbn [Timer.id Timer.with_end].
  apply String.eqb_neq in Hid.
  change (Timer.id (Timer.currentTimeEntry st2)) with randomUUID.
  rewrite Hid.
  split; [reflexivity|].
  destruct (created _) as [real|].
  - unfold TimerMore.create_onSuccess. cbn [Timer.id].
    rewrite lookup_insert_eq. eexists. split; [reflexivity|].
    repeat split.
  - rewrite Hfresh. eexists. split; [reflexivity|]. repeat split.
Qed.

Lemma X18_start_then_stop_reaches_the_server_witness :
  let created := fun _ : TimerMore.request => Some "server-id"%string in
  let st1 := Timer.startTimer 1700000601000 "temporary-id" running_popup in
  let st2 := Timer.watchCurrentTimeEntryResponse st1 in
  let st3 := Timer.stopTimer None 1700000900000 st2 in
  exists body optimistic stopped,
    Timer.mutations st3
    = Timer.mutations running_popup
        ++ [Timer.Create body (Some "member"%string) optimistic;
            Timer.Stop stopped]
    /\ Timer.id optimistic = "temporary-id"%string
    /\ Timer.id stopped = "temporary-id"%string
    /\ Timer.start body = Timer.format 1700000601000
    /\ let request :=
         TimerMore.CreateTimeEntry "org" body (Some "member"%string) in
       let '(store1, a1) :=
         TimerMore.execute created st1
           (Timer.Create body (Some "member"%string) optimistic) ∅ in
       let '(store2, a2) :=
         TimerMore.execute created st3 (Timer.Stop stopped) store1 in
       a1 = TimerMore.Sends request
       /\ exists sent,
            a2 = TimerMore.Sends
                   (TimerMore.UpdateTimeEntry "org" (Timer.id sent) sent)
            /\ Timer.id sent = match created request with
                               | Some real => real
                               | None => "temporary-id"%string
                               end
            /\ Timer.start sent = Timer.format 1700000601000
            /\ Timer.end_ sent = Some (Timer.format 1700000900000).
Proof.
  apply (X18_start_then_stop_reaches_the_server
           (fun _ : TimerMore.request => Some "server-id"%string) ∅
           running_popup "org" "member" 1700000601000 1700000900000
           "temporary-id").
  - constructor; [intros [] | constructor].
  - reflexivity.
  - reflexivity.
  - discriminate.
  - reflexivity.
Defined.

(** X19. [stopTimer] sets the current membership to the one of the
    organization of the entry it stops: when a membership of that
    organization exists, the current membership becomes a membership of
    it, the current organization becomes that organization (the ids of
    the memberships being distinct), and the stop mutation updates the
    stopped entry there.  When no membership belongs to that
    organization (as for the empty entry, when no timer runs) the
    current membership becomes undefined: the stop mutation then throws
    "No current organization id - create time entry" and calls the
    client with nothing, and a timer started afterwards is created
    without a member id and its mutation throws the same error. *)
Theorem X19_stop_without_membership endTime now now' randomUUID store st :
  let st1 := Timer.stopTimer endTime now st in
  let st2 := Timer.startTimer now' randomUUID st1 in
  (forall o m,
     Timer.organization_id (Timer.currentTimeEntry st) = Some o ->
     In m (Timer.memberships st) -> Timer.organization m = o ->
     (exists m', In m' (Timer.memberships st) /\ Timer.organization m' = o
                 /\ Timer.currentMembershipId st1
                    = Some (Timer.membership_id m'))
     /\ (List.NoDup (map Timer.membership_id (Timer.memberships st)) ->
         Timer.currentOrganizationId st1 = Some o
         /\ (Timer.id (Timer.currentTimeEntry st) <> ""%string ->
             store !! Timer.id (Timer.currentTimeEntry st) = None ->
             exists stopped,
               Timer.mutations st1 = Timer.mutations st ++ [Timer.Stop stopped]
               /\ Timer.id stopped = Timer.id (Timer.currentTimeEntry st)
               /\ TimerMore.stop_mutationFn store st1 stopped
                  = TimerMore.Sends
                      (TimerMore.UpdateTimeEntry o (Timer.id stopped) stopped))))
  /\
  ((forall m o, In m (Timer.memberships st) ->
                Timer.organization_id (Timer.currentTimeEntry st) = Some o ->
                Timer.organization m <> o) ->
   Timer.currentMembershipId st1 = None
   /\ Timer.currentOrganizationId st1 = None
   /\ (exists stopped,
         Timer.mutations st1 = Timer.mutations st ++ [Timer.Stop stopped]
         /\ TimerMore.stop_mutationFn store st1 stopped
            = TimerMore.Throws "No current organization id - create time entry")
   /\ (exists body optimistic,
         Timer.mutations st2
         = Timer.mutations st1 ++ [Timer.Create body None optimistic]
         /\ Timer.organization_id optimistic = None
         /\ TimerMore.create_mutationFn st2 body None
            = TimerMore.Throws "No current organization id - create time entry")).
Proof.
  intros st1 st2. split.
  - intros o m Horg Hin Hm.
    destruct (TimerMoreFacts.find_organization_some o (Timer.memberships st) m
                Hin Hm) as (m' & E).
    pose proof (TimerMoreFacts.find_by_organization _ _ _ E) as [Hin' Ho'].
    split.
    + exists m'. split; [assumption|]. split; [assumption|].
      unfold st1, Timer.stopTimer, Timer.timeEntryStop_mutate.
      cbn [Timer.currentMembershipId]. rewrite Horg, E. reflexivity.
    + intros Hnd.
      assert (Horg1 : Timer.currentOrganizationId st1 = Some o).
      { apply TimerMoreFacts.stopTimer_organization; eauto. }
      split; [exact Horg1|].
      intros Hid Hstore. eexists. split; [reflexivity|].
      split; [reflexivity|].
      unfold TimerMore.stop_mutationFn. rewrite Horg1.
      cbn [Timer.id Timer.with_end].
      apply String.eqb_neq in Hid. rewrite Hid, Hstore. reflexivity.
  - intros Hno.
    assert (Hmid : Timer.currentMembershipId st1 = None).
    { unfold st1, Timer.stopTimer, Timer.timeEntryStop_mutate.
      cbn [Timer.currentMembershipId].
      destruct (Timer.organization_id (Timer.currentTimeEntry st)) as [o|] eqn:Eo.
      - rewrite TimerMoreFacts.find_organization_none; [reflexivity|].
        intros m Hin. now apply Hno.
      - clear. induction (Timer.memberships st); [reflexivity | assumption]. }
    assert (Horg : Timer.currentOrganizationId st1 = None).
    { unfold Timer.currentOrganizationId. now rewrite Hmid. }
    assert (Horg2 : Timer.currentOrganizationId st2 = None).
    { unfold Timer.currentOrganizationId, st2, Timer.startTimer,
        Timer.timeEntryCreate_mutate. cbn [Timer.currentMembershipId].
      now rewrite Hmid. }
    split; [assumption|]. split; [assumption|]. split.
    + eexists. split; [reflexivity|].
      unfold TimerMore.stop_mutationFn. now rewrite Horg.
    + eexists _, _. split; [|split].
      * unfold st2, Timer.startTimer, Timer.timeEntryCreate_mutate.
        cbn [Timer.mutations Timer.currentMembershipId Timer.currentTimeEntry].
        rewrite Hmid. reflexivity.
      * reflexivity.
      * unfold TimerMore.create_mutationFn. now rewrite Horg2.
Qed.

Lemma X19_stop_without_membership_witness :
  let others :=
    Timer.Popup (Timer.currentTimeEntry running_popup) (Some "other"%string)
      [{| Timer.membership_id := "other"; Timer.organization := "org2" |};
       {| Timer.membership_id := "member"; Timer.organization := "org" |}]
      None [] in
  let none :=
    Timer.Popup Timer.emptyTimeEntry (Some "member"%string)
      [{| Timer.membership_id := "member"; Timer.organization := "org" |}]
      None [] in
  (let st1 := Timer.stopTimer None 1700000600000 others in
   Timer.currentMembershipId st1 = Some "member"%string
   /\ Timer.currentOrganizationId st1 = Some "org"%string
   /\ exists stopped,
        Timer.mutations st1 = [Timer.Stop stopped]
        /\ TimerMore.stop_mutationFn ∅ st1 stopped
           = TimerMore.Sends
               (TimerMore.UpdateTimeEntry "org" "7d9f0c1e-server-id" stopped))
  /\
  (let st1 := Timer.stopTimer None 1700000600000 none in
   let st2 := Timer.startTimer 1700000601000 "temporary-id" st1 in
   Timer.currentMembershipId st1 = None
   /\ Timer.currentOrganizationId st1 = None
   /\ (exists stopped,
         Timer.mutations st1 = Timer.mutations none ++ [Timer.Stop stopped]
         /\ TimerMore.stop_mutationFn ∅ st1 stopped
            = TimerMore.Throws "No current organization id - create time entry")
   /\ (exists body optimistic,
         Timer.mutations st2
         = Timer.mutations st1 ++ [Timer.Create body None optimistic]
         /\ Timer.organization_id optimistic = None
         /\ TimerMore.create_mutationFn st2 body None
            = TimerMore.Throws "No current organization id - create time entry")).
Proof.
  intros others none. split.
  - destruct (X19_stop_without_membership None 1700000600000 1700000601000
                "temporary-id" ∅ others) as [Hsome _].
    destruct (Hsome "org"%string
                {| Timer.membership_id := "member"; Timer.organization := "org" |}
                eq_refl (or_intror (or_introl eq_refl)) eq_refl)
      as [_ Hrest].
    destruct Hrest as [Horg Hsend].
    { constructor; [intros [H | []]; discriminate H|].
      constructor; [intros [] | constructor]. }
    split; [reflexivity|]. split; [exact Horg|].
    destruct Hsend as (stopped & Hm & Hid & Hs);
      [discriminate | reflexivity |].
    exists stopped. split; [exact Hm|]. rewrite Hid in Hs. exact Hs.
  - apply (X19_stop_without_membership None 1700000600000 1700000601000
             "temporary-id" ∅ none).
    intros m o [<- | []] [= <-]. discriminate.
Defined.

(** X20. When the query of the memberships brings a list while it had
    none, or a list other than the one it held, the watcher runs: it
    leaves a current membership that is among the new list as it is, and
    otherwise takes the first of the list; afterwards, unless the list
    is empty, the current membership is one of the list and the current
    organization is defined, also after [stopTimer] had made the
    membership undefined.  When the query brings the list it held, the
    watcher does not run and nothing changes: a membership that
    [stopTimer] made undefined stays undefined. *)
Theorem X20_memberships_watcher before ms st :
  let st' := TimerMore.membershipsLoaded before ms st in
  (before <> Some ms ->
   (forall mid m, Timer.currentMembershipId st = Some mid -> In m ms ->
                  Timer.membership_id m = mid ->
                  Timer.currentMembershipId st' = Some mid)
   /\ (ms <> [] ->
       (exists m, In m ms /\
                  Timer.currentMembershipId st' = Some (Timer.membership_id m))
       /\ Timer.currentOrganizationId st' <> None)
   /\ (ms = [] -> Timer.currentMembershipId st' = None)
   /\ Timer.memberships st' = ms)
  /\ (before = Some ms -> st' = st)
  /\ Timer.currentTimeEntry st' = Timer.currentTimeEntry st.
Proof.
  intros st'.
  assert (Hsame : before = Some ms -> st' = st).
  { intros ->. unfold st', TimerMore.membershipsLoaded.
    now rewrite (proj2 (TimerMoreFacts.same_memberships_iff ms ms) eq_refl). }
  assert (Hrun : before <> Some ms ->
            st' = TimerMore.watchMemberships
                    (Timer.Popup (Timer.currentTimeEntry st)
                       (Timer.currentMembershipId st) ms
                       (Timer.currentTimeEntryQuery st) (Timer.mutations st))).
  { intros Hne. unfold st', TimerMore.membershipsLoaded.
    destruct before as [held|]; [|reflexivity].
    destruct (TimerMore.same_memberships held ms) eqn:E; [|reflexivity].
    apply TimerMoreFacts.same_memberships_iff in E. congruence. }
  split; [|split; [exact Hsame|]].
  2:{ destruct before as [held|].
      - unfold st', TimerMore.membershipsLoaded.
        destruct (TimerMore.same_memberships held ms); [reflexivity|].
        unfold TimerMore.watchMemberships.
        cbn [Timer.currentMembershipId Timer.memberships].
        destruct (Timer.currentMembershipId st); [destruct (existsb _ ms)|];
          reflexivity.
      - unfold st', TimerMore.membershipsLoaded, TimerMore.watchMemberships.
        cbn [Timer.currentMembershipId Timer.memberships].
        destruct (Timer.currentMembershipId st); [destruct (existsb _ ms)|];
          reflexivity. }
  intros Hne. rewrite (Hrun Hne). clear Hsame Hrun Hne st'.
  unfold TimerMore.watchMemberships.
  cbn [Timer.currentMembershipId Timer.memberships].
  assert (Hfirst : ms <> [] ->
            forall st0, Timer.memberships st0 = ms ->
              Timer.currentMembershipId st0
              = option_map Timer.membership_id (head ms) ->
              (exists m, In m ms /\
                 Timer.currentMembershipId st0 = Some (Timer.membership_id m))
              /\ Timer.currentOrganizationId st0 <> None).
  { intros Hne st0 Hms Hcur. destruct ms as [|m0 ms']; [congruence|].
    cbn in Hcur. split; [exists m0; split; [now left | assumption]|].
    unfold Timer.currentOrganizationId. rewrite Hcur, Hms. cbn [find].
    now rewrite String.eqb_refl. }
  destruct (Timer.currentMembershipId st) as [mid|] eqn:Emid.
  - destruct (existsb _ ms) eqn:Eex.
    + cbn [Timer.currentMembershipId Timer.memberships Timer.currentTimeEntry].
      split; [intros ? ? [= <-] _ _; reflexivity|].
      split.
      { intros _. apply existsb_exists in Eex as (m & Hin & Hm).
        apply String.eqb_eq in Hm. split.
        - exists m. split; [assumption | now rewrite Hm].
        - unfold Timer.currentOrganizationId.
          cbn [Timer.currentMembershipId Timer.memberships].
          destruct (TimerMoreFacts.existsb_find_id mid ms) as (m' & ->).
          + apply existsb_exists. exists m. split; [assumption|].
            now apply String.eqb_eq.
          + discriminate. }
      split; [intros ->; discriminate Eex|]. reflexivity.
    + cbn [TimerMore.set_currentMembershipId Timer.currentMembershipId
           Timer.memberships Timer.currentTimeEntry].
      split.
      { intros mid' m [= <-] Hin Hm. exfalso.
        assert (existsb (fun m => String.eqb (Timer.membership_id m) mid) ms = true).
        { apply existsb_exists. exists m. split; [assumption|].
          now apply String.eqb_eq. }
        congruence. }
      split;
        [intros Hne;
         exact (Hfirst Hne
                  (TimerMore.set_currentMembershipId
                     (option_map Timer.membership_id (head ms))
                     (Timer.Popup (Timer.currentTimeEntry st)
                        (Timer.currentMembershipId st) ms
                        (Timer.currentTimeEntryQuery st) (Timer.mutations st)))
                  eq_refl eq_refl)|].
      split; [intros ->; reflexivity|]. reflexivity.
  - cbn [TimerMore.set_currentMembershipId Timer.currentMembershipId
         Timer.memberships Timer.currentTimeEntry].
    split; [discriminate|].
    split;
      [intros Hne;
       exact (Hfirst Hne
                  (TimerMore.set_currentMembershipId
                     (option_map Timer.membership_id (head ms))
                     (Timer.Popup (Timer.currentTimeEntry st)
                        (Timer.currentMembershipId st) ms
                        (Timer.currentTimeEntryQuery st) (Timer.mutations st)))
                  eq_refl eq_refl)|].
    split; [intros ->; reflexivity|]. reflexivity.
Qed.

Lemma X20_memberships_watcher_witness :
  let m1 := {| Timer.membership_id := "m1"; Timer.organization := "o1" |} in
  let m2 := {| Timer.membership_id := "m2"; Timer.organization := "o2" |} in
  let st := Timer.stopTimer None 1700000600000
              (Timer.Popup Timer.emptyTimeEntry (Some "m2"%string) [m1; m2]
                 None []) in
  Timer.currentMembershipId st = None
  /\ TimerMore.membershipsLoaded (Some [m1; m2]) [m1; m2] st = st
  /\ Timer.currentMembershipId
       (TimerMore.membershipsLoaded (Some [m1; m2]) [m1; m2] st) = None
  /\ (let st' := TimerMore.membershipsLoaded (Some [m1; m2]) [m2; m1] st in
      (exists m, In m [m2; m1] /\
                 Timer.currentMembershipId st' = Some (Timer.membership_id m))
      /\ Timer.currentMembershipId st' = Some "m2"%string
      /\ Timer.currentOrganizationId st' <> None).
Proof.
  intros m1 m2 st.
  destruct (X20_memberships_watcher (Some [m1; m2]) [m1; m2] st)
    as (_ & Hsame & _).
  destruct (X20_memberships_watcher (Some [m1; m2]) [m2; m1] st)
    as (Hrun & _ & _).
  destruct Hrun as (_ & Hin & _); [discriminate|].
  destruct Hin as [Hm Horg]; [discriminate|].
  split; [reflexivity|]. split; [exact (Hsame eq_refl)|].
  split; [now rewrite (Hsame eq_refl)|].
  split; [exact Hm|]. split; [reflexivity | exact Horg].
Defined.

(** X29. [continueLastTimer] starts a timer now: the new entry takes
    description, project, task, tags and the billable flag from the
    last entry when that one has a start, and from the empty entry
    otherwise, and never its id, end or duration; the create mutation
    carries the entry with the current membership.  After
    [continueLastTimer] and after [startTimer] the timer is active; after
    [stopTimer] it is not, also once the watcher of the query has run.
    When the query of the current entry fails, a started timer whose
    optimistic entry has arrived is reset, and one whose entry still has
    the empty id is kept. *)
Theorem X29_timer_activity lastTimeEntry endTime now randomUUID st :
  randomUUID <> ""%string ->
  let continued := TimerMore.continueLastTimer lastTimeEntry now randomUUID st in
  let started := Timer.startTimer now randomUUID st in
  let stopped := Timer.stopTimer endTime now st in
  let source :=
    match lastTimeEntry with
    | Some last =>
        match Timer.start last with
        | Timer.At _ => last
        | Timer.NoStamp => Timer.emptyTimeEntry
        end
    | None => Timer.emptyTimeEntry
    end in
  Timer.currentTimeEntry continued
  = TimerMore.fresh_entry source (Timer.format now)
  /\ Timer.id (Timer.currentTimeEntry continued) = ""%string
  /\ Timer.end_ (Timer.currentTimeEntry continued) = None
  /\ (exists optimistic,
        Timer.mutations continued
        = Timer.mutations st
            ++ [Timer.Create (TimerMore.fresh_entry source (Timer.format now))
                  (Timer.currentMembershipId st) optimistic]
        /\ Timer.id optimistic = randomUUID)
  /\ TimerMore.isActive continued = true
  /\ TimerMore.isActive started = true
  /\ TimerMore.isActive (Timer.watchCurrentTimeEntryResponse started) = true
  /\ TimerMore.isActive stopped = false
  /\ TimerMore.isActive (Timer.watchCurrentTimeEntryResponse stopped) = false
  /\ TimerMore.watchIsError true started = started
  /\ Timer.currentTimeEntry
       (TimerMore.watchIsError true (Timer.watchCurrentTimeEntryResponse started))
     = Timer.emptyTimeEntry.
Proof.
  intros Hid continued started stopped source.
  assert (Hc : Timer.currentTimeEntry continued
               = TimerMore.fresh_entry source (Timer.format now)).
  { unfold continued, source, TimerMore.continueLastTimer.
    destruct lastTimeEntry as [last|]; [destruct (Timer.start last)|];
      reflexivity. }
  split; [exact Hc|]. rewrite Hc.
  split; [reflexivity|]. split; [reflexivity|]. split.
  { unfold continued, source, TimerMore.continueLastTimer.
    destruct lastTimeEntry as [last|]; [destruct (Timer.start last)|];
      (eexists; split; reflexivity). }
  split; [unfold TimerMore.isActive; now rewrite Hc|].
  split; [reflexivity|]. split; [reflexivity|]. split; [reflexivity|].
  split; [reflexivity|]. split; [reflexivity|].
  unfold TimerMore.watchIsError. cbn.
  apply String.eqb_neq in Hid. now rewrite Hid.
Qed.

Lemma X29_timer_activity_witness :
  let lastTimeEntry := Some (Timer.currentTimeEntry running_popup) in
  let st :=
    Timer.Popup Timer.emptyTimeEntry (Some "member"%string)
      [{| Timer.membership_id := "member"; Timer.organization := "org" |}]
      None [] in
  let continued :=
    TimerMore.continueLastTimer lastTimeEntry 1700000601000 "temporary-id" st in
  let started := Timer.startTimer 1700000601000 "temporary-id" st in
  let stopped := Timer.stopTimer None 1700000601000 st in
  let source :=
    match lastTimeEntry with
    | Some last =>
        match Timer.start last with
        | Timer.At _ => last
        | Timer.NoStamp => Timer.emptyTimeEntry
        end
    | None => Timer.emptyTimeEntry
    end in
  Timer.currentTimeEntry continued
  = TimerMore.fresh_entry source (Timer.format 1700000601000)
  /\ Timer.id (Timer.currentTimeEntry continued) = ""%string
  /\ Timer.end_ (Timer.currentTimeEntry continued) = None
  /\ (exists optimistic,
        Timer.mutations continued
        = Timer.mutations st
            ++ [Timer.Create
                  (TimerMore.fresh_entry source (Timer.format 1700000601000))
                  (Timer.currentMembershipId st) optimistic]
        /\ Timer.id optimistic = "temporary-id"%string)
  /\ TimerMore.isActive continued = true
  /\ TimerMore.isActive started = true
  /\ TimerMore.isActive (Timer.watchCurrentTimeEntryResponse started) = true
  /\ TimerMore.isActive stopped = false
  /\ TimerMore.isActive (Timer.watchCurrentTimeEntryResponse stopped) = false
  /\ TimerMore.watchIsError true started = started
  /\ Timer.currentTimeEntry
       (TimerMore.watchIsError true (Timer.watchCurrentTimeEntryResponse started))
     = Timer.emptyTimeEntry.
Proof.
  apply (X29_timer_activity (Some (Timer.currentTimeEntry running_popup)) None
           1700000601000 "temporary-id").
  discriminate.
Defined.

(** ** The content script: at most one section without overlap *)

Module ContentMoreFacts.
Import Content ContentMore.
#[local] Open Scope string_scope.

Lemma count_cons e d :
  count (e :: d) = (if String.eqb SECTION_ID e then 1 else 0) + count d.
Proof.
  unfold count. rewrite filter_cons.
  destruct (String.eqb SECTION_ID e) eqn:E; case_decide as H;
    cbn in H; rewrite ?E in H; cbn in *; try reflexivity; contradiction || tauto.
Qed.

Lemma count_app d1 d2 : count (d1 ++ d2) = count d1 + count d2.
Proof.
  induction d1 as [|e d1 IH]; [reflexivity|].
  cbn [app]. rewrite !count_cons, IH. lia.
Qed.

Lemma count_one : count [SECTION_ID] = 1.
Proof. now rewrite count_cons, String.eqb_refl. Qed.

Lemma count_found d : getElementById SECTION_ID d = true <-> 0 < count d.
Proof.
  unfold getElementById. induction d as [|e d IH].
  - cbn. split; [discriminate | lia].
  - cbn [existsb]. rewrite count_cons.
    destruct (String.eqb SECTION_ID e); cbn [orb]; [split; [lia | reflexivity]|].
    rewrite IH. cbn. reflexivity.
Qed.

Lemma count_missing d : getElementById SECTION_ID d = false <-> count d = 0.
Proof.
  pose proof (count_found d) as H.
  destruct (getElementById SECTION_ID d); split; intros H'; try reflexivity;
    try discriminate.
  - destruct H as [H _]. specialize (H eq_refl). lia.
  - destruct (count d); [reflexivity|].
    destruct H as [_ H]. discriminate H. lia.
Qed.

Lemma count_remove_first d :
  count (remove_first SECTION_ID d) = count d - 1.
Proof.
  induction d as [|e d IH]; [reflexivity|].
  cbn [remove_first]. rewrite count_cons.
  destruct (String.eqb SECTION_ID e) eqn:E.
  - cbn. lia.
  - rewrite count_cons, E, IH. reflexivity.
Qed.

Lemma count_host_removes d :
  count (filter (fun e => negb (String.eqb SECTION_ID e)) d) = 0.
Proof.
  induction d as [|e d IH]; [reflexivity|].
  rewrite filter_cons. case_decide as H; [|assumption].
  rewrite count_cons, IH.
  destruct (String.eqb SECTION_ID e); cbn in H; [contradiction | reflexivity].
Qed.

Lemma undone_cons k ts :
  undone (k :: ts) = (if finished k then 0 else 1) + undone ts.
Proof.
  unfold undone. rewrite filter_cons.
  destruct k; case_decide as H; cbn in *; try reflexivity; contradiction || tauto.
Qed.

Lemma undone_app ts k :
  undone (ts ++ [k]) = undone ts + (if finished k then 0 else 1).
Proof.
  induction ts as [|k' ts IH].
  - cbn [app]. rewrite undone_cons. cbn. lia.
  - cbn [app]. rewrite !undone_cons, IH. lia.
Qed.

Lemma undone_insert ts : forall i k k',
  ts !! i = Some k ->
  undone (<[i := k']> ts) + (if finished k then 0 else 1)
  = undone ts + (if finished k' then 0 else 1).
Proof.
  induction ts as [|k0 ts IH]; intros i k k' H; [discriminate|].
  destruct i as [|i].
  - cbn in H. injection H as ->. cbn [insert list_insert].
    change (<[0 := k']> (k :: ts)) with (k' :: ts).
    rewrite !undone_cons. lia.
  - change (<[S i := k']> (k0 :: ts)) with (k0 :: <[i := k']> ts).
    rewrite !undone_cons. specialize (IH i k k' H). lia.
Qed.

Lemma lookup_last (ts : list task) k :
  (ts ++ [k])%list !! length ts = Some k.
Proof. now apply list_lookup_middle. Qed.

Lemma sections_count t : sections t = count (document t).
Proof. reflexivity. Qed.

(** A task that is not finished is the only one when at most one
    section is there or about to be. *)
Lemma only_pending t i k :
  at_most_one t -> tasks t !! i = Some k -> finished k = false ->
  count (document t) = 0 /\ undone (tasks t) = 1 /\
  forall k', undone (<[i := k']> (tasks t)) = if finished k' then 0 else 1.
Proof.
  unfold at_most_one, pending. rewrite sections_count. intros Hone Hi Hk.
  assert (Hpos : 0 < undone (tasks t)).
  { pose proof (undone_insert (tasks t) i k Finished Hi) as H.
    rewrite Hk in H. cbn in H. lia. }
  split; [lia|]. split; [lia|]. intros k'.
  pose proof (undone_insert (tasks t) i k k' Hi) as H. rewrite Hk in H.
  destruct (finished k'); lia.
Qed.

(** [injectTimeTrackingSection] when no other call is suspended. *)
Lemma inject_at_most_one i skip t k :
  tasks t !! i = Some k ->
  count (document t) <= 1 ->
  (forall k', undone (<[i := k']> (tasks t)) = if finished k' then 0 else 1) ->
  at_most_one (injectTimeTrackingSection i skip t).
Proof.
  intros Hi Hc Hu. unfold injectTimeTrackingSection, at_most_one, pending.
  destruct (getElementById SECTION_ID (document t)) eqn:Eex.
  - destruct skip; cbn [andb negb].
    + assert (Hrem : count (remove_first SECTION_ID (document t)) = 0)
        by (rewrite count_remove_first; lia).
      cbn [accessToken set_document].
      destruct (String.eqb (accessToken t) ""); cbn [negb];
        rewrite sections_count; cbn [document tasks set_tasks set_document insertSection];
        rewrite ?count_app, ?count_one, Hrem, Hu; cbn; lia.
    + rewrite sections_count. cbn [document tasks set_tasks].
      rewrite Hu. cbn. lia.
  - apply count_missing in Eex. cbn [andb].
    destruct (String.eqb (accessToken t) ""); cbn [negb];
      rewrite sections_count; cbn [document tasks set_tasks set_document insertSection];
      rewrite ?count_app, ?count_one, Eex, Hu; cbn; lia.
Qed.

Lemma afterSidebar_at_most_one i t k :
  at_most_one t -> tasks t !! i = Some k -> finished k = false ->
  at_most_one (afterSidebar i t).
Proof.
  intros Hone Hi Hk.
  destruct (only_pending t i k Hone Hi Hk) as (Hc & _ & Hu).
  unfold afterSidebar. destruct (Linear.getLinearIssueInfo (location t)).
  - apply (inject_at_most_one i false t k Hi); [lia | assumption].
  - unfold at_most_one, pending. rewrite sections_count.
    cbn [document tasks set_tasks]. rewrite Hc, Hu. cbn. lia.
Qed.

(** One event keeps the bound, when an event that starts an injection
    finds no call suspended. *)
Lemma step_at_most_one e t :
  at_most_one t -> (starts_injection e = true -> pending t = 0) ->
  at_most_one (step e t).
Proof.
  intros Hone Hquiet. destruct e as [|i|i late|i|l rendered| |]; cbn [step].
  - specialize (Hquiet eq_refl). unfold handlePageLoad.
    destruct (Linear.isLinearIssuePage (location t)); cbn [negb].
    + destruct (getElementById SECTION_ID (document t)) eqn:Eex; [assumption|].
      apply count_missing in Eex. unfold at_most_one, pending in *.
      rewrite sections_count. cbn [document tasks set_tasks].
      rewrite undone_app, Eex, Hquiet. destruct (sidebar t); cbn; lia.
    + unfold removeTimeTrackingSection.
      destruct (getElementById SECTION_ID (document t)); [|assumption].
      unfold at_most_one, pending in *. rewrite sections_count in *.
      cbn [document tasks set_document]. rewrite count_remove_first. lia.
  - destruct (tasks t !! i) as [[| | |]|] eqn:Ei; try assumption.
    now apply (afterSidebar_at_most_one i t ElementFound).
  - destruct (tasks t !! i) as [[| | |]|] eqn:Ei; try assumption.
    destruct (sidebar t);
      [now apply (afterSidebar_at_most_one i t Polling)|].
    destruct late; [|assumption].
    destruct (only_pending t i Polling Hone Ei eq_refl) as (Hc & _ & Hu).
    unfold at_most_one, pending. rewrite sections_count.
    cbn [document tasks set_tasks]. rewrite Hc, Hu. cbn. lia.
  - destruct (tasks t !! i) as [[| | |]|] eqn:Ei; try assumption.
    destruct (only_pending t i CurrentTimeEntry Hone Ei eq_refl) as (Hc & _ & Hu).
    unfold at_most_one, pending. rewrite sections_count.
    cbn [document tasks set_tasks set_document insertSection].
    rewrite count_app, count_one, Hc, Hu. cbn. lia.
  - exact Hone.
  - unfold at_most_one, pending in *. rewrite sections_count in *.
    cbn [document tasks set_document]. rewrite count_host_removes. lia.
  - specialize (Hquiet eq_refl). destruct (sidebar t); [|assumption].
    unfold at_most_one, pending in Hone. rewrite sections_count in Hone.
    apply (inject_at_most_one _ true _ Finished).
    + cbn [tasks set_tasks]. apply lookup_last.
    + cbn [document set_tasks]. lia.
    + intros k'. cbn [tasks set_tasks].
      pose proof (undone_insert (tasks t ++ [Finished]) (length (tasks t))
                    Finished k' (lookup_last _ _)) as H.
      rewrite undone_app in H. unfold pending in Hquiet. rewrite Hquiet in H.
      cbn in H. destruct (finished k'); lia.
Qed.

Lemma run_at_most_one es : forall t,
  at_most_one t -> spaced es t = true -> at_most_one (run es t).
Proof.
  induction es as [|e es IH]; intros t Hone Hsp; [assumption|].
  cbn [spaced] in Hsp. apply andb_true_iff in Hsp as [He Hsp].
  change (run (e :: es) t) with (run es (step e t)).
  apply IH; [|assumption]. apply step_at_most_one; [assumption|].
  intros Hstart. rewrite Hstart in He. now apply Nat.eqb_eq in He.
Qed.

End ContentMoreFacts.

(** X21. When no page load and no click arrives while an earlier call
    is still suspended at an [await], the page never holds more than one
    section, whatever else happens in between (continuations, frames,
    answers, navigations, the host removing the section): the number of
    sections plus the number of suspended calls stays at most one.  The
    two sections of overlapping loads need the overlap. *)
Theorem X21_one_section_without_overlap es t :
  Content.sections t + ContentMore.pending t <= 1 ->
  ContentMore.spaced es t = true ->
  Content.sections (Content.run es t) + ContentMore.pending (Content.run es t) <= 1
  /\ Content.sections (Content.run es t) <= 1.
Proof.
  intros Hone Hsp.
  pose proof (ContentMoreFacts.run_at_most_one es t Hone Hsp) as H.
  unfold ContentMore.at_most_one in H. split; [exact H | lia].
Qed.

Lemma X21_one_section_without_overlap_witness :
  Content.sections
    (Content.run [Content.PageLoad; Content.Continue 0; Content.Answer 0;
                  Content.PageLoad; Content.Continue 1; Content.Answer 1;
                  Content.Clicked; Content.Answer 1; Content.Answer 2]
       issue_tab)
  + ContentMore.pending
      (Content.run [Content.PageLoad; Content.Continue 0; Content.Answer 0;
                    Content.PageLoad; Content.Continue 1; Content.Answer 1;
                    Content.Clicked; Content.Answer 1; Content.Answer 2]
         issue_tab) <= 1
  /\ Content.sections
       (Content.run [Content.PageLoad; Content.Continue 0; Content.Answer 0;
                     Content.PageLoad; Content.Continue 1; Content.Answer 1;
                     Content.Clicked; Content.Answer 1; Content.Answer 2]
          issue_tab) <= 1.
Proof.
  apply (X21_one_section_without_overlap
           [Content.PageLoad; Content.Continue 0; Content.Answer 0;
            Content.PageLoad; Content.Continue 1; Content.Answer 1;
            Content.Clicked; Content.Answer 1; Content.Answer 2] issue_tab).
  - vm_compute. lia.
  - vm_compute. reflexivity.
Defined.

(** X22. A page load on a page that is not an issue page removes one
    section, the first, and starts nothing: the page is clean afterwards
    when it held at most one section, and still holds a section when it
    held two or more, as after overlapping loads. *)
Theorem X22_leaving_removes_one_section t :
  Linear.isLinearIssuePage (Content.location t) = false ->
  Content.sections (Content.step Content.PageLoad t) = Content.sections t - 1
  /\ Content.tasks (Content.step Content.PageLoad t) = Content.tasks t
  /\ (Content.sections t <= 1 ->
      Content.sections (Content.step Content.PageLoad t) = 0)
  /\ (2 <= Content.sections t ->
      0 < Content.sections (Content.step Content.PageLoad t)).
Proof.
  intros Hpage. cbn [Content.step]. unfold Content.handlePageLoad.
  rewrite Hpage. cbn [negb]. unfold Content.removeTimeTrackingSection.
  assert (Hs : Content.sections
                 (if Content.getElementById Content.SECTION_ID (Content.document t)
                  then Content.set_document
                         (Content.remove_first Content.SECTION_ID
                            (Content.document t)) t
                  else t)
               = Content.sections t - 1).
  { destruct (Content.getElementById Content.SECTION_ID (Content.document t))
      eqn:Eex.
    - rewrite !ContentMoreFacts.sections_count. cbn [Content.document Content.set_document].
      apply ContentMoreFacts.count_remove_first.
    - apply ContentMoreFacts.count_missing in Eex.
      rewrite ContentMoreFacts.sections_count, Eex. reflexivity. }
  rewrite Hs. split; [reflexivity|]. split.
  - destruct (Content.getElementById _ _); reflexivity.
  - split; lia.
Qed.

Lemma X22_leaving_removes_one_section_witness :
  let t :=
    Content.run
      [Content.PageLoad; Content.Continue 0;
       Content.PageLoad; Content.Continue 1;
       Content.Answer 0; Content.Answer 1;
       Content.Navigate (Location.of_url (Js.lit "https://linear.app/acme/inbox"))
         true] issue_tab in
  Content.sections (Content.step Content.PageLoad t) = Content.sections t - 1
  /\ Content.tasks (Content.step Content.PageLoad t) = Content.tasks t
  /\ (Content.sections t <= 1 ->
      Content.sections (Content.step Content.PageLoad t) = 0)
  /\ (2 <= Content.sections t ->
      0 < Content.sections (Content.step Content.PageLoad t)).
Proof.
  apply (X22_leaving_removes_one_section
           (Content.run
              [Content.PageLoad; Content.Continue 0;
               Content.PageLoad; Content.Continue 1;
               Content.Answer 0; Content.Answer 1;
               Content.Navigate
                 (Location.of_url (Js.lit "https://linear.app/acme/inbox")) true]
              issue_tab)).
  vm_compute. reflexivity.
Defined.

(** ** Waiting for an element *)

Module WaitFacts.
Import Wait.
#[local] Open Scope Z_scope.

Lemma check_resolved timeout startTime frames : forall n k,
  check timeout startTime n frames = Resolved k <->
  exists j f, k = (n + j)%nat /\ frames !! j = Some f /\ found f = true /\
              forall i g, (i < j)%nat -> frames !! i = Some g ->
                          goes_on timeout startTime g.
Proof.
  induction frames as [|f0 frames IH]; intros n k; cbn [check].
  - split; [discriminate | intros (j & f & _ & H & _); discriminate].
  - destruct (found f0) eqn:Ef.
    + split.
      * intros [= <-]. exists 0%nat, f0.
        split; [lia|]. split; [reflexivity|]. split; [assumption|].
        intros i g Hi. lia.
      * intros (j & f & -> & Hj & Hf & Hbefore). destruct j as [|j].
        -- now rewrite Nat.add_0_r.
        -- destruct (Hbefore 0%nat f0) as [H _]; [lia | reflexivity | congruence].
    + destruct (timeout <? clock f0 - startTime) eqn:Et.
      * split; [discriminate|].
        intros (j & f & -> & Hj & Hf & Hbefore). destruct j as [|j].
        -- cbn in Hj. congruence.
        -- destruct (Hbefore 0%nat f0) as [_ H]; [lia | reflexivity |].
           apply Z.ltb_lt in Et. lia.
      * rewrite IH. split.
        -- intros (j & f & -> & Hj & Hf & Hbefore). exists (S j), f.
           split; [lia|]. split; [exact Hj|]. split; [exact Hf|].
           intros i g Hi Hg.
           destruct i as [|i].
           ++ cbn in Hg. injection Hg as <-. split; [assumption|].
              apply Z.ltb_ge in Et. lia.
           ++ apply (Hbefore i g); [lia | exact Hg].
        -- intros (j & f & -> & Hj & Hf & Hbefore). destruct j as [|j].
           ++ cbn in Hj. congruence.
           ++ exists j, f.
              split; [lia|]. split; [exact Hj|]. split; [exact Hf|].
              intros i g Hi Hg.
              apply (Hbefore (S i) g); [lia | exact Hg].
Qed.

Lemma check_rejected timeout startTime frames : forall n k,
  check timeout startTime n frames = Rejected k <->
  exists j f, k = (n + j)%nat /\ frames !! j = Some f /\ found f = false /\
              timeout < clock f - startTime /\
              forall i g, (i < j)%nat -> frames !! i = Some g ->
                          goes_on timeout startTime g.
Proof.
  induction frames as [|f0 frames IH]; intros n k; cbn [check].
  - split; [discriminate | intros (j & f & _ & H & _); discriminate].
  - destruct (found f0) eqn:Ef.
    + split; [discriminate|].
      intros (j & f & -> & Hj & Hf & Ht & Hbefore). destruct j as [|j].
      * cbn in Hj. congruence.
      * destruct (Hbefore 0%nat f0) as [H _]; [lia | reflexivity | congruence].
    + destruct (timeout <? clock f0 - startTime) eqn:Et.
      * split.
        -- intros [= <-]. exists 0%nat, f0. apply Z.ltb_lt in Et.
           split; [lia|]. split; [reflexivity|]. split; [assumption|].
           split; [assumption|]. intros i g Hi. lia.
        -- intros (j & f & -> & Hj & Hf & Ht & Hbefore). destruct j as [|j].
           ++ now rewrite Nat.add_0_r.
           ++ destruct (Hbefore 0%nat f0) as [_ H]; [lia | reflexivity |].
              apply Z.ltb_lt in Et. lia.
      * rewrite IH. split.
        -- intros (j & f & -> & Hj & Hf & Ht & Hbefore). exists (S j), f.
           split; [lia|]. split; [exact Hj|]. split; [exact Hf|].
           split; [exact Ht|]. intros i g Hi Hg.
           destruct i as [|i].
           ++ cbn in Hg. injection Hg as <-. split; [assumption|].
              apply Z.ltb_ge in Et. lia.
           ++ apply (Hbefore i g); [lia | exact Hg].
        -- intros (j & f & -> & Hj & Hf & Ht & Hbefore). destruct j as [|j].
           ++ cbn in Hj. injection Hj as <-. apply Z.ltb_ge in Et. lia.
           ++ exists j, f.
              split; [lia|]. split; [exact Hj|]. split; [exact Hf|].
              split; [exact Ht|]. intros i g Hi Hg.
              apply (Hbefore (S i) g); [lia | exact Hg].
Qed.

End WaitFacts.

(** X23. [waitForElement] resolves in the first run of its check in
    which the selector finds the element, provided that in every earlier
    run the clock was at most [timeout] past the start; it rejects in
    the first run in which the element is missing and the clock is more
    than [timeout] past the start.  The element is looked for before the
    clock is read: an element that is there in a run is returned however
    late that run is. *)
Theorem X23_waitForElement_first_run timeout startTime frames k :
  (Wait.waitForElement timeout startTime frames = Wait.Resolved k <->
   exists f, frames !! k = Some f /\ Wait.found f = true /\
             forall i g, i < k -> frames !! i = Some g ->
                         Wait.goes_on timeout startTime g)
  /\
  (Wait.waitForElement timeout startTime frames = Wait.Rejected k <->
   exists f, frames !! k = Some f /\ Wait.found f = false /\
             (timeout < Wait.clock f - startTime)%Z /\
             forall i g, i < k -> frames !! i = Some g ->
                         Wait.goes_on timeout startTime g).
Proof.
  unfold Wait.waitForElement. split.
  - rewrite WaitFacts.check_resolved. split.
    + intros (j & f & -> & H). exists f. exact H.
    + intros (f & H). exists k, f. split; [reflexivity | exact H].
  - rewrite WaitFacts.check_rejected. split.
    + intros (j & f & -> & H). exists f. exact H.
    + intros (f & H). exists k, f. split; [reflexivity | exact H].
Qed.

(** ** The observer of the address *)

Module UrlObserverFacts.
Import Js UrlObserver.

Lemma str_eqb_refl s : str_eqb s s = true.
Proof. now apply BackgroundFacts.str_eqb_eq. Qed.

Lemma str_eqb_neq s t : s <> t -> str_eqb s t = false.
Proof.
  intros H. destruct (str_eqb s t) eqn:E; [|reflexivity].
  apply BackgroundFacts.str_eqb_eq in E. contradiction.
Qed.

Lemma run_same es : forall st,
  Forall (reports (lastUrl st)) es -> run es st = st.
Proof.
  induction es as [|e es IH]; intros st Hall; [reflexivity|].
  inversion Hall as [|? ? He Hes]; subst.
  destruct e as [href|]; [|destruct He]. cbn in He. subst href.
  change (run (Mutation (lastUrl st) :: es) st)
    with (run es (step (Mutation (lastUrl st)) st)).
  cbn [step]. rewrite str_eqb_refl. cbn [negb]. now apply IH.
Qed.

End UrlObserverFacts.

(** X24. The observer of the address calls back once for a change of
    the address, however many mutations report the new address, and
    never for mutations that report the address it remembers.  The
    [popstate] listener calls back as well and leaves the remembered
    address as it is: a navigation in the history that changes the
    address and then the page calls back twice. *)
Theorem X24_url_observer_calls :
  (forall es st,
     Forall (UrlObserver.reports (UrlObserver.lastUrl st)) es ->
     UrlObserver.run es st = st)
  /\
  (forall es st href,
     href <> UrlObserver.lastUrl st ->
     Forall (UrlObserver.reports href) es ->
     UrlObserver.run (UrlObserver.Mutation href :: es) st
     = UrlObserver.State href (S (UrlObserver.calls st)))
  /\
  (forall es st href,
     href <> UrlObserver.lastUrl st ->
     Forall (UrlObserver.reports href) es ->
     UrlObserver.run
       (UrlObserver.Popstate :: UrlObserver.Mutation href :: es) st
     = UrlObserver.State href (S (S (UrlObserver.calls st)))).
Proof.
  assert (Hchange : forall es st href,
            href <> UrlObserver.lastUrl st ->
            Forall (UrlObserver.reports href) es ->
            UrlObserver.run (UrlObserver.Mutation href :: es) st
            = UrlObserver.State href (S (UrlObserver.calls st))).
  { intros es st href Hne Hall.
    change (UrlObserver.run (UrlObserver.Mutation href :: es) st)
      with (UrlObserver.run es (UrlObserver.step (UrlObserver.Mutation href) st)).
    cbn [UrlObserver.step]. rewrite UrlObserverFacts.str_eqb_neq by assumption.
    cbn [negb]. now apply UrlObserverFacts.run_same. }
  split; [exact UrlObserverFacts.run_same|]. split; [exact Hchange|].
  intros es st href Hne Hall.
  change (UrlObserver.run (UrlObserver.Popstate :: UrlObserver.Mutation href :: es) st)
    with (UrlObserver.run (UrlObserver.Mutation href :: es)
            (UrlObserver.step UrlObserver.Popstate st)).
  now rewrite Hchange.
Qed.

Lemma X24_url_observer_calls_witness :
  UrlObserver.run
    [UrlObserver.Popstate;
     UrlObserver.Mutation (Js.lit "https://linear.app/acme/issue/ST-2");
     UrlObserver.Mutation (Js.lit "https://linear.app/acme/issue/ST-2")]
    (UrlObserver.observeUrlChanges (Js.lit "https://linear.app/acme/issue/ST-1"))
  = UrlObserver.State (Js.lit "https://linear.app/acme/issue/ST-2") 2.
Proof.
  destruct X24_url_observer_calls as (_ & _ & H).
  apply (H [UrlObserver.Mutation (Js.lit "https://linear.app/acme/issue/ST-2")]
           (UrlObserver.observeUrlChanges
              (Js.lit "https://linear.app/acme/issue/ST-1"))
           (Js.lit "https://linear.app/acme/issue/ST-2")).
  - discriminate.
  - repeat constructor.
Defined.

(** ** The observer that puts the button back *)

Module WatchdogFacts.
Import Watchdog.

Lemma step_invariant e st : invariant st -> invariant (step e st).
Proof.
  destruct st as [r c f t s b i w l]. unfold invariant, coming, flag.
  cbn [frames checkScheduled suspended timers isReinjecting buttons].
  intros (Hf & Hs & Hb).
  assert (Hshape : s = [] \/ exists p, s = [p]).
  { destruct s as [|p [|q s]]; [now left | right; eauto |].
    cbn in Hs. destruct r; lia. }
  destruct Hshape as [-> | (p & ->)]; [|destruct p];
    destruct e as [| |attached| | |i' w' l']; cbn [step];
    unfold checkAndReinject;
    destruct r, c; cbn in Hf, Hs, Hb |- *;
    try destruct f as [|f]; try destruct t as [|t]; try destruct b as [|b];
    try destruct attached; try destruct i; try destruct w; try destruct l;
    cbn in *; repeat split; lia.
Qed.

Lemma run_invariant es : forall st, invariant st -> invariant (run es st).
Proof.
  induction es as [|e es IH]; intros st H; [assumption|].
  change (run (e :: es) st) with (run es (step e st)).
  apply IH. now apply step_invariant.
Qed.

Lemma invariant_initial buttons issuePage wrapper loggedIn :
  buttons <= 1 ->
  invariant (observeJiraActionsWrapper buttons issuePage wrapper loggedIn).
Proof. intros H. unfold invariant. cbn. repeat split; lia. Qed.

End WatchdogFacts.

(** X25. The observer that puts the button back, whatever the events:
    at most one [checkAndReinject] is queued for an animation frame, and
    one is queued exactly when [checkScheduled] is set; at most one of
    its injections is suspended or waits for its timer to reset
    [isReinjecting], and that is so exactly when the flag is set; and on
    a page that had at most one button, the injections of the observer
    never make a second one. *)
Theorem X25_watchdog_bounds es buttons issuePage wrapper loggedIn :
  buttons <= 1 ->
  let st :=
    Watchdog.run es
      (Watchdog.observeJiraActionsWrapper buttons issuePage wrapper loggedIn) in
  Watchdog.frames st = Watchdog.flag (Watchdog.checkScheduled st)
  /\ length (Watchdog.suspended st) + Watchdog.timers st
     = Watchdog.flag (Watchdog.isReinjecting st)
  /\ Watchdog.frames st <= 1
  /\ length (Watchdog.suspended st) <= 1
  /\ Watchdog.buttons st <= 1.
Proof.
  intros Hb st.
  destruct (WatchdogFacts.run_invariant es _
              (WatchdogFacts.invariant_initial buttons issuePage wrapper
                 loggedIn Hb)) as (Hf & Hs & Hc).
  fold st in Hf, Hs, Hc.
  split; [assumption|]. split; [assumption|].
  unfold Watchdog.flag in *.
  destruct (Watchdog.checkScheduled st), (Watchdog.isReinjecting st);
    repeat split; lia.
Qed.

Lemma X25_watchdog_bounds_witness :
  let st :=
    Watchdog.run
      [Watchdog.HostRemoves; Watchdog.Mutation; Watchdog.Mutation;
       Watchdog.AnimationFrame; Watchdog.Mutation; Watchdog.AnimationFrame;
       Watchdog.Settled true; Watchdog.Mutation; Watchdog.Settled true;
       Watchdog.AnimationFrame; Watchdog.Timeout]
      (Watchdog.observeJiraActionsWrapper 1 true true true) in
  Watchdog.frames st = Watchdog.flag (Watchdog.checkScheduled st)
  /\ length (Watchdog.suspended st) + Watchdog.timers st
     = Watchdog.flag (Watchdog.isReinjecting st)
  /\ Watchdog.frames st <= 1
  /\ length (Watchdog.suspended st) <= 1
  /\ Watchdog.buttons st <= 1.
Proof.
  apply (X25_watchdog_bounds
           [Watchdog.HostRemoves; Watchdog.Mutation; Watchdog.Mutation;
            Watchdog.AnimationFrame; Watchdog.Mutation; Watchdog.AnimationFrame;
            Watchdog.Settled true; Watchdog.Mutation; Watchdog.Settled true;
            Watchdog.AnimationFrame; Watchdog.Timeout]
           1 true true true).
  lia.
Defined.

(** ** The code challenge: its length and its characters *)

Module ChallengeFacts.
Import Js Base64 Pkce.

Lemma round_length s kw : length s = 8 -> length (Sha256.round s kw) = 8.
Proof.
  do 9 (destruct s as [|? s]; try discriminate). intros _. reflexivity.
Qed.

Lemma rounds_length kws : forall s,
  length s = 8 -> length (fold_left Sha256.round kws s) = 8.
Proof.
  induction kws as [|kw kws IH]; intros s Hs; [assumption|].
  cbn [fold_left]. apply IH. now apply round_length.
Qed.

Lemma add_words_length xs : forall ys,
  length ys = length xs -> length (Sha256.add_words xs ys) = length xs.
Proof.
  induction xs as [|x xs IH]; intros [|y ys] H; try discriminate; [reflexivity|].
  cbn [Sha256.add_words length]. f_equal. apply IH. now injection H.
Qed.

Lemma compress_length H block :
  length H = 8 -> length (Sha256.compress H block) = 8.
Proof.
  intros HH. unfold Sha256.compress.
  rewrite add_words_length; [assumption|]. rewrite HH.
  now apply rounds_length.
Qed.

Lemma H0_length : length Sha256.H0 = 8.
Proof. vm_compute. reflexivity. Qed.

Lemma be_bytes_length n x : length (Sha256.be_bytes n x) = n.
Proof. induction n as [|n IH]; cbn; [reflexivity | now rewrite IH]. Qed.

Lemma digest_length msg : length (Sha256.digest msg) = 32.
Proof.
  unfold Sha256.digest.
  assert (H : length (fold_left Sha256.compress
                        (Sha256.blocks (length (Sha256.words (Sha256.pad msg)))
                           (Sha256.words (Sha256.pad msg))) Sha256.H0) = 8).
  { generalize (Sha256.blocks (length (Sha256.words (Sha256.pad msg)))
                  (Sha256.words (Sha256.pad msg))).
    intros bl. generalize H0_length. generalize Sha256.H0.
    induction bl as [|b bl IH]; intros H HH; [assumption|].
    cbn [fold_left]. apply IH. now apply compress_length. }
  revert H. generalize (fold_left Sha256.compress
                          (Sha256.blocks (length (Sha256.words (Sha256.pad msg)))
                             (Sha256.words (Sha256.pad msg))) Sha256.H0).
  intros ws. do 9 (destruct ws as [|? ws]; try discriminate). intros _.
  cbn [flat_map]. rewrite !length_app, !be_bytes_length. reflexivity.
Qed.

Lemma nopad_length bs :
  length (base64url_nopad bs) = (4 * length bs + 2) / 3.
Proof.
  induction bs as [|a|a b|a b c bs IH] using PkceFacts.list_ind3;
    try reflexivity.
  cbn [base64url_nopad length app]. rewrite IH.
  replace (4 * S (S (S (length bs))) + 2) with (4 * length bs + 2 + 4 * 3) by lia.
  rewrite Nat.div_add by discriminate. lia.
Qed.

Lemma enc_url_in i : In (enc url_alphabet i) url_alphabet.
Proof.
  unfold enc.
  destruct (Nat.lt_ge_cases (N.to_nat i) (length url_alphabet)) as [H|H].
  - now apply nth_In.
  - rewrite nth_overflow by assumption. vm_compute. now left.
Qed.

Lemma nopad_alphabet bs :
  Forall (fun a => In a url_alphabet) (base64url_nopad bs).
Proof.
  induction bs as [|a|a b|a b c bs IH] using PkceFacts.list_ind3;
    cbn [base64url_nopad app];
    repeat (constructor; [apply enc_url_in|]); try assumption; constructor.
Qed.

End ChallengeFacts.

(** X26. For every verifier the code challenge that the background
    computes has 43 characters, each a letter, a digit, [-] or [_]: no
    [+], [/] or [=] is left in it, so it needs no escaping in the
    authorization URL. *)
Theorem X26_challenge_is_url_safe verifier :
  length (Pkce.challenge verifier) = 43
  /\ Forall (fun a => In a Base64.url_alphabet) (Pkce.challenge verifier)
  /\ ~ In "+"%char (Pkce.challenge verifier)
  /\ ~ In "/"%char (Pkce.challenge verifier)
  /\ ~ In "="%char (Pkce.challenge verifier).
Proof.
  assert (H : Pkce.challenge verifier
              = Base64.base64url_nopad
                  (Sha256.digest (Pkce.TextEncoder_encode verifier))).
  { unfold Pkce.challenge, Pkce.sha256.
    apply PkceFacts.base64urlencode_spec, PkceFacts.digest_bytes. }
  rewrite H.
  pose proof (ChallengeFacts.nopad_alphabet
                (Sha256.digest (Pkce.TextEncoder_encode verifier))) as Hall.
  split.
  { now rewrite ChallengeFacts.nopad_length, ChallengeFacts.digest_length. }
  split; [exact Hall|].
  assert (Hnot : forall c, ~ In c Base64.url_alphabet ->
                 ~ In c (Base64.base64url_nopad
                           (Sha256.digest (Pkce.TextEncoder_encode verifier)))).
  { intros c Hc Hin. apply Hc.
    clear H. induction Hall as [|a l Ha _ IH]; [destruct Hin|].
    destruct Hin as [<- | Hin]; [assumption | now apply IH]. }
  repeat split; apply Hnot; vm_compute; intuition discriminate.
Qed.

(** ** The settings dialog *)

Module SettingsFacts.
Import Settings.
#[local] Open Scope string_scope.

Lemma list_ascii_app s t :
  list_ascii_of_string (s ++ t)
  = (list_ascii_of_string s ++ list_ascii_of_string t)%list.
Proof.
  induction s as [|a s IH]; [reflexivity|].
  change (list_ascii_of_string (String a s ++ t))
    with (a :: list_ascii_of_string (s ++ t)).
  rewrite IH. reflexivity.
Qed.

Lemma last_char_slash e : is_slash (last_char (e ++ "/")) = true.
Proof.
  unfold last_char. rewrite list_ascii_app, map_app. cbn [list_ascii_of_string map].
  now rewrite last_last.
Qed.

Lemma slice_slash e : slice_0_m1 (e ++ "/") = e.
Proof.
  unfold slice_0_m1. rewrite list_ascii_app. cbn [list_ascii_of_string].
  rewrite removelast_last. apply string_of_list_ascii_of_string.
Qed.

Lemma submit_endpoint_slash e cid st :
  OAuth.endpoint (submit (e ++ "/") cid st) = e.
Proof. unfold submit. rewrite last_char_slash, slice_slash. reflexivity. Qed.

Lemma submit_endpoint_plain e cid st :
  is_slash (last_char e) = false -> OAuth.endpoint (submit e cid st) = e.
Proof. intros H. unfold submit. now rewrite H. Qed.

End SettingsFacts.

(** X27. [submit] of the settings dialog removes one slash from the end
    of the endpoint: an endpoint entered with or without a final slash
    gives the same setting, and the next refresh posts to that endpoint
    followed by [/oauth/token], with the client id of the dialog; of two
    final slashes one is left. *)
Theorem X27_endpoint_without_final_slash e cid st :
  Settings.is_slash (Settings.last_char e) = false ->
  OAuth.refreshPromise st = None -> OAuth.refreshToken st <> ""%string ->
  OAuth.endpoint (Settings.submit e cid st) = e
  /\ Settings.submit (e ++ "/") cid st = Settings.submit e cid st
  /\ OAuth.endpoint (Settings.submit (e ++ "/" ++ "/") cid st) = (e ++ "/")%string
  /\ exists msg,
       OAuth.sent (fst (OAuth.refreshAccessToken (Settings.submit (e ++ "/") cid st)))
       = OAuth.sent st ++ [msg]
       /\ BackgroundMore.refreshRequest msg
          = BackgroundMore.RefreshRequest (e ++ "/oauth/token") "refresh_token"
              cid (OAuth.refreshToken st).
Proof.
  intros Hplain Hnone Htok.
  assert (Hsame : Settings.submit (e ++ "/") cid st = Settings.submit e cid st).
  { unfold Settings.submit.
    now rewrite SettingsFacts.last_char_slash, SettingsFacts.slice_slash, Hplain. }
  split; [now apply SettingsFacts.submit_endpoint_plain|].
  split; [exact Hsame|]. split.
  { replace (e ++ "/" ++ "/")%string with ((e ++ "/") ++ "/")%string.
    - apply SettingsFacts.submit_endpoint_slash.
    - clear. induction e as [|a e IH]; [reflexivity|].
      change (String a e ++ "/" ++ "/")%string
        with (String a (e ++ "/" ++ "/"))%string.
      change ((String a e ++ "/") ++ "/")%string
        with (String a ((e ++ "/") ++ "/"))%string.
      now rewrite IH. }
  rewrite Hsame.
  destruct (OAuthFacts.refresh_starts (Settings.submit e cid st))
    as (st1 & Hcall & Hsent & _); [exact Hnone | exact Htok |].
  rewrite Hcall. cbn [fst]. eexists. split; [exact Hsent|].
  unfold BackgroundMore.refreshRequest, Settings.submit.
  rewrite Hplain. reflexivity.
Qed.

Lemma X27_endpoint_without_final_slash_witness :
  OAuth.endpoint (Settings.submit "https://time.example.org" "client-2" idle_store)
  = "https://time.example.org"%string
  /\ Settings.submit ("https://time.example.org" ++ "/") "client-2" idle_store
     = Settings.submit "https://time.example.org" "client-2" idle_store
  /\ OAuth.endpoint
       (Settings.submit ("https://time.example.org" ++ "/" ++ "/") "client-2"
          idle_store)
     = ("https://time.example.org" ++ "/")%string
  /\ exists msg,
       OAuth.sent
         (fst (OAuth.refreshAccessToken
                 (Settings.submit ("https://time.example.org" ++ "/") "client-2"
                    idle_store)))
       = OAuth.sent idle_store ++ [msg]
       /\ BackgroundMore.refreshRequest msg
          = BackgroundMore.RefreshRequest
              ("https://time.example.org" ++ "/oauth/token") "refresh_token"
              "client-2" (OAuth.refreshToken idle_store).
Proof.
  apply (X27_endpoint_without_final_slash "https://time.example.org" "client-2"
           idle_store).
  - reflexivity.
  - reflexivity.
  - discriminate.
Defined.

(** ** The click on the button *)

Module ClickFacts.
Import Click.
#[local] Open Scope string_scope.

Lemma refresh_plain e x :
  In x (refresh e) -> x = Inject \/ x = Alert FAILED.
Proof.
  unfold refresh. destruct (sidebar e); [|intros []].
  destruct (injectFails e); cbn; intuition.
Qed.

Lemma refresh_alerts e : length (List.filter is_alert (refresh e)) <= 1.
Proof.
  unfold refresh. destruct (sidebar e), (injectFails e); cbn; lia.
Qed.

Lemma given_some o : given o = true -> exists s, o = Some s /\ s <> "".
Proof.
  destruct o as [s|]; [|discriminate]. cbn. intros H.
  apply negb_true_iff, String.eqb_neq in H. eauto.
Qed.

Ltac in_cases :=
  repeat match goal with
    | H : In _ (_ :: _) |- _ => destruct H as [H|H]
    | H : In _ [] |- _ => destruct H
    | H : _ \/ _ |- _ => destruct H as [H|H]
    | H : False |- _ => destruct H
    | H : In _ (_ ++ _)%list |- _ => apply in_app_iff in H as [H|H]
    | H : In _ (refresh _) |- _ => apply refresh_plain in H as [H|H]
    | H : In _ (if ?b then _ else _) |- _ => destruct b eqn:?
    | H : In _ (match ?c with FetchFails => _ | Fetched _ => _ end) |- _ =>
        destruct c as [|[[? ?]|]] eqn:?
    | H : _ = _ |- _ => discriminate H
    end.

Lemma toggle_create desc tracking e o m d :
  In (CreateTimeEntry o m d) (toggle desc tracking e) <->
  accessToken e <> "" /\ tracking = false /\
  current_organization_id e = Some o /\ o <> "" /\
  currentMembershipId e = Some m /\ m <> "" /\ d = desc.
Proof.
  unfold toggle. split.
  - intros H. destruct (String.eqb_spec (accessToken e) "") as [Ht|Ht];
      [in_cases|].
    destruct tracking; [in_cases|].
    destruct H as [H|H]; [discriminate|].
    destruct (given (current_organization_id e)) eqn:Eo;
      [|cbn in H; in_cases].
    destruct (given (currentMembershipId e)) eqn:Em;
      [|cbn in H; in_cases].
    apply given_some in Eo as (o' & Eo & Ho).
    apply given_some in Em as (m' & Em & Hm).
    rewrite Eo, Em in H |- *. cbn in H.
    destruct H as [[= <- <- <-]|H]; [repeat split; auto | in_cases].
  - intros (Ht & -> & Eo & Ho & Em & Hm & ->).
    apply String.eqb_neq in Ht. rewrite Ht, Eo, Em. cbn.
    apply String.eqb_neq in Ho, Hm. rewrite Ho, Hm. cbn. right. now left.
Qed.

Lemma toggle_update desc tracking e o i :
  In (UpdateTimeEntry o i) (toggle desc tracking e) <->
  accessToken e <> "" /\ tracking = true /\
  current e = Fetched (Some (Entry i o)) /\ i <> "".
Proof.
  unfold toggle. split.
  - intros H. destruct (String.eqb_spec (accessToken e) "") as [Ht|Ht];
      [in_cases|].
    destruct tracking; [|in_cases].
    destruct H as [H|H]; [discriminate|].
    destruct (current e) as [|[[i' o']|]] eqn:Ec; [in_cases | | in_cases].
    cbn [id organization_id] in H.
    destruct (String.eqb_spec i' "") as [Hi|Hi]; cbn [negb] in H; [in_cases|].
    destruct H as [[= <- <-]|H]; [repeat split; auto | in_cases].
  - intros (Ht & -> & -> & Hi).
    apply String.eqb_neq in Ht. rewrite Ht. cbn [id organization_id].
    apply String.eqb_neq in Hi. rewrite Hi. cbn. right. now left.
Qed.

Lemma refresh_calls e : List.filter is_call (refresh e) = [].
Proof. unfold refresh. destruct (sidebar e), (injectFails e); reflexivity. Qed.

Lemma toggle_alerts desc tracking e :
  length (List.filter is_alert (toggle desc tracking e)) <= 1.
Proof.
  pose proof (refresh_alerts e) as Hr. unfold toggle.
  destruct (String.eqb (accessToken e) ""); [cbn; lia|].
  destruct tracking.
  - destruct (current e) as [|[data|]]; cbn [List.filter is_alert];
      [cbn; lia | | assumption].
    destruct (negb (String.eqb (id data) "")); [|assumption].
    cbn [List.filter is_alert]. destruct (updateFails e); [cbn; lia | assumption].
  - cbn [List.filter is_alert].
    destruct (negb (given (current_organization_id e))
              || negb (given (currentMembershipId e))); [cbn; lia|].
    cbn [List.filter is_alert]. destruct (createFails e); [cbn; lia | assumption].
Qed.

Lemma toggle_no_fetch desc e :
  ~ In GetCurrentTimeEntry (toggle desc false e).
Proof.
  unfold toggle. intros H.
  destruct (String.eqb (accessToken e) ""); in_cases.
Qed.

End ClickFacts.

(** X28. A click on the button, in every environment.  It creates a
    time entry exactly when the button is there, the user is logged in,
    the button was rendered as not tracking, and the storage holds an
    organization and a membership, which the request carries with the
    description of the issue; the server is not asked whether a timer
    runs.  It updates a time entry exactly when the button was rendered
    as tracking and the current entry of the server has an id, in the
    organization of that entry.  Without an access token it calls
    neither the client nor the storage.  It shows at most one alert, and
    whenever the button is there it ends by enabling it. *)
Theorem X28_click_requests issueDescription isCurrentlyTracking e :
  let trace := Click.handleTrackingClick issueDescription isCurrentlyTracking e in
  (forall o m d,
     In (Click.CreateTimeEntry o m d) trace <->
     Click.button e = true /\ Click.accessToken e <> ""%string /\
     isCurrentlyTracking = false /\
     Click.current_organization_id e = Some o /\ o <> ""%string /\
     Click.currentMembershipId e = Some m /\ m <> ""%string /\
     d = issueDescription)
  /\
  (forall o i,
     In (Click.UpdateTimeEntry o i) trace <->
     Click.button e = true /\ Click.accessToken e <> ""%string /\
     isCurrentlyTracking = true /\
     Click.current e = Click.Fetched (Some (Click.Entry i o)) /\ i <> ""%string)
  /\
  (Click.accessToken e = ""%string -> List.filter Click.is_call trace = [])
  /\
  (isCurrentlyTracking = false -> ~ In Click.GetCurrentTimeEntry trace)
  /\
  length (List.filter Click.is_alert trace) <= 1
  /\
  (Click.button e = true ->
   exists body, trace = Click.Disable :: body ++ [Click.Enable]).
Proof.
  intros trace. unfold trace, Click.handleTrackingClick.
  destruct (Click.button e) eqn:Eb; cbn [negb].
  - split; [|split; [|split; [|split; [|split]]]].
    + intros o m d. rewrite <- ClickFacts.toggle_create. split.
      * intros [H|H]; [discriminate|].
        apply in_app_iff in H as [H|[H|[]]]; [auto | discriminate].
      * intros (_ & H). right. apply in_app_iff. now left.
    + intros o i. rewrite <- (ClickFacts.toggle_update issueDescription). split.
      * intros [H|H]; [discriminate|].
        apply in_app_iff in H as [H|[H|[]]]; [auto | discriminate].
      * intros (_ & H). right. apply in_app_iff. now left.
    + intros Ht. unfold Click.toggle. rewrite Ht. reflexivity.
    + intros -> [H|H]; [discriminate|].
      apply in_app_iff in H as [H|[H|[]]]; [|discriminate].
      now apply ClickFacts.toggle_no_fetch in H.
    + cbn [List.filter Click.is_alert]. rewrite List.filter_app, length_app.
      pose proof (ClickFacts.toggle_alerts issueDescription isCurrentlyTracking e).
      cbn. lia.
    + intros _. eexists. reflexivity.
  - split; [|split; [|split; [|split; [|split]]]].
    + intros o m d. split; [intros [] | intros (H & _); discriminate].
    + intros o i. split; [intros [] | intros (H & _); discriminate].
    + reflexivity.
    + intros _ [].
    + cbn. lia.
    + discriminate.
Qed.

Lemma X28_click_requests_witness :
  let e :=
    Click.Env true "access" (Click.Fetched (Some (Click.Entry "running" "org-a")))
      (Some "org-b"%string) (Some "member-b"%string) false false true false in
  let trace := Click.handleTrackingClick "ST-583 fix bug" false e in
  In (Click.CreateTimeEntry "org-b" "member-b" "ST-583 fix bug") trace
  /\ ~ In Click.GetCurrentTimeEntry trace.
Proof.
  destruct (X28_click_requests "ST-583 fix bug" false
              (Click.Env true "access"
                 (Click.Fetched (Some (Click.Entry "running" "org-a")))
                 (Some "org-b"%string) (Some "member-b"%string)
                 false false true false))
    as (Hcreate & _ & _ & Hfetch & _).
  split.
  - apply Hcreate. repeat split; try reflexivity; discriminate.
  - apply Hfetch. reflexivity.
Defined.
